(** * onmt/modules/VariationalAttention.py: a shallow embedding

    The module is embedded as pure functions over an error monad.  Tensors
    are a shape and a flat, row-major list of elements, as the tensor runtime
    stores a contiguous tensor, so that [view], [squeeze] and [unsqueeze]
    only touch the shape; strides are not modelled.  Floating-point
    arithmetic is idealised: finite values are real numbers, and the two
    special values the code itself produces (the [-inf] written by
    [masked_fill_] and the NaN a soft-max yields on a row that is entirely
    [-inf]) are explicit constructors.  Random draws are an explicit
    argument (the injected random source).  Rounding, overflow and
    underflow are not modelled. *)

From Stdlib Require Import String List Arith PeanoNat Bool Lia Reals Lra.
Import ListNotations.
Local Open Scope string_scope.
Local Open Scope list_scope.
Local Open Scope nat_scope.

Set Implicit Arguments.

(** ** Python exceptions and the error monad *)

Inductive exn : Type :=
| AssertionError (site : string)
| PyException (msg : string)
| UnboundLocalError (var : string)
| TypeError (msg : string)
| AttributeError (msg : string)
| ValueError (msg : string)
| IndexError (msg : string)
| RuntimeError (msg : string).

Inductive result (A : Type) : Type :=
| Ok (a : A)
| Raise (e : exn).
Arguments Ok {A} a.
Arguments Raise {A} e.

Definition bind {A B} (c : result A) (k : A -> result B) : result B :=
  match c with
  | Ok a => k a
  | Raise e => Raise e
  end.

Notation "x <- c ;; k" := (bind c (fun x => k))
  (at level 61, c at next level, right associativity).
Notation "' pat <- c ;; k" := (bind c (fun x => match x with pat => k end))
  (at level 61, pat pattern, c at next level, right associativity).
Notation "c ;; k" := (bind c (fun _ => k))
  (at level 61, right associativity).

(** [assert cond] of Python; [site] names the asserted expression. *)
Definition py_assert (cond : bool) (site : string) : result unit :=
  if cond then Ok tt else Raise (AssertionError site).

(** Modelled from the spec: [onmt.Utils.aeq] is imported but is not part of
    the file; section 4.1 has the size checks "fail fast with a descriptive
    size-mismatch error".  It is an assertion on the equality of its
    arguments. *)
Definition aeq (a b : nat) : result unit :=
  py_assert (a =? b) "aeq".

(** ** Element types *)

(** A score after [masked_fill_(.., -inf)]. *)
Inductive xreal : Type :=
| Fin (x : R)
| NegInf.

(** A value downstream of a soft-max: a real number or NaN. *)
Inductive fl : Type :=
| Val (x : R)
| NaN.

Definition is_fin (x : xreal) : bool :=
  match x with Fin _ => true | NegInf => false end.

(** [exp] on scores: [exp(-inf) = 0]. *)
Definition xexp (x : xreal) : R :=
  match x with Fin r => exp r | NegInf => 0%R end.

(** The arithmetic the tensor operations need, at reals and at [fl]. *)
Class Num (A : Type) : Type := {
  zero : A;
  add : A -> A -> A;
  mul : A -> A -> A;
  ofR : R -> A;
  lift1 : (R -> R) -> A -> A
}.

#[export] Instance Num_R : Num R := {
  zero := 0%R;
  add := Rplus;
  mul := Rmult;
  ofR := fun x => x;
  lift1 := fun f x => f x
}.

Definition fl_bin (f : R -> R -> R) (a b : fl) : fl :=
  match a, b with
  | Val x, Val y => Val (f x y)
  | _, _ => NaN
  end.

#[export] Instance Num_fl : Num fl := {
  zero := Val 0%R;
  add := fl_bin Rplus;
  mul := fl_bin Rmult;
  ofR := Val;
  lift1 := fun f a => match a with Val x => Val (f x) | NaN => NaN end
}.

(** Sum of [f 0 .. f (n-1)]. *)
Fixpoint gsum {A} `{Num A} (n : nat) (f : nat -> A) : A :=
  match n with
  | 0 => zero
  | S k => add (gsum k f) (f k)
  end.

(** ** Tensors: shape and row-major storage *)

Record tensor (A : Type) : Type := Tensor {
  shape : list nat;
  data : list A
}.
Arguments Tensor {A} shape data.

Definition numel (sh : list nat) : nat := fold_right Nat.mul 1 sh.

Definition rank {A} (t : tensor A) : nat := length (shape t).

Definition tab {A} (n : nat) (f : nat -> A) : list A := map f (seq 0 n).

(** Row-major offset of a multi-index, and its inverse. *)
Fixpoint ravel (sh idx : list nat) : nat :=
  match sh, idx with
  | _ :: sh', i :: idx' => i * numel sh' + ravel sh' idx'
  | _, _ => 0
  end.

Fixpoint unravel (sh : list nat) (i : nat) : list nat :=
  match sh with
  | [] => []
  | _ :: sh' => i / numel sh' :: unravel sh' (i mod numel sh')
  end.

(** [t[idx]]; [d] is returned outside the storage. *)
Definition tget {A} (d : A) (t : tensor A) (idx : list nat) : A :=
  nth (ravel (shape t) idx) (data t) d.

(** The tensor of shape [sh] whose element at [idx] is [f idx]. *)
Definition tgen {A} (sh : list nat) (f : list nat -> A) : tensor A :=
  Tensor sh (tab (numel sh) (fun i => f (unravel sh i))).

Definition tmap {A B} (f : A -> B) (t : tensor A) : tensor B :=
  Tensor (shape t) (map f (data t)).

(** [t.unsqueeze(d)] *)
Definition unsqueeze {A} (d : nat) (t : tensor A) : result (tensor A) :=
  if d <=? rank t
  then Ok (Tensor (firstn d (shape t) ++ 1 :: skipn d (shape t)) (data t))
  else Raise (IndexError "Dimension out of range").

(** [t.squeeze(d)]: drops dimension [d] when its size is 1.  Every dimension
    squeezed in [forward] exists. *)
Definition squeeze {A} (d : nat) (t : tensor A) : tensor A :=
  if nth d (shape t) 0 =? 1
  then Tensor (firstn d (shape t) ++ skipn (S d) (shape t)) (data t)
  else t.

(** [t.view(sh)].  A tensor of the model is its elements in row-major
    order: strides are not modelled, and this is the view of a contiguous
    tensor. *)
Definition view {A} (sh : list nat) (t : tensor A) : result (tensor A) :=
  if numel sh =? numel (shape t)
  then Ok (Tensor sh (data t))
  else Raise (RuntimeError "shape is invalid for input size").

(** [t.view(-1, sh...)]: the leading dimension is inferred. *)
Definition view_infer {A} (sh : list nat) (t : tensor A) : result (tensor A) :=
  if numel sh =? 0
  then Raise (RuntimeError "cannot infer the unspecified dimension")
  else if numel (shape t) mod numel sh =? 0
  then Ok (Tensor (numel (shape t) / numel sh :: sh) (data t))
  else Raise (RuntimeError "shape is invalid for input size").

(** Broadcasting: a dimension of size 1 is read at index 0. *)
Definition bcast_ok (src tgt : nat) : bool := (src =? tgt) || (src =? 1).
Definition bcast (src i : nat) : nat := if src =? 1 then 0 else i.

Fixpoint bcast_all_ok (src tgt : list nat) : bool :=
  match src, tgt with
  | s :: src', t :: tgt' => bcast_ok s t && bcast_all_ok src' tgt'
  | [], [] => true
  | _, _ => false
  end.

Fixpoint bcast_idx (src idx : list nat) : list nat :=
  match src, idx with
  | s :: src', i :: idx' => bcast s i :: bcast_idx src' idx'
  | _, _ => []
  end.

(** [t.expand(tgt)]: shapes are aligned on the right, missing leading
    dimensions count as 1. *)
Definition expand {A} (d : A) (tgt : list nat) (t : tensor A)
  : result (tensor A) :=
  if rank t <=? length tgt then
    let padded := repeat 1 (length tgt - rank t) ++ shape t in
    if bcast_all_ok padded tgt
    then Ok (tgen tgt (fun idx =>
               nth (ravel padded (bcast_idx padded idx)) (data t) d))
    else Raise (RuntimeError "The expanded size must match the existing size")
  else Raise (RuntimeError "the number of sizes provided must be greater or equal to the number of dimensions").

(** [x.masked_fill_(m, v)]: [m] is broadcast to the shape of [x]. *)
Definition masked_fill_ {A} (x : tensor A) (m : tensor bool) (v : A)
  : result (tensor A) :=
  m' <- expand false (shape x) m ;;
  Ok (Tensor (shape x)
        (tab (numel (shape x))
           (fun i => if nth i (data m') false then v else nth i (data x) v))).

(** [1 - mask] on a byte mask. *)
Definition one_minus (m : tensor bool) : tensor bool := tmap negb m.

(** [a.transpose(1, 2)] of a rank-3 tensor. *)
Definition transpose12 {A} (d : A) (a : tensor A) : tensor A :=
  match shape a with
  | [b; n; m] =>
      tgen [b; m; n] (fun idx =>
        match idx with
        | [i; j; k] => tget d a [i; k; j]
        | _ => d
        end)
  | _ => a
  end.

(** [torch.bmm(a, b)] *)
Definition bmm {A} `{Num A} (a b : tensor A) : result (tensor A) :=
  match shape a, shape b with
  | [ba; n; m], [bb; m'; p] =>
      if (ba =? bb) && (m =? m') then
        Ok (tgen [ba; n; p] (fun idx =>
              match idx with
              | [i; j; k] =>
                  gsum m (fun l => mul (tget zero a [i; j; l]) (tget zero b [i; l; k]))
              | _ => zero
              end))
      else Raise (RuntimeError "bmm: size mismatch")
  | _, _ => Raise (RuntimeError "bmm: expected 3D tensors")
  end.

(** [torch.cat([a, b], -1)]; the leading dimensions of the two arguments
    agree at both call sites. *)
Definition cat_last {A} (d : A) (a b : tensor A) : tensor A :=
  let lead := removelast (shape a) in
  let p := last (shape a) 0 in
  let q := last (shape b) 0 in
  tgen (lead ++ [p + q]) (fun idx =>
    let j := last idx 0 in
    if j <? p then tget d a idx
    else tget d b (removelast idx ++ [j - p])).

(** [nn.Linear(in_features, out_features, bias=False)]; the weight is
    [out_features x in_features], row-major. *)
Record Linear : Type := nn_Linear {
  in_features : nat;
  out_features : nat;
  weight : list R
}.

(** [l(x)]: the last dimension of [x] is contracted against each weight row.
    The [aeq] checks of the callers make the last dimension [in_features]. *)
Definition linear {A} `{Num A} (l : Linear) (x : tensor A) : tensor A :=
  let lead := removelast (shape x) in
  tgen (lead ++ [out_features l]) (fun idx =>
    let o := last idx 0 in
    gsum (in_features l) (fun j =>
      mul (tget zero x (removelast idx ++ [j]))
          (ofR (nth (o * in_features l + j) (weight l) 0%R)))).

(** [nn.Softmax(dim=-1)] on masked scores.  A row without a finite entry has
    maximum [-inf]; the runtime then computes [exp(-inf - -inf)], NaN, for
    every entry of the row.  The values are exact reals: rounding and the
    underflow of small weights to 0 are not modelled. *)
Definition softmax (x : tensor xreal) : tensor fl :=
  let S_ := last (shape x) 0 in
  tgen (shape x) (fun idx =>
    let row := removelast idx in
    if existsb (fun j => is_fin (tget NegInf x (row ++ [j]))) (seq 0 S_)
    then Val (xexp (tget NegInf x idx)
              / gsum S_ (fun j => xexp (tget NegInf x (row ++ [j]))))
    else NaN).

(** [x.unsqueeze(0).repeat(r, 1, .., 1)] after the unsqueeze: the tensor is
    tiled [r] times along its leading dimension. *)
Definition repeat0 {A} (d : A) (r : nat) (t : tensor A) : tensor A :=
  match shape t with
  | d0 :: rest =>
      tgen (r * d0 :: rest) (fun idx =>
        match idx with
        | i :: idx' => tget d t (i mod d0 :: idx')
        | [] => d
        end)
  | [] => t
  end.

(** [x.permute(2, 1, 0, 3)] of a rank-4 tensor. *)
Definition permute2103 {A} (d : A) (t : tensor A) : tensor A :=
  match shape t with
  | [a; b; c; e] =>
      tgen [c; b; a; e] (fun idx =>
        match idx with
        | [i; j; k; l] => tget d t [k; j; i; l]
        | _ => d
        end)
  | _ => t
  end.

(** [zeros(sh).scatter_(-1, ids, 1)]: one-hot rows at the indices [ids]
    (whose last dimension has size 1). *)
Definition scatter_one_hot (sh : list nat) (ids : tensor nat) : tensor R :=
  tgen sh (fun idx =>
    if last idx 0 =? tget 0 ids (removelast idx ++ [0]) then 1%R else 0%R).

(** [x.gather(-1, ids)] *)
Definition gather_last {A} (d : A) (x : tensor A) (ids : tensor nat)
  : tensor A :=
  tgen (shape ids) (fun idx => tget d x (removelast idx ++ [tget 0 ids idx])).

(** Whether position [s] of example [b] lies inside the example's length. *)
Definition in_length (lengths : list nat) (idx : list nat) : bool :=
  match idx with
  | [b; s] => s <? nth b lengths 0
  | _ => false
  end.

(** Modelled from the spec: [onmt.Utils.sequence_mask] is imported but is not
    part of the file; section 4.2: "Given per-batch valid lengths, construct
    a boolean mask (batch, source_len) marking valid positions".  The call
    sites (lines 272 and 291) pass the lengths alone, so the mask has one
    row per length and is as wide as the longest of them, which an empty
    batch does not have. *)
Definition sequence_mask (lengths : list nat) : result (tensor bool) :=
  match lengths with
  | [] => Raise (RuntimeError "max of an empty tensor")
  | _ :: _ =>
      let max_len := list_max lengths in
      Ok (tgen [length lengths; max_len] (in_length lengths))
  end.

(** ** The data model *)

(** Modelled from the spec: [onmt.Utils.Params] is imported but is not part
    of the file; section 3, DistributionParams: [dist_type], [alpha], and the
    optional [log_alpha], [samples] and [sample_log_probs].  A field left out
    of a constructor call is [None]. *)
Record Params (A : Type) : Type := mkParams {
  alpha : option (tensor A);
  log_alpha : option (tensor A);
  dist_type : string;
  samples : option (tensor A);
  sample_log_probs : option (tensor A)
}.

(** Modelled from the spec: [onmt.Utils.DistInfo] is imported but is not part
    of the file; section 3: it pairs a posterior [q] and a prior [p], either
    of which may be absent.  The prior's parameters come out of a soft-max
    and are [fl]; the posterior's are the caller's. *)
Record DistInfo : Type := mkDistInfo {
  q : option (Params R);
  p : option (Params fl)
}.

(** The four values [forward] returns. *)
Record output : Type := mkOutput {
  h_y : tensor R;
  h_c : tensor fl;
  c_align_vectors : tensor fl;
  dist_info : DistInfo
}.

(** The random source: the values [Dirichlet.rsample] and
    [Categorical.sample] write, by flat position in the drawn tensor. *)
Record rng : Type := mkRng {
  dirichlet_rsample : nat -> R;
  categorical_sample : nat -> nat
}.

(** ** The module *)

(** The callable stored as [scoresF]: one that returns a new tensor holding
    [f] of each entry, as [F.softplus] does, or one that hands back the
    tensor it was given, as the identity does; the scores and the log-scores
    of lines 267-269 then share their storage. *)
Inductive scores_fn : Type :=
| Fresh (f : R -> R)
| Same.

(** The attributes [__init__] sets.  The two bias-free layers are kept as
    their weights: [linear_in] is [nn.Linear(dim, dim)] and [linear_out] is
    [nn.Linear(dim*2, dim)].  The layers built only for
    [p_dist_type = "log_normal"] are read by [get_raw_scores] alone, which
    no path calls; they are left out, with [self.sm] and [self.tanh], which
    hold no state. *)
Record VariationalAttention : Type := mkVariationalAttention {
  dim : nat;
  p_dist_type : string;
  q_dist_tyqe : string;
  use_prior : bool;
  scoresF : scores_fn;
  n_samples : nat;
  mode : string;
  linear_in_weight : list R;
  linear_out_weight : list R
}.

Definition linear_in (self : VariationalAttention) : Linear :=
  nn_Linear (dim self) (dim self) (linear_in_weight self).

Definition linear_out (self : VariationalAttention) : Linear :=
  nn_Linear (dim self * 2) (dim self) (linear_out_weight self).

(** [F.softplus], the default [scoresF], with its defaults [beta = 1] and
    [threshold = 20]: above the threshold the function is the identity.  The
    values are exact reals: rounding and underflow are not modelled. *)
Definition softplus (x : R) : R :=
  if Rlt_dec 20 x then x else ln (1 + exp x).

(** [__init__]; the initial weights of the two layers are arguments.
    [e_dist_type] and [input_feed_type] are accepted and dropped, and
    [q_dist_type] is stored as [q_dist_tyqe]. *)
Definition __init__ (dim : nat) (p_dist_type q_dist_type e_dist_type : string)
    (use_prior : bool) (scoresF : scores_fn) (n_samples : nat)
    (mode input_feed_type : string) (w_in w_out : list R)
  : VariationalAttention :=
  {| dim := dim;
     p_dist_type := p_dist_type;
     q_dist_tyqe := q_dist_type;
     use_prior := use_prior;
     scoresF := scoresF;
     n_samples := n_samples;
     mode := mode;
     linear_in_weight := w_in;
     linear_out_weight := w_out |}.

(** [score]: Luong's "general" score. *)
Definition score (self : VariationalAttention) (h_t h_s : tensor R)
  : result (tensor R) :=
  match shape h_s with
  | [src_batch; src_len; src_dim] =>
    match shape h_t with
    | [tgt_batch; tgt_len; tgt_dim] =>
        aeq src_batch tgt_batch ;;
        aeq src_dim tgt_dim ;;
        aeq (dim self) src_dim ;;
        h_t_ <- view [tgt_batch * tgt_len; tgt_dim] h_t ;;
        let h_t_ := linear (linear_in self) h_t_ in
        h_t <- view [tgt_batch; tgt_len; tgt_dim] h_t_ ;;
        let h_s_ := transpose12 0%R h_s in
        bmm h_t h_s_
    | _ => Raise (ValueError "unpack h_t.size()")
    end
  | _ => Raise (ValueError "unpack h_s.size()")
  end.

(** What [sample_attn] returns: the samples, with their log-probabilities on
    the categorical branch. *)
Inductive sample_out : Type :=
| Attns (attns : tensor R)
| AttnsLogProbs (attns sample_log_probs : tensor R).

(** [alpha.size(0)], [alpha.size(1)], [alpha.size(2)] *)
Definition size012 {A} (t : tensor A) : result (nat * nat * nat) :=
  match shape t with
  | N :: T :: S_ :: _ => Ok (N, T, S_)
  | _ => Raise (IndexError "Dimension out of range")
  end.

(** [sample_attn], lines 201-205: the drawn indices, [K x N*T], viewed as
    [K x N x T x 1]. *)
Definition attns_id_of (g : rng) (K N T : nat) : tensor nat :=
  Tensor [K; N; T; 1] (tab (numel [K; N * T]) (categorical_sample g)).

(** [Categorical(probs).sample(torch.Size([K]))] and the view of lines
    201-205: the sampler refuses to draw no sample; what it draws is the
    random source's. *)
Definition Categorical_sample (g : rng) (K N T : nat) : result (tensor nat) :=
  if K =? 0 then Raise (RuntimeError "cannot sample n_sample <= 0 samples")
  else Ok (attns_id_of g K N T).

(** [sample_attn].  [SAD] is the constant [False], so only the first arm of
    [if not SAD] is embedded. *)
Definition sample_attn (params : Params R) (n_samples : nat)
    (lengths : option (list nat)) (mask : option (tensor bool)) (g : rng)
  : result sample_out :=
  let dist_type := dist_type params in
  if String.eqb dist_type "dirichlet" then
    match alpha params with
    | None => Raise (AttributeError "'NoneType' object has no attribute 'size'")
    | Some alpha =>
        let K := n_samples in
        '(N, T, S_) <- size012 alpha ;;
        _ <- view [N * T; S_] alpha ;;
        let attns :=
          Tensor [K; N; T; S_] (tab (numel [K; N; T; S_]) (dirichlet_rsample g)) in
        match mask with
        | None =>
            Raise (AttributeError "'NoneType' object has no attribute 'unsqueeze'")
        | Some mask =>
            mask0 <- unsqueeze 0 mask ;;
            attns <- masked_fill_ attns (one_minus mask0) 0%R ;;
            Ok (Attns attns)
        end
    end
  else if String.eqb dist_type "categorical" then
    match alpha params with
    | None => Raise (AttributeError "'NoneType' object has no attribute 'size'")
    | Some alpha =>
        let K := n_samples in
        '(N, T, S_) <- size012 alpha ;;
        _ <- view [N * T; S_] alpha ;;
        attns_id <- Categorical_sample g K N T ;;
        let attns := scatter_one_hot [K; N; T; S_] attns_id in
        match log_alpha params with
        | None =>
            Raise (AttributeError "'NoneType' object has no attribute 'unsqueeze'")
        | Some log_alpha =>
            log_alpha0 <- unsqueeze 0 log_alpha ;;
            log_alpha <- expand 0%R [K; N; T; S_] log_alpha0 ;;
            let sample_log_probs := squeeze 3 (gather_last 0%R log_alpha attns_id) in
            Ok (AttnsLogProbs attns sample_log_probs)
        end
    end
  else if String.eqb dist_type "none" then
    (* pass; then [return attns] with [attns] never assigned *)
    Raise (UnboundLocalError "attns")
  else
    Raise (PyException "Unsupported dist").

(** [self.tanh(x)] *)
Definition nn_tanh {A} `{Num A} (x : tensor A) : tensor A :=
  tmap (lift1 tanh) x.

(** [forward], lines 240-253: a query without a time axis is given one, and
    so are the parameters of a supplied posterior. *)
Definition promote (input : tensor R) (q_scores : option (Params R))
  : result (bool * tensor R * option (Params R)) :=
  if rank input =? 2 then
    input <- unsqueeze 1 input ;;
    q_scores <-
      match q_scores with
      | None => Ok None
      | Some qs =>
          match alpha qs with
          | None => Ok (Some qs)
          | Some a =>
              a1 <- unsqueeze 1 a ;;
              match log_alpha qs with
              | None =>
                  Raise (AttributeError
                           "'NoneType' object has no attribute 'unsqueeze'")
              | Some la =>
                  la1 <- unsqueeze 1 la ;;
                  Ok (Some (mkParams (Some a1) (Some la1) (dist_type qs)
                              None None))
              end
          end
      end ;;
    Ok (true, input, q_scores)
  else Ok (false, input, q_scores).

(** The mask of lines 271-273 and 290-292: one row per length, as wide as
    the longest length, with a middle axis to broadcast over the queries. *)
Definition length_mask (memory_lengths : list nat) : result (tensor bool) :=
  mask <- sequence_mask memory_lengths ;;
  unsqueeze 1 mask.

(** [forward], lines 266-301: the prior's parameters and the deterministic
    attention weights, by [p_dist_type].  Returns [c_align_vectors],
    [p_scores] and the mask (bound only when [memory_lengths] is given).
    The two fills of lines 274-275 are in place: when [scoresF] handed back
    its argument they write to the same storage, and the second overwrites
    what the first wrote. *)
Definition p_path (self : VariationalAttention) (input memory_bank : tensor R)
    (memory_lengths : option (list nat))
  : result (tensor fl * Params fl * option (tensor bool)) :=
  if String.eqb (p_dist_type self) "dirichlet" then
    log_scores <- score self input memory_bank ;;
    '(log_scores, scores, mask) <-
      match scoresF self with
      | Fresh f =>
          let scores := tmap f log_scores in
          let log_scores := tmap Fin log_scores in
          match memory_lengths with
          | Some lens =>
              mask <- length_mask lens ;;
              log_scores <- masked_fill_ log_scores (one_minus mask) NegInf ;;
              scores <- masked_fill_ scores (one_minus mask) (exp (-10)) ;;
              Ok (log_scores, scores, Some mask)
          | None => Ok (log_scores, scores, None)
          end
      | Same =>
          match memory_lengths with
          | Some lens =>
              mask <- length_mask lens ;;
              _ <- masked_fill_ (tmap Fin log_scores) (one_minus mask)
                     NegInf ;;
              scores <- masked_fill_ log_scores (one_minus mask) (exp (-10)) ;;
              Ok (tmap Fin scores, scores, Some mask)
          | None => Ok (tmap Fin log_scores, log_scores, None)
          end
      end ;;
    let c_align_vectors := softmax log_scores in
    Ok (c_align_vectors,
        mkParams (Some (tmap Val scores)) None (p_dist_type self) None None,
        mask)
  else if String.eqb (p_dist_type self) "log_normal" then
    Raise (PyException "Buggy")
  else if String.eqb (p_dist_type self) "categorical" then
    scores <- score self input memory_bank ;;
    let scores := tmap Fin scores in
    '(scores, mask) <-
      match memory_lengths with
      | Some lens =>
          mask <- length_mask lens ;;
          scores <- masked_fill_ scores (one_minus mask) NegInf ;;
          Ok (scores, Some mask)
      | None => Ok (scores, None)
      end ;;
    let scores := softmax scores in
    let c_align_vectors := scores in
    Ok (c_align_vectors,
        mkParams (Some scores) None (p_dist_type self) None None,
        mask)
  else
    (* no arm taken: [c_align_vectors] is read unassigned at line 305 *)
    Raise (UnboundLocalError "c_align_vectors").

(** [forward], lines 314-333: sample from the posterior, or enumerate.
    Returns [y_align_vectors], [q_sample] and [sample_log_probs]. *)
Definition q_path (self : VariationalAttention) (q_scores : option (Params R))
    (memory_lengths : option (list nat)) (mask : option (tensor bool))
    (g : rng)
  : result (option (tensor R) * option (tensor R) * option (tensor R)) :=
  if String.eqb (mode self) "sample" then
    match q_scores with
    | None => Raise (AssertionError "False")
    | Some qs =>
        if use_prior self then Raise (AssertionError "False")
        else if String.eqb (dist_type qs) "categorical" then
          r <- sample_attn qs (n_samples self) memory_lengths
                 (match memory_lengths with Some _ => mask | None => None end)
                 g ;;
          match r with
          | AttnsLogProbs q_sample sample_log_probs =>
              Ok (Some q_sample, Some q_sample, Some sample_log_probs)
          | Attns _ => Raise (ValueError "unpack sample_attn(..)")
          end
        else
          Raise (TypeError
                   "sample_attn() got an unexpected keyword argument 'mode'")
    end
  else if String.eqb (mode self) "enum" then
    Ok (None, None, None)
  else
    (* neither arm taken: [y_align_vectors] is read unassigned at line 342 *)
    Raise (UnboundLocalError "y_align_vectors").

(** [forward], lines 342-353: the sampled contexts, [K x N x T x H]. *)
Definition context_of (self : VariationalAttention)
    (y_align_vectors : option (tensor R)) (memory_bank : tensor R)
    (batch sourceL dim' targetL : nat)
  : result (tensor R) :=
  match y_align_vectors with
  | Some y =>
      y3 <- view_infer [targetL; sourceL] y ;;
      m4 <- unsqueeze 0 memory_bank ;;
      m3 <- view_infer [sourceL; dim'] (repeat0 0%R (n_samples self) m4) ;;
      c <- bmm y3 m3 ;;
      view [n_samples self; batch; targetL; dim'] c
  | None =>
      (* For enumerate, K = S. *)
      m4 <- unsqueeze 0 memory_bank ;;
      Ok (permute2103 0%R (repeat0 0%R targetL m4))
  end.

(** [forward], lines 354-357: the query is broadcast over the sample axis,
    concatenated to the contexts, and projected. *)
Definition project_y (self : VariationalAttention)
    (context_y input : tensor R) : result (tensor R) :=
  input0 <- unsqueeze 0 input ;;
  input4 <- expand 0%R (shape context_y) input0 ;;
  let concat_y := cat_last 0%R context_y input4 in
  Ok (nn_tanh (linear (linear_out self) concat_y)).

(** [forward], lines 359-388: the one-step results lose the time axis. *)
Definition one_step_results (batch sourceL dim' : nat)
    (h_y : tensor R) (h_c c_align_vectors : tensor fl)
    (q_scores : option (Params R)) (p_scores : Params fl)
    (q_sample sample_log_probs : option (tensor R))
    (p_sample : option (tensor fl))
  : result output :=
  let h_c := squeeze 1 h_c in
  let c_align_vectors := squeeze 1 c_align_vectors in
  let h_y := squeeze 2 h_y in
  let q_scores :=
    option_map (fun qs =>
      mkParams (option_map (squeeze 1) (alpha qs)) None (dist_type qs)
        (option_map (squeeze 2) q_sample)
        (option_map (squeeze 2) sample_log_probs)) q_scores in
  match alpha p_scores with
  | None => Raise (AttributeError "'NoneType' object has no attribute 'squeeze'")
  | Some p_alpha =>
      let p_scores :=
        mkParams (Some (squeeze 1 p_alpha)) None (dist_type p_scores)
          (option_map (squeeze 2) p_sample) None in
      match shape h_c with
      | [batch_; dim_] =>
          aeq batch batch_ ;;
          aeq dim' dim_ ;;
          match shape c_align_vectors with
          | [batch_; sourceL_] =>
              aeq batch batch_ ;;
              aeq sourceL sourceL_ ;;
              Ok (mkOutput h_y h_c c_align_vectors
                    (mkDistInfo q_scores (Some p_scores)))
          | _ => Raise (ValueError "unpack c_align_vectors.size()")
          end
      | _ => Raise (ValueError "unpack h_c.size()")
      end
  end.

(** [forward], lines 255-259: the sizes of the memory bank and of the query
    are unpacked and compared.  Returns [batch], [sourceL], [dim] and
    [targetL]. *)
Definition size_checks (self : VariationalAttention)
    (input memory_bank : tensor R) : result (nat * nat * nat * nat) :=
  match shape memory_bank with
  | [batch; sourceL; dim'] =>
    match shape input with
    | [batch_; targetL; dim_] =>
        aeq batch batch_ ;;
        aeq dim' dim_ ;;
        aeq (dim self) dim' ;;
        Ok (batch, sourceL, dim', targetL)
    | _ => Raise (ValueError "unpack input.size()")
    end
  | _ => Raise (ValueError "unpack memory_bank.size()")
  end.

(** The assertion of line 263. *)
Definition assert_categorical (self : VariationalAttention) : result unit :=
  py_assert (String.eqb (p_dist_type self) "categorical")
    "self.p_dist_type == 'categorical'".

(** [forward].  [coverage] is never read and is left out; [g] is the random
    source [sample_attn] draws from. *)
Definition forward (self : VariationalAttention)
    (input memory_bank : tensor R) (memory_lengths : option (list nat))
    (q_scores : option (Params R)) (g : rng)
  : result output :=
  '(one_step, input, q_scores) <- promote input q_scores ;;
  '(batch, sourceL, dim', targetL) <- size_checks self input memory_bank ;;
  assert_categorical self ;;
  '(c_align_vectors, p_scores, mask) <-
    p_path self input memory_bank memory_lengths ;;
  context_c <- bmm c_align_vectors (tmap Val memory_bank) ;;
  let concat_c := cat_last NaN context_c (tmap Val input) in
  let h_c := nn_tanh (linear (linear_out self) concat_c) in
  '(y_align_vectors, q_sample, sample_log_probs) <-
    q_path self q_scores memory_lengths mask g ;;
  context_y <-
    context_of self y_align_vectors memory_bank batch sourceL dim' targetL ;;
  h_y <- project_y self context_y input ;;
  if (one_step : bool) then
    one_step_results batch sourceL dim' h_y h_c c_align_vectors
      q_scores p_scores q_sample sample_log_probs None
  else
    (* assert (False), line 390: the full-sequence results are never built *)
    Raise (AssertionError "False").

(** ** The log-normal layers and [get_raw_scores] *)

(** [nn.Linear(in_features, out_features)] with its bias. *)
Record LinearB : Type := nn_LinearB {
  lin : Linear;
  bias : list R
}.

(** [l(x)] for a layer with bias; as for [linear], the callers make the
    last dimension of [x] the layer's [in_features]. *)
Definition linear_b (l : LinearB) (x : tensor R) : tensor R :=
  let y := linear (lin l) x in
  tgen (shape y) (fun idx =>
    Rplus (tget 0%R y idx) (nth (last idx 0) (bias l) 0%R)).

(** [torch.nn.Softplus()], with its defaults [beta = 1] and
    [threshold = 20]: above the threshold the function is the identity.  The
    values are exact reals: rounding and underflow are not modelled. *)
Definition nn_Softplus (x : R) : R :=
  if Rlt_dec 20 x then x else ln (1 + exp x).

(** The attributes lines 91-96 of [__init__] set. *)
Record LogNormalLayers : Type := mkLogNormalLayers {
  linear_1 : LinearB;
  linear_2 : LinearB;
  mean_out : LinearB;
  var_out : LinearB
}.

(** The initial weights and biases of the four layers. *)
Record LogNormalInit : Type := mkLogNormalInit {
  w_1 : list R; b_1 : list R;
  w_2 : list R; b_2 : list R;
  w_mean : list R; b_mean : list R;
  w_var : list R; b_var : list R
}.

(** [__init__], lines 91-96: the four layers exist only on a component
    built with [p_dist_type = "log_normal"]. *)
Definition init_log_normal (self : VariationalAttention) (w : LogNormalInit)
  : option LogNormalLayers :=
  if String.eqb (p_dist_type self) "log_normal" then
    Some {| linear_1 :=
              nn_LinearB (nn_Linear (dim self + dim self) 100 (w_1 w)) (b_1 w);
            linear_2 := nn_LinearB (nn_Linear 100 100 (w_2 w)) (b_2 w);
            mean_out := nn_LinearB (nn_Linear 100 1 (w_mean w)) (b_mean w);
            var_out := nn_LinearB (nn_Linear 100 1 (w_var w)) (b_var w) |}
  else None.

(** [get_raw_scores]; [layers] are the attributes of lines 91-96, [None] on
    a component that never set them.  [expand(-1, ..)] keeps the sizes
    written [-1]. *)
Definition get_raw_scores (self : VariationalAttention)
    (layers : option LogNormalLayers) (h_t h_s : tensor R)
  : result (tensor R * tensor R) :=
  match shape h_s with
  | [src_batch; src_len; src_dim] =>
    match shape h_t with
    | [tgt_batch; tgt_len; tgt_dim] =>
        aeq src_batch tgt_batch ;;
        aeq src_dim tgt_dim ;;
        aeq (dim self) src_dim ;;
        h_t2 <- unsqueeze 2 h_t ;;
        h_t_expand <-
          expand 0%R [tgt_batch; tgt_len; src_len; tgt_dim] h_t2 ;;
        h_s1 <- unsqueeze 1 h_s ;;
        h_s_expand <-
          expand 0%R [src_batch; tgt_len; src_len; src_dim] h_s1 ;;
        let h_expand := cat_last 0%R h_t_expand h_s_expand in
        h_fold <- view_infer [src_dim + tgt_dim] h_expand ;;
        match layers with
        | None =>
            Raise (AttributeError
                     "'VariationalAttention' object has no attribute 'softplus'")
        | Some l =>
            let h_enc := tmap nn_Softplus (linear_b (linear_1 l) h_fold) in
            let h_enc := tmap nn_Softplus (linear_b (linear_2 l) h_enc) in
            let h_mean := tmap nn_Softplus (linear_b (mean_out l) h_enc) in
            let h_var := tmap nn_Softplus (linear_b (var_out l) h_enc) in
            h_mean <- view [tgt_batch; tgt_len; src_len] h_mean ;;
            h_var <- view [tgt_batch; tgt_len; src_len] h_var ;;
            Ok (h_mean, h_var)
        end
    | _ => Raise (ValueError "unpack h_t.size()")
    end
  | _ => Raise (ValueError "unpack h_s.size()")
  end.

(** ** Auxiliary notions *)

(** One output feature of a layer with bias followed by [nn_Softplus], on
    the row [v]. *)
Definition dense (l : LinearB) (v : nat -> R) (o : nat) : R :=
  nn_Softplus
    (Rplus (gsum (in_features (lin l)) (fun j =>
              Rmult (v j) (nth (o * in_features (lin l) + j)
                             (weight (lin l)) 0%R)))
           (nth o (bias l) 0%R)).

(** The lengths whose mask line 293 can broadcast over [N x T x S] scores:
    none at all, or a non-empty batch of [N] lengths (or a single one) whose
    longest is [S] (or 1). *)
Definition lengths_fit (memory_lengths : option (list nat)) (N S_ : nat)
  : Prop :=
  match memory_lengths with
  | None => True
  | Some lens =>
      lens <> [] /\
      (length lens = N \/ length lens = 1) /\
      (list_max lens = S_ \/ list_max lens = 1)
  end.

(** The posteriors lines 244-251 of [forward] can give a time axis: one
    without [alpha], which is passed on as it is, or one whose [alpha] and
    [log_alpha] are tensors of rank at least 1. *)
Definition posterior_promotable (q_scores : option (Params R)) : Prop :=
  match q_scores with
  | None => True
  | Some qs =>
      match alpha qs with
      | None => True
      | Some a =>
          1 <= rank a /\ exists la, log_alpha qs = Some la /\ 1 <= rank la
      end
  end.

(** The failures that report an unsupported distribution: the two
    [Exception]s of the module and the assertion of line 263. *)
Definition unsupported_distribution_error (e : exn) : Prop :=
  e = PyException "Unsupported dist" \/
  e = PyException "Buggy" \/
  e = AssertionError "self.p_dist_type == 'categorical'".

(** ** Concrete calls *)

(** The scenario of the specification: two examples, three source
    positions, feature size 4, five samples; unit weights. *)
Definition ex_module (p_dist_type mode : string) : VariationalAttention :=
  __init__ 4 p_dist_type "dirichlet" "dirichlet" false (Fresh softplus) 5 mode
    "mean"
    (repeat 1%R 16) (repeat 1%R 32).

Definition ex_memory : tensor R := Tensor [2; 3; 4] (map INR (seq 0 24)).
(** A one-step query and the same query with a time axis of length 1. *)
Definition ex_query : tensor R := Tensor [2; 4] (repeat 1%R 8).
Definition ex_query_seq : tensor R := Tensor [2; 1; 4] (repeat 1%R 8).
(** A query for three examples: its batch size disagrees with [ex_memory]. *)
Definition ex_query_three : tensor R := Tensor [3; 4] (repeat 1%R 12).

(** A categorical posterior with half of its mass on the third position, for
    both examples; [sh] is [2; 3], or [2; 1; 3] with a time axis. *)
Definition ex_q (sh : list nat) : Params R :=
  mkParams
    (Some (Tensor sh [(/ 4)%R; (/ 4)%R; (/ 2)%R; (/ 4)%R; (/ 4)%R; (/ 2)%R]))
    (Some (Tensor sh [ln (/ 4); ln (/ 4); ln (/ 2);
                      ln (/ 4); ln (/ 4); ln (/ 2)]))
    "categorical" None None.

(** A Dirichlet posterior: concentrations, no log-domain parameters. *)
Definition ex_q_dirichlet : Params R :=
  mkParams (Some (Tensor [2; 3] (repeat 1%R 6))) None "dirichlet" None None.

(** A random source whose every categorical draw is position 2. *)
Definition ex_rng : rng := mkRng (fun _ => 0%R) (fun _ => 2).


(** A Dirichlet posterior that also carries log-domain parameters. *)
Definition ex_q_dirichlet_log : Params R :=
  mkParams (Some (Tensor [2; 3] (repeat 1%R 6)))
    (Some (Tensor [2; 3] (repeat 0%R 6))) "dirichlet" None None.


(** Initial values for the log-normal layers of a component of size 4. *)
Definition ex_log_normal_init : LogNormalInit :=
  mkLogNormalInit (repeat 1%R (100 * 8)) (repeat 0%R 100)
    (repeat 1%R (100 * 100)) (repeat 0%R 100)
    (repeat 1%R 100) [0%R] (repeat 1%R 100) [0%R].

(** * Properties *)

(** ** The error monad *)

Lemma bind_Ok_inv {A B} (c : result A) (k : A -> result B) (b : B) :
  bind c k = Ok b -> exists a, c = Ok a /\ k a = Ok b.
Proof.
  destruct c as [a | e]; simpl; intros H; [eauto | discriminate].
Qed.

Lemma Ok_inj {A} (a b : A) : Ok a = Ok b -> a = b.
Proof. congruence. Qed.

Lemma py_assert_Ok_inv (cond : bool) (site : string) (u : unit) :
  py_assert cond site = Ok u -> cond = true.
Proof. destruct cond; simpl; [reflexivity | discriminate]. Qed.

Lemma aeq_Ok_inv (a b : nat) (u : unit) : aeq a b = Ok u -> a = b.
Proof.
  unfold aeq. intros H. apply py_assert_Ok_inv in H. now apply Nat.eqb_eq.
Qed.

Lemma aeq_refl (a : nat) : aeq a a = Ok tt.
Proof. unfold aeq. now rewrite Nat.eqb_refl. Qed.

(** ** Row-major indexing *)

Section TensorFacts.
Context {A : Type}.

Lemma tab_length (n : nat) (f : nat -> A) : length (tab n f) = n.
Proof. unfold tab. now rewrite length_map, length_seq. Qed.

Lemma nth_tab (n i : nat) (f : nat -> A) (d : A) :
  i < n -> nth i (tab n f) d = f i.
Proof.
  intros Hi. unfold tab.
  rewrite (nth_indep _ d (f 0)) by now rewrite length_map, length_seq.
  rewrite map_nth, seq_nth by assumption. reflexivity.
Qed.

Lemma ravel_lt (sh idx : list nat) :
  Forall2 lt idx sh -> ravel sh idx < numel sh.
Proof.
  induction 1 as [| i d idx' sh' Hi _ IH]; simpl; [lia | nia].
Qed.

Lemma unravel_ravel (sh idx : list nat) :
  Forall2 lt idx sh -> unravel sh (ravel sh idx) = idx.
Proof.
  induction 1 as [| i d idx' sh' Hi Hrest IH]; simpl; [reflexivity |].
  pose proof (ravel_lt Hrest) as Hr.
  rewrite Nat.div_add_l by lia.
  rewrite Nat.div_small, Nat.add_0_r by assumption.
  rewrite Nat.add_comm, Nat.Div0.mod_add, Nat.mod_small by assumption.
  now rewrite IH.
Qed.

Lemma tget_tgen (d : A) (sh idx : list nat) (f : list nat -> A) :
  Forall2 lt idx sh -> tget d (tgen sh f) idx = f idx.
Proof.
  intros H. unfold tget, tgen; simpl.
  rewrite nth_tab by now apply ravel_lt.
  now rewrite unravel_ravel.
Qed.
End TensorFacts.

(** Closes the side condition of [tget_tgen] on an explicit index. *)
Ltac in_bounds := repeat constructor; simpl; lia.

(** ** The guard on the prior's distribution type *)

(** With any prior type but "categorical", [forward] is the promotion and
    the size checks followed by the failed assertion of line 263: nothing
    after it runs. *)
Lemma forward_guard (self : VariationalAttention)
    (input memory_bank : tensor R) (memory_lengths : option (list nat))
    (q_scores : option (Params R)) (g : rng) :
  String.eqb (p_dist_type self) "categorical" = false ->
  forward self input memory_bank memory_lengths q_scores g =
  ('(_, input', _) <- promote input q_scores ;;
   _ <- size_checks self input' memory_bank ;;
   Raise (AssertionError "self.p_dist_type == 'categorical'")).
Proof.
  intros Hp. unfold forward, assert_categorical. rewrite Hp.
  destruct (promote input q_scores) as [[[one_step input'] q'] | e];
    simpl; [| reflexivity].
  destruct (size_checks self input' memory_bank) as [[[[b s] d] t] | e];
    reflexivity.
Qed.

(** The promotion raises no assertion and no [Exception]. *)
Lemma promote_errors (input : tensor R) (q_scores : option (Params R))
    (e : exn) :
  promote input q_scores = Raise e ->
  (exists m, e = AttributeError m) \/ (exists m, e = IndexError m).
Proof.
  unfold promote, unsqueeze.
  destruct (rank input =? 2); [| discriminate].
  destruct (1 <=? rank input); cbn [bind];
    [| intros H; injection H as <-; eauto].
  destruct q_scores as [qs |]; cbn [bind]; [| discriminate].
  destruct (alpha qs) as [a |]; cbn [bind]; [| discriminate].
  destruct (1 <=? rank a); cbn [bind]; [| intros H; injection H as <-; eauto].
  destruct (log_alpha qs) as [la |]; cbn [bind];
    [| intros H; injection H as <-; eauto].
  destruct (1 <=? rank la); cbn [bind]; [discriminate |].
  intros H; injection H as <-; eauto.
Qed.

(** The size checks raise an assertion or fail to unpack a size. *)
Lemma size_checks_errors (self : VariationalAttention)
    (input memory_bank : tensor R) (e : exn) :
  size_checks self input memory_bank = Raise e ->
  (exists s, e = AssertionError s) \/ (exists m, e = ValueError m).
Proof.
  unfold size_checks, aeq, py_assert.
  destruct (shape memory_bank) as [| b [| s [| d [| ? ?]]]];
    try (intros H; injection H as <-; eauto).
  destruct (shape input) as [| b' [| t [| d' [| ? ?]]]];
    try (intros H; injection H as <-; eauto).
  destruct (b =? b'); simpl; [| intros H; injection H as <-; eauto].
  destruct (d =? d'); simpl; [| intros H; injection H as <-; eauto].
  destruct (dim self =? d); simpl; [discriminate |].
  intros H; injection H as <-; eauto.
Qed.

Lemma size_checks_rank3 (self : VariationalAttention)
    (input memory_bank : tensor R) :
  rank memory_bank = 3 -> rank input = 3 ->
  (exists sizes, size_checks self input memory_bank = Ok sizes) \/
  (exists s, size_checks self input memory_bank = Raise (AssertionError s)).
Proof.
  unfold rank, size_checks, aeq, py_assert. intros Hm Hi.
  destruct (shape memory_bank) as [| b [| s [| d [| ? ?]]]]; try discriminate.
  destruct (shape input) as [| b' [| t [| d' [| ? ?]]]]; try discriminate.
  destruct (b =? b'); simpl; [| eauto].
  destruct (d =? d'); simpl; [| eauto].
  destruct (dim self =? d); simpl; eauto.
Qed.

Lemma promote_rank (input input' : tensor R) (q_scores q' : option (Params R))
    (one_step : bool) :
  promote input q_scores = Ok (one_step, input', q') ->
  (rank input = 2 -> rank input' = 3 /\ one_step = true) /\
  (rank input <> 2 -> input' = input /\ one_step = false).
Proof.
  unfold promote. destruct (rank input =? 2) eqn:Hr.
  - apply Nat.eqb_eq in Hr. intros H.
    apply bind_Ok_inv in H as (i1 & Hi & H).
    apply bind_Ok_inv in H as (q1 & _ & H). injection H as <- <- <-.
    split; [intros _ | intros Hn; contradiction].
    unfold unsqueeze in Hi. rewrite Hr in Hi. simpl in Hi.
    injection Hi as <-. split; [| reflexivity].
    unfold rank in *; simpl.
    destruct (shape input) as [| a [| b [| ? ?]]]; try discriminate.
    reflexivity.
  - apply Nat.eqb_neq in Hr. intros H. injection H as <- <- <-.
    split; [intros Hn; contradiction | intros _; split; reflexivity].
Qed.

(** ** Stage-by-stage inversion of a returning call *)

(** What a returning call went through, stage by stage. *)
Lemma forward_Ok_inv (self : VariationalAttention)
    (input memory_bank : tensor R) (memory_lengths : option (list nat))
    (q_scores : option (Params R)) (g : rng) (out : output) :
  forward self input memory_bank memory_lengths q_scores g = Ok out ->
  exists input' q' batch sourceL d targetL c_align p_scores mask context_c
         y q_sample slp context_y hy,
    promote input q_scores = Ok (true, input', q') /\
    size_checks self input' memory_bank = Ok (batch, sourceL, d, targetL) /\
    p_dist_type self = "categorical" /\
    p_path self input' memory_bank memory_lengths
      = Ok (c_align, p_scores, mask) /\
    bmm c_align (tmap Val memory_bank) = Ok context_c /\
    q_path self q' memory_lengths mask g = Ok (y, q_sample, slp) /\
    context_of self y memory_bank batch sourceL d targetL = Ok context_y /\
    project_y self context_y input' = Ok hy /\
    one_step_results batch sourceL d hy
      (nn_tanh (linear (linear_out self)
                  (cat_last NaN context_c (tmap Val input'))))
      c_align q' p_scores q_sample slp None = Ok out.
Proof.
  unfold forward. intros H.
  apply bind_Ok_inv in H as ([[one_step input'] q'] & Hpre & H).
  apply bind_Ok_inv in H as ([[[batch sourceL] d] targetL] & Hsz & H).
  apply bind_Ok_inv in H as (u & Hcat & H).
  apply py_assert_Ok_inv in Hcat. apply String.eqb_eq in Hcat.
  apply bind_Ok_inv in H as ([[c_align p_scores] mask] & Hp & H).
  apply bind_Ok_inv in H as (context_c & Hc & H).
  apply bind_Ok_inv in H as ([[y q_sample] slp] & Hq & H).
  apply bind_Ok_inv in H as (context_y & Hy & H).
  apply bind_Ok_inv in H as (hy & Hhy & H).
  destruct one_step; [| discriminate].
  exists input', q', batch, sourceL, d, targetL, c_align, p_scores, mask,
    context_c, y, q_sample, slp, context_y, hy.
  repeat split; assumption.
Qed.

Lemma size_checks_Ok_inv (self : VariationalAttention)
    (input memory_bank : tensor R) (batch sourceL d targetL : nat) :
  size_checks self input memory_bank = Ok (batch, sourceL, d, targetL) ->
  shape memory_bank = [batch; sourceL; d] /\
  shape input = [batch; targetL; d] /\ dim self = d.
Proof.
  unfold size_checks.
  destruct (shape memory_bank) as [| b [| s [| d0 [| ? ?]]]]; try discriminate.
  destruct (shape input) as [| b' [| t [| d' [| ? ?]]]]; try discriminate.
  intros H.
  apply bind_Ok_inv in H as (u1 & H1 & H). apply aeq_Ok_inv in H1.
  apply bind_Ok_inv in H as (u2 & H2 & H). apply aeq_Ok_inv in H2.
  apply bind_Ok_inv in H as (u3 & H3 & H). apply aeq_Ok_inv in H3.
  injection H as <- <- <- <-. subst. repeat split; reflexivity.
Qed.

Lemma promote_true_inv (input input' : tensor R)
    (q_scores q' : option (Params R)) :
  promote input q_scores = Ok (true, input', q') ->
  exists a b, shape input = [a; b] /\ input' = Tensor [a; 1; b] (data input).
Proof.
  unfold promote. destruct (rank input =? 2) eqn:Hr; [| discriminate].
  apply Nat.eqb_eq in Hr. unfold rank in Hr. intros H.
  apply bind_Ok_inv in H as (i1 & Hi & H).
  apply bind_Ok_inv in H as (q1 & _ & H). injection H as <- <-.
  unfold unsqueeze, rank in Hi.
  destruct (shape input) as [| a [| b [| ? ?]]]; try discriminate.
  simpl in Hi. injection Hi as <-. eauto.
Qed.

Lemma view_Ok_inv {A} (sh : list nat) (t t' : tensor A) :
  view sh t = Ok t' -> t' = Tensor sh (data t) /\ numel sh = numel (shape t).
Proof.
  unfold view. destruct (numel sh =? numel (shape t)) eqn:E; [| discriminate].
  apply Nat.eqb_eq in E. intros H; injection H as <-. now split.
Qed.

Lemma bmm_Ok_inv {A} `{Num A} (a b c : tensor A) :
  bmm a b = Ok c ->
  exists ba n m p,
    shape a = [ba; n; m] /\ shape b = [ba; m; p] /\ shape c = [ba; n; p].
Proof.
  unfold bmm.
  destruct (shape a) as [| ba [| n [| m [| ? ?]]]]; try discriminate.
  destruct (shape b) as [| bb [| m' [| p0 [| ? ?]]]]; try discriminate.
  destruct ((ba =? bb) && (m =? m')) eqn:E; [| discriminate].
  apply andb_true_iff in E as [E1 E2].
  apply Nat.eqb_eq in E1, E2. subst.
  intros H0; injection H0 as <-. exists bb, n, m', p0. repeat split.
Qed.

Lemma score_Ok_inv (self : VariationalAttention) (h_t h_s sc : tensor R) :
  score self h_t h_s = Ok sc ->
  exists b t s d,
    shape h_s = [b; s; d] /\ shape h_t = [b; t; d] /\ shape sc = [b; t; s].
Proof.
  unfold score.
  destruct (shape h_s) as [| b [| s [| d [| ? ?]]]] eqn:Hs; try discriminate.
  destruct (shape h_t) as [| b' [| t [| d' [| ? ?]]]] eqn:Ht; try discriminate.
  intros H.
  apply bind_Ok_inv in H as (u1 & H1 & H). apply aeq_Ok_inv in H1.
  apply bind_Ok_inv in H as (u2 & H2 & H). apply aeq_Ok_inv in H2.
  apply bind_Ok_inv in H as (u3 & H3 & H). apply aeq_Ok_inv in H3.
  apply bind_Ok_inv in H as (v1 & Hv1 & H).
  apply bind_Ok_inv in H as (v2 & Hv2 & H).
  apply view_Ok_inv in Hv2 as [-> _].
  apply bmm_Ok_inv in H as (ba & n & m & p0 & Ha & Hb & Hc).
  simpl in Ha. injection Ha as <- <- <-.
  unfold transpose12 in Hb. rewrite Hs in Hb. simpl in Hb.
  injection Hb as _ _ <-. subst b' d'.
  exists b, t, s, d. repeat split; assumption.
Qed.

Lemma masked_fill_shape {A} (x x' : tensor A) (m : tensor bool) (v : A) :
  masked_fill_ x m v = Ok x' -> shape x' = shape x.
Proof.
  unfold masked_fill_. intros H.
  apply bind_Ok_inv in H as (m' & _ & H). now injection H as <-.
Qed.

(** The categorical arm of [p_path]: the weights are the soft-max of the
    scores, masked when lengths are given. *)
Lemma p_path_categorical_inv (self : VariationalAttention)
    (input memory_bank : tensor R) (memory_lengths : option (list nat))
    (c : tensor fl) (ps : Params fl) (mask : option (tensor bool)) :
  p_dist_type self = "categorical" ->
  p_path self input memory_bank memory_lengths = Ok (c, ps, mask) ->
  exists sc x,
    score self input memory_bank = Ok sc /\
    shape x = shape sc /\
    c = softmax x /\
    ps = mkParams (Some c) None "categorical" None None /\
    match memory_lengths with
    | None => x = tmap Fin sc /\ mask = None
    | Some lens =>
        exists m,
          length_mask lens = Ok m /\
          masked_fill_ (tmap Fin sc) (one_minus m) NegInf = Ok x /\
          mask = Some m
    end.
Proof.
  intros Hp. unfold p_path. rewrite Hp. simpl String.eqb. cbv iota.
  intros H.
  apply bind_Ok_inv in H as (sc & Hsc & H).
  apply bind_Ok_inv in H as ([x mk] & Hx & H).
  injection H as <- <- <-.
  exists sc, x. split; [assumption |].
  destruct memory_lengths as [lens |].
  - apply bind_Ok_inv in Hx as (m & Hm & Hx).
    apply bind_Ok_inv in Hx as (x' & Hx' & Hx). injection Hx as <- <-.
    split; [now apply masked_fill_shape in Hx' |].
    repeat split. exists m. repeat split; assumption.
  - injection Hx as <- <-. repeat split.
Qed.

Lemma one_step_results_Ok_inv (batch sourceL d : nat) (hy : tensor R)
    (hc c : tensor fl) (q' : option (Params R)) (ps : Params fl)
    (q_sample slp : option (tensor R)) (out : output) :
  one_step_results batch sourceL d hy hc c q' ps q_sample slp None = Ok out ->
  h_y out = squeeze 2 hy /\
  h_c out = squeeze 1 hc /\
  c_align_vectors out = squeeze 1 c /\
  shape (h_c out) = [batch; d] /\
  shape (c_align_vectors out) = [batch; sourceL] /\
  q (dist_info out) =
    option_map (fun qs =>
      mkParams (option_map (squeeze 1) (alpha qs)) None (dist_type qs)
        (option_map (squeeze 2) q_sample) (option_map (squeeze 2) slp)) q'.
Proof.
  unfold one_step_results.
  destruct (alpha ps) as [pa |]; [| discriminate].
  destruct (shape (squeeze 1 hc)) as [| b [| d' [| ? ?]]] eqn:Hhc;
    try discriminate.
  intros H.
  apply bind_Ok_inv in H as (u1 & H1 & H). apply aeq_Ok_inv in H1.
  apply bind_Ok_inv in H as (u2 & H2 & H). apply aeq_Ok_inv in H2.
  destruct (shape (squeeze 1 c)) as [| b2 [| s2 [| ? ?]]] eqn:Hc;
    try discriminate.
  apply bind_Ok_inv in H as (u3 & H3 & H). apply aeq_Ok_inv in H3.
  apply bind_Ok_inv in H as (u4 & H4 & H). apply aeq_Ok_inv in H4.
  injection H as <-. simpl. subst. repeat split; assumption.
Qed.

(** The two ways [q_path] returns: a categorical posterior was sampled, or
    the mode is "enum". *)
Lemma q_path_Ok_inv (self : VariationalAttention) (q' : option (Params R))
    (memory_lengths : option (list nat)) (mask : option (tensor bool))
    (g : rng) (y q_sample slp : option (tensor R)) :
  q_path self q' memory_lengths mask g = Ok (y, q_sample, slp) ->
  (mode self = "sample" /\
   exists qs a l,
     q' = Some qs /\ use_prior self = false /\
     dist_type qs = "categorical" /\
     sample_attn qs (n_samples self) memory_lengths
       (match memory_lengths with Some _ => mask | None => None end) g
     = Ok (AttnsLogProbs a l) /\
     y = Some a /\ q_sample = Some a /\ slp = Some l) \/
  (mode self = "enum" /\ y = None /\ q_sample = None /\ slp = None).
Proof.
  unfold q_path.
  destruct (String.eqb (mode self) "sample") eqn:Hm.
  - apply String.eqb_eq in Hm.
    destruct q' as [qs |]; [| discriminate].
    destruct (use_prior self) eqn:Hu; [discriminate |].
    destruct (String.eqb (dist_type qs) "categorical") eqn:Hd; [| discriminate].
    apply String.eqb_eq in Hd. intros H.
    apply bind_Ok_inv in H as ([a | a l] & Hs & H); [discriminate |].
    injection H as <- <- <-. left. split; [assumption |].
    exists qs, a, l. repeat split; assumption.
  - destruct (String.eqb (mode self) "enum") eqn:He; [| discriminate].
    apply String.eqb_eq in He. intros H. injection H as <- <- <-.
    right. repeat split; assumption.
Qed.

Lemma context_of_shape (self : VariationalAttention)
    (y : option (tensor R)) (memory_bank ctx : tensor R)
    (batch sourceL d targetL : nat) :
  shape memory_bank = [batch; sourceL; d] ->
  context_of self y memory_bank batch sourceL d targetL = Ok ctx ->
  shape ctx =
    [match y with Some _ => n_samples self | None => sourceL end;
     batch; targetL; d].
Proof.
  intros Hm. unfold context_of. destruct y as [y |]; intros H.
  - apply bind_Ok_inv in H as (y3 & _ & H).
    apply bind_Ok_inv in H as (m4 & _ & H).
    apply bind_Ok_inv in H as (m3 & _ & H).
    apply bind_Ok_inv in H as (c & _ & H).
    now apply view_Ok_inv in H as [-> _].
  - unfold unsqueeze in H. simpl in H. injection H as <-.
    unfold repeat0, permute2103; simpl. rewrite Hm; simpl.
    now rewrite Nat.mul_1_r.
Qed.

Lemma project_y_shape (self : VariationalAttention) (ctx input hy : tensor R)
    (K N T H : nat) :
  shape ctx = [K; N; T; H] ->
  project_y self ctx input = Ok hy ->
  shape hy = [K; N; T; dim self].
Proof.
  intros Hc. unfold project_y. intros Hp.
  apply bind_Ok_inv in Hp as (i0 & _ & Hp).
  apply bind_Ok_inv in Hp as (i4 & _ & Hp). injection Hp as <-.
  simpl. now rewrite Hc.
Qed.


(** ** Calls that return *)

(** The contexts of the enumerate arm: position [s] of example [n], for
    every time step. *)
Lemma context_of_enum (self : VariationalAttention) (memory_bank ctx : tensor R)
    (N S_ H T : nat) :
  shape memory_bank = [N; S_; H] ->
  context_of self None memory_bank N S_ H T = Ok ctx ->
  shape ctx = [S_; N; T; H] /\
  forall s n t h, s < S_ -> n < N -> t < T -> h < H ->
    tget 0%R ctx [s; n; t; h] = tget 0%R memory_bank [n; s; h].
Proof.
  intros Hm Hc. split; [eapply context_of_shape in Hc; eassumption |].
  unfold context_of, unsqueeze in Hc. simpl in Hc. injection Hc as <-.
  intros s n t h Hs Hn Ht Hh.
  unfold permute2103, repeat0. simpl shape. rewrite Hm. simpl shape.
  rewrite tget_tgen by (rewrite Nat.mul_1_r; in_bounds).
  rewrite tget_tgen by (rewrite Nat.mul_1_r; in_bounds).
  unfold tget. simpl. rewrite Hm. simpl.
  reflexivity.
Qed.

Lemma view_ok {A} (sh : list nat) (t : tensor A) :
  numel sh = numel (shape t) -> view sh t = Ok (Tensor sh (data t)).
Proof. unfold view. intros ->. now rewrite Nat.eqb_refl. Qed.

Lemma bcast_ok_refl (n : nat) : bcast_ok n n = true.
Proof. unfold bcast_ok. now rewrite Nat.eqb_refl. Qed.

Lemma bcast_ok_one (n : nat) : bcast_ok 1 n = true.
Proof. unfold bcast_ok. simpl. apply orb_true_r. Qed.

Lemma bmm_returns {A} `{Num A} (a b : tensor A) (B n m p0 : nat) :
  shape a = [B; n; m] -> shape b = [B; m; p0] ->
  exists c, bmm a b = Ok c /\ shape c = [B; n; p0].
Proof.
  intros Ha Hb. unfold bmm. rewrite Ha, Hb, !Nat.eqb_refl. simpl andb.
  eexists; split; reflexivity.
Qed.

(** [score] returns on a query and a memory bank of agreeing sizes. *)
Lemma score_returns (self : VariationalAttention) (h_t h_s : tensor R)
    (N T S_ : nat) :
  shape h_t = [N; T; dim self] -> shape h_s = [N; S_; dim self] ->
  exists sc, score self h_t h_s = Ok sc /\ shape sc = [N; T; S_].
Proof.
  intros Ht Hs. unfold score. rewrite Hs, Ht.
  rewrite !aeq_refl. cbn [bind].
  rewrite view_ok by (rewrite Ht; simpl; lia). cbn [bind].
  rewrite view_ok by (simpl; lia). cbn [bind].
  eapply bmm_returns; [reflexivity |].
  unfold transpose12. now rewrite Hs.
Qed.

(** The length mask is broadcast over the scores when the lengths fit. *)
Lemma masked_scores_return {A} (x : tensor A) (lens : list nat) (v : A)
    (N T S_ : nat) :
  shape x = [N; T; S_] -> lengths_fit (Some lens) N S_ ->
  exists m x',
    length_mask lens = Ok m /\
    masked_fill_ x (one_minus m) v = Ok x'.
Proof.
  intros Hx (Hne & Hl & Hw). unfold length_mask, sequence_mask.
  destruct lens as [| l0 lens']; [contradiction |].
  remember (l0 :: lens') as lens eqn:El. clear El Hne.
  cbv zeta. cbn [bind]. unfold unsqueeze, rank.
  cbn [tgen shape data length Nat.leb firstn skipn app].
  eexists; eexists; split; [reflexivity |].
  unfold masked_fill_, expand, one_minus, rank. rewrite Hx.
  cbn [tmap shape length Nat.leb Nat.sub repeat app bcast_all_ok].
  replace (bcast_ok (length lens) N) with true
    by (unfold bcast_ok; destruct Hl as [-> | ->];
        [now rewrite Nat.eqb_refl | simpl; now rewrite orb_true_r]).
  replace (bcast_ok (list_max lens) S_) with true
    by (unfold bcast_ok; destruct Hw as [-> | ->];
        [now rewrite Nat.eqb_refl | simpl; now rewrite orb_true_r]).
  rewrite bcast_ok_one. cbn [andb bind]. reflexivity.
Qed.

(** The categorical arm of [p_path] returns on agreeing sizes. *)
Lemma p_path_categorical_returns (self : VariationalAttention)
    (input memory_bank : tensor R) (memory_lengths : option (list nat))
    (N T S_ : nat) :
  p_dist_type self = "categorical" ->
  shape input = [N; T; dim self] -> shape memory_bank = [N; S_; dim self] ->
  lengths_fit memory_lengths N S_ ->
  exists c ps mask,
    p_path self input memory_bank memory_lengths = Ok (c, ps, mask) /\
    shape c = [N; T; S_] /\ alpha ps = Some c.
Proof.
  intros Hp Hi Hm Hl. unfold p_path. rewrite Hp. simpl String.eqb. cbv iota.
  destruct (score_returns self input memory_bank Hi Hm) as (sc & -> & Hsc).
  cbn [bind].
  destruct memory_lengths as [lens |].
  - destruct (@masked_scores_return _ (tmap Fin sc) lens NegInf N T S_ Hsc Hl)
      as (m & x' & -> & Hx).
    cbn [bind]. rewrite Hx. cbn [bind].
    apply masked_fill_shape in Hx.
    do 3 eexists. split; [reflexivity |]. split; [| reflexivity].
    simpl. now rewrite Hx.
  - cbn [bind]. do 3 eexists. split; [reflexivity |]. split; [| reflexivity].
    simpl. assumption.
Qed.

(** In "enum" mode a one-step call with a categorical prior and agreeing
    sizes returns. *)
Lemma forward_enum_returns (self : VariationalAttention)
    (input memory_bank : tensor R) (memory_lengths : option (list nat))
    (q_scores : option (Params R)) (g : rng) (N S_ H : nat)
    (input' : tensor R) (q' : option (Params R)) :
  p_dist_type self = "categorical" -> mode self = "enum" -> dim self = H ->
  shape input = [N; H] -> shape memory_bank = [N; S_; H] ->
  promote input q_scores = Ok (true, input', q') ->
  lengths_fit memory_lengths N S_ ->
  exists out, forward self input memory_bank memory_lengths q_scores g = Ok out.
Proof.
  intros Hp Hmode Hd Hi Hm Hpre Hl. unfold forward. rewrite Hpre. cbn [bind].
  apply promote_true_inv in Hpre as (a & b & Hi' & ->).
  rewrite Hi in Hi'. injection Hi' as <- <-.
  unfold size_checks. rewrite Hm. simpl shape. cbv iota.
  rewrite !aeq_refl, Hd, aeq_refl. cbn [bind].
  unfold assert_categorical. rewrite Hp. simpl py_assert. cbn [bind].
  subst H.
  destruct (@p_path_categorical_returns self
              (Tensor [N; 1; dim self] (data input)) memory_bank
              memory_lengths N 1 S_ Hp eq_refl Hm Hl)
    as (c & ps & mask & -> & Hc & Hps).
  cbn [bind].
  destruct (@bmm_returns _ _ c (tmap Val memory_bank) N 1 S_ (dim self) Hc)
    as (cc & -> & Hcc); [simpl; assumption |].
  cbn [bind].
  unfold q_path. rewrite Hmode. simpl String.eqb. cbv iota. cbn [bind].
  unfold context_of, unsqueeze. simpl Nat.leb. cbv iota. cbn [bind].
  unfold project_y, unsqueeze. simpl Nat.leb. cbv iota. cbn [bind].
  unfold expand, repeat0, permute2103. simpl shape. rewrite Hm. simpl.
  rewrite !bcast_ok_refl, bcast_ok_one. simpl.
  unfold one_step_results. rewrite Hps.
  unfold squeeze. simpl. rewrite Hcc, Hc. simpl.
  rewrite !aeq_refl. cbn [bind].
  eexists; reflexivity.
Qed.


(** ** Masking and the soft-max *)

Lemma bcast_lt (d i : nat) : i < d -> bcast d i = i.
Proof.
  unfold bcast. intros Hi. destruct (d =? 1) eqn:E; [| reflexivity].
  apply Nat.eqb_eq in E. lia.
Qed.

Lemma expand_same_rank {A} (d : A) (tgt : list nat) (t t' : tensor A) :
  rank t = length tgt -> expand d tgt t = Ok t' ->
  t' = tgen tgt (fun idx =>
         nth (ravel (shape t) (bcast_idx (shape t) idx)) (data t) d).
Proof.
  unfold expand. intros Hr. rewrite Hr, Nat.leb_refl, Nat.sub_diag.
  cbn [repeat app].
  destruct (bcast_all_ok (shape t) tgt); [| discriminate].
  now intros H; injection H as <-.
Qed.

Lemma length_mask_Ok (lens : list nat) (m : tensor bool) :
  length_mask lens = Ok m ->
  lens <> [] /\
  m = Tensor [length lens; 1; list_max lens]
        (data (tgen [length lens; list_max lens] (in_length lens))).
Proof.
  unfold length_mask, sequence_mask.
  destruct lens as [| l0 lens']; [discriminate |].
  remember (l0 :: lens') as lens eqn:El.
  cbv zeta. cbn [bind]. unfold unsqueeze, rank.
  cbn [tgen shape data length Nat.leb firstn skipn app].
  intros H. apply Ok_inj in H. subst m.
  split; [rewrite El; discriminate | reflexivity].
Qed.

(** What a length mask that [masked_fill_] accepts looks like. *)
Lemma masked_fill_mask_fits {A} (x x' : tensor A) (lens : list nat)
    (m : tensor bool) (v : A) (N T S_ : nat) :
  shape x = [N; T; S_] ->
  length_mask lens = Ok m ->
  masked_fill_ x (one_minus m) v = Ok x' ->
  lengths_fit (Some lens) N S_.
Proof.
  intros Hx Hm Hf. apply length_mask_Ok in Hm as [Hne ->].
  unfold masked_fill_ in Hf. apply bind_Ok_inv in Hf as (m' & He & _).
  unfold expand in He. rewrite Hx in He.
  cbn [one_minus tmap rank shape length Nat.leb Nat.sub repeat app
       bcast_all_ok] in He.
  destruct (bcast_ok (length lens) N) eqn:E1; [| discriminate].
  rewrite bcast_ok_one in He. cbn [andb] in He.
  destruct (bcast_ok (list_max lens) S_) eqn:E2; [| discriminate].
  unfold bcast_ok in E1, E2.
  apply orb_true_iff in E1, E2. rewrite !Nat.eqb_eq in E1, E2.
  split; [assumption |]. split; assumption.
Qed.

(** A position of the broadcast mask. *)
Lemma bcast_fit (d n i : nat) : d = n \/ d = 1 -> i < n -> bcast d i < d.
Proof.
  intros Hd Hi. unfold bcast. destruct (d =? 1) eqn:E.
  - apply Nat.eqb_eq in E. lia.
  - apply Nat.eqb_neq in E. lia.
Qed.

Lemma in_length_fit (lens : list nat) (b s : nat) :
  b < length lens -> s < list_max lens ->
  in_length lens [bcast (length lens) b; bcast (list_max lens) s]
  = (s <? nth b lens 0).
Proof. intros Hb Hs. now rewrite !bcast_lt by assumption. Qed.

(** After the mask is applied, the entry of example [b] at source position
    [s] is kept where the broadcast mask marks the position as valid, and is
    the fill value otherwise. *)
Lemma masked_fill_elem {A} (x0 x : tensor A) (lens : list nat)
    (m : tensor bool) (v d : A) (N T S_ : nat) :
  length_mask lens = Ok m ->
  masked_fill_ x0 (one_minus m) v = Ok x ->
  shape x0 = [N; T; S_] ->
  forall b t s, b < N -> t < T -> s < S_ ->
    tget d x [b; t; s]
    = if in_length lens [bcast (length lens) b; bcast (list_max lens) s]
      then tget v x0 [b; t; s] else v.
Proof.
  intros Hm Hx Hs b t s Hb Ht Hss.
  destruct (@masked_fill_mask_fits _ x0 x lens m v N T S_ Hs Hm Hx)
    as (_ & HL & HW).
  apply length_mask_Ok in Hm as [_ ->].
  unfold masked_fill_ in Hx.
  apply bind_Ok_inv in Hx as (m' & Hm' & Hx). apply Ok_inj in Hx. subst x.
  apply expand_same_rank in Hm'; [| now rewrite Hs].
  subst m'. rewrite Hs.
  assert (Hr : Forall2 lt [b; t; s] [N; T; S_]) by in_bounds.
  unfold tget at 1. cbn [shape data].
  rewrite nth_tab by (apply (ravel_lt Hr)).
  change (nth (ravel [N; T; S_] [b; t; s]) (data (tgen [N; T; S_] ?f)) false)
    with (tget false (tgen [N; T; S_] f) [b; t; s]).
  rewrite (tget_tgen _ _ Hr).
  cbn [one_minus tmap shape data firstn skipn app bcast_idx].
  change false with (negb true). rewrite map_nth.
  set (b' := bcast (length lens) b). set (s' := bcast (list_max lens) s).
  assert (Hb' : b' < length lens) by (apply (bcast_fit HL Hb)).
  assert (Hs' : s' < list_max lens) by (apply (bcast_fit HW Hss)).
  replace (ravel [length lens; 1; list_max lens] [b'; bcast 1 t; s'])
    with (ravel [length lens; list_max lens] [b'; s']) by (simpl; lia).
  match goal with
  | |- context [nth (ravel ?sh ?i) (data (tgen ?sh ?f)) true] =>
      change (nth (ravel sh i) (data (tgen sh f)) true)
        with (tget true (tgen sh f) i)
  end.
  rewrite tget_tgen by in_bounds.
  unfold tget. rewrite Hs.
  destruct (in_length lens [b'; s']); reflexivity.
Qed.

Lemma gsum_Val (n : nat) (f : nat -> R) :
  gsum n (fun j => Val (f j)) = Val (gsum n f).
Proof.
  induction n as [| n IH]; simpl; [reflexivity |]. now rewrite IH.
Qed.

Lemma gsum_ext {A} `{Num A} (n : nat) (f f' : nat -> A) :
  (forall j, j < n -> f j = f' j) -> gsum n f = gsum n f'.
Proof.
  induction n as [| n IH]; simpl; intros Hf; [reflexivity |].
  rewrite IH, Hf by auto with arith. reflexivity.
Qed.

Lemma gsum_div (n : nat) (f : nat -> R) (D : R) :
  gsum n (fun j => (f j / D)%R) = (gsum n f / D)%R.
Proof.
  induction n as [| n IH]; simpl.
  - unfold Rdiv. now rewrite Rmult_0_l.
  - rewrite IH. unfold Rdiv. ring.
Qed.

Lemma gsum_nonneg (n : nat) (f : nat -> R) :
  (forall j, j < n -> (0 <= f j)%R) -> (0 <= gsum n f)%R.
Proof.
  induction n as [| n IH]; simpl; intros Hf; [lra |].
  pose proof (Hf n (Nat.lt_succ_diag_r n)).
  assert (0 <= gsum n f)%R by (apply IH; auto with arith). lra.
Qed.

Lemma gsum_pos (n j0 : nat) (f : nat -> R) :
  (forall j, j < n -> (0 <= f j)%R) -> j0 < n -> (0 < f j0)%R ->
  (0 < gsum n f)%R.
Proof.
  induction n as [| n IH]; simpl; intros Hf Hj Hp; [lia |].
  assert (Hn : (0 <= gsum n f)%R) by (apply gsum_nonneg; auto with arith).
  pose proof (Hf n (Nat.lt_succ_diag_r n)).
  destruct (Nat.eq_dec j0 n) as [-> | Hne]; [lra |].
  assert (0 < gsum n f)%R by (apply IH; auto with arith; lia). lra.
Qed.

Lemma xexp_nonneg (x : xreal) : (0 <= xexp x)%R.
Proof. destruct x; simpl; [left; apply exp_pos | lra]. Qed.

(** The soft-max of a row with a finite entry: every entry is its
    exponential over the row's sum. *)
Lemma softmax_elem (x : tensor xreal) (N T S_ b t s j0 : nat) :
  shape x = [N; T; S_] -> b < N -> t < T -> s < S_ ->
  j0 < S_ -> is_fin (tget NegInf x [b; t; j0]) = true ->
  tget NaN (softmax x) [b; t; s]
  = Val (xexp (tget NegInf x [b; t; s])
         / gsum S_ (fun j => xexp (tget NegInf x [b; t; j]))).
Proof.
  intros Hs Hb Ht Hss Hj Hfin. unfold softmax. rewrite Hs.
  rewrite tget_tgen by in_bounds. cbn [last removelast app].
  replace (existsb (fun j => is_fin (tget NegInf x [b; t; j])) (seq 0 S_))
    with true; [reflexivity |].
  symmetry. apply existsb_exists. exists j0. split; [| assumption].
  apply in_seq. lia.
Qed.

(** The soft-max of a row without a finite entry is NaN. *)
Lemma softmax_elem_nan (x : tensor xreal) (N T S_ b t s : nat) :
  shape x = [N; T; S_] -> b < N -> t < T -> s < S_ ->
  (forall j, j < S_ -> tget NegInf x [b; t; j] = NegInf) ->
  tget NaN (softmax x) [b; t; s] = NaN.
Proof.
  intros Hs Hb Ht Hss Hall. unfold softmax. rewrite Hs.
  rewrite tget_tgen by in_bounds. cbn [last removelast app].
  replace (existsb (fun j => is_fin (tget NegInf x [b; t; j])) (seq 0 S_))
    with false; [reflexivity |].
  symmetry. apply not_true_is_false. intros He.
  apply existsb_exists in He as (j & Hj & Hf). apply in_seq in Hj.
  rewrite Hall in Hf by lia. discriminate.
Qed.

(** A soft-max row with a finite entry sums to 1. *)
Lemma softmax_row_sum (x : tensor xreal) (N T S_ b t j0 : nat) :
  shape x = [N; T; S_] -> b < N -> t < T ->
  j0 < S_ -> is_fin (tget NegInf x [b; t; j0]) = true ->
  gsum S_ (fun s => tget NaN (softmax x) [b; t; s]) = Val 1%R.
Proof.
  intros Hs Hb Ht Hj Hfin.
  rewrite (gsum_ext _
             (fun s => Val (xexp (tget NegInf x [b; t; s])
                            / gsum S_ (fun j => xexp (tget NegInf x [b; t; j])))))
    by (intros s Hss; now apply softmax_elem with (N := N) (T := T) (j0 := j0)).
  rewrite gsum_Val. f_equal.
  rewrite gsum_div. apply Rdiv_diag.
  apply Rgt_not_eq, Rlt_gt.
  apply gsum_pos with (j0 := j0); [intros; apply xexp_nonneg | assumption |].
  destruct (tget NegInf x [b; t; j0]); [apply exp_pos | discriminate].
Qed.

Lemma bmm_Ok_tgen {A} `{Num A} (a b c : tensor A) :
  bmm a b = Ok c -> exists f, c = tgen (shape c) f.
Proof.
  unfold bmm.
  destruct (shape a) as [| ba [| n [| m [| ? ?]]]]; try discriminate.
  destruct (shape b) as [| bb [| m' [| p0 [| ? ?]]]]; try discriminate.
  destruct ((ba =? bb) && (m =? m')); [| discriminate].
  intros H0; injection H0 as <-. eexists; reflexivity.
Qed.

Lemma score_Ok_tgen (self : VariationalAttention) (h_t h_s sc : tensor R) :
  score self h_t h_s = Ok sc -> exists f, sc = tgen (shape sc) f.
Proof.
  unfold score.
  destruct (shape h_s) as [| b [| s [| d [| ? ?]]]]; try discriminate.
  destruct (shape h_t) as [| b' [| t [| d' [| ? ?]]]]; try discriminate.
  intros H.
  apply bind_Ok_inv in H as (u1 & _ & H).
  apply bind_Ok_inv in H as (u2 & _ & H).
  apply bind_Ok_inv in H as (u3 & _ & H).
  apply bind_Ok_inv in H as (v1 & _ & H).
  apply bind_Ok_inv in H as (v2 & _ & H).
  now apply bmm_Ok_tgen in H.
Qed.

Lemma tget_tmap_tgen {A B} (g : A -> B) (d : B) (sh idx : list nat)
    (f : list nat -> A) :
  Forall2 lt idx sh -> tget d (tmap g (tgen sh f)) idx = g (f idx).
Proof.
  intros H. unfold tget, tmap, tgen. cbn [shape data].
  pose proof (ravel_lt H) as Hr.
  rewrite (nth_indep _ d (g (f idx)))
    by now rewrite length_map, tab_length.
  rewrite map_nth, nth_tab by assumption.
  now rewrite unravel_ravel.
Qed.

Lemma squeeze1_elem {A} (d : A) (c : tensor A) (N S_ b s : nat) :
  shape c = [N; 1; S_] ->
  shape (squeeze 1 c) = [N; S_] /\
  tget d (squeeze 1 c) [b; s] = tget d c [b; 0; s].
Proof.
  intros Hc. unfold squeeze, tget. rewrite Hc. simpl. split; [reflexivity |].
  f_equal. lia.
Qed.

(** The deterministic weights of a returning call with lengths: the
    soft-max of the masked scores, without the time axis. *)
Lemma forward_c_align (self : VariationalAttention)
    (input memory_bank : tensor R) (lens : list nat)
    (q_scores : option (Params R)) (g : rng) (out : output) (N S_ H : nat) :
  forward self input memory_bank (Some lens) q_scores g = Ok out ->
  shape memory_bank = [N; S_; H] ->
  exists (sc : tensor R) (x : tensor xreal),
    score self (Tensor [N; 1; H] (data input)) memory_bank = Ok sc /\
    shape sc = [N; 1; S_] /\
    shape x = [N; 1; S_] /\
    c_align_vectors out = squeeze 1 (softmax x) /\
    lengths_fit (Some lens) N S_ /\
    forall b s, b < N -> s < S_ ->
      tget NegInf x [b; 0; s]
      = if in_length lens [bcast (length lens) b; bcast (list_max lens) s]
        then Fin (tget 0%R sc [b; 0; s]) else NegInf.
Proof.
  intros Hf Hm.
  apply forward_Ok_inv in Hf
    as (input' & q' & b & s & d' & t & c & ps & mask & cc & y & qsm & slp
        & ctx & hy & Hpre & Hsz & Hp & Hpp & Hcc & Hq & Hctx & Hhy & Hres).
  apply size_checks_Ok_inv in Hsz as (Hm' & Hi' & Hd).
  rewrite Hm in Hm'. injection Hm' as E1 E2 E3. subst b s d'.
  apply promote_true_inv in Hpre as (a0 & b0 & Hi & ->).
  cbn [shape] in Hi'. injection Hi' as E1 E2 E3. subst a0 t b0.
  apply one_step_results_Ok_inv in Hres as (_ & _ & Ec & _).
  eapply p_path_categorical_inv in Hpp; [| exact Hp].
  destruct Hpp as (sc & x & Hsc & Sx & -> & _ & m & Hmask & Hfill & _).
  pose proof Hsc as Hsc2. apply score_Ok_tgen in Hsc2 as [f Ef].
  pose proof Hsc as Hsc3.
  apply score_Ok_inv in Hsc3 as (b1 & t1 & s1 & d1 & Hs1 & Ht1 & Ssc).
  rewrite Hm in Hs1. injection Hs1 as E1 E2 E3. subst b1 s1 d1.
  cbn [shape] in Ht1. injection Ht1 as E2. subst t1.
  rewrite Ssc in Sx, Ef.
  exists sc, x. split; [assumption |]. split; [assumption |].
  split; [assumption |]. split; [assumption |].
  split.
  { eapply masked_fill_mask_fits; [| exact Hmask | exact Hfill].
    exact Ssc. }
  intros b s Hb Hs.
  rewrite (@masked_fill_elem _ (tmap Fin sc) x lens m NegInf NegInf N 1 S_
             Hmask Hfill Ssc) by (assumption || lia).
  destruct (in_length lens _); [| reflexivity].
  rewrite Ef. rewrite tget_tmap_tgen by in_bounds.
  now rewrite tget_tgen by in_bounds.
Qed.

(** The Dirichlet arm of [p_path] with lengths: the weights are the
    soft-max of the log-scores after the fills, and the concentrations are
    the scores after the fills. *)
Lemma p_path_dirichlet_inv (self : VariationalAttention)
    (input memory_bank : tensor R) (lens : list nat)
    (c : tensor fl) (ps : Params fl) (mask : option (tensor bool)) :
  p_dist_type self = "dirichlet" ->
  p_path self input memory_bank (Some lens) = Ok (c, ps, mask) ->
  exists sc m log_scores scores,
    score self input memory_bank = Ok sc /\
    length_mask lens = Ok m /\
    c = softmax log_scores /\
    ps = mkParams (Some (tmap Val scores)) None "dirichlet" None None /\
    match scoresF self with
    | Fresh f =>
        masked_fill_ (tmap Fin sc) (one_minus m) NegInf = Ok log_scores /\
        masked_fill_ (tmap f sc) (one_minus m) (exp (-10)) = Ok scores
    | Same =>
        masked_fill_ sc (one_minus m) (exp (-10)) = Ok scores /\
        log_scores = tmap Fin scores
    end.
Proof.
  intros Hp. unfold p_path. rewrite Hp. simpl String.eqb. cbv iota.
  intros H.
  apply bind_Ok_inv in H as (sc & Hsc & H).
  apply bind_Ok_inv in H as ([[ls s] mk] & Hx & H).
  apply Ok_inj in H. injection H as <- <- <-.
  destruct (scoresF self) as [f |].
  - apply bind_Ok_inv in Hx as (m & Hm & Hx).
    apply bind_Ok_inv in Hx as (ls' & Hls & Hx).
    apply bind_Ok_inv in Hx as (s' & Hs & Hx).
    apply Ok_inj in Hx. injection Hx as <- <- _.
    exists sc, m, ls', s'. repeat split; assumption.
  - apply bind_Ok_inv in Hx as (m & Hm & Hx).
    apply bind_Ok_inv in Hx as (ls' & Hls & Hx).
    apply bind_Ok_inv in Hx as (s' & Hs & Hx).
    apply Ok_inj in Hx. injection Hx as <- <- _.
    exists sc, m, (tmap Fin s'), s'. repeat split; assumption.
Qed.

Lemma p_path_dirichlet_returns (self : VariationalAttention)
    (input memory_bank : tensor R) (lens : list nat) (N T S_ : nat) :
  p_dist_type self = "dirichlet" ->
  shape input = [N; T; dim self] -> shape memory_bank = [N; S_; dim self] ->
  lengths_fit (Some lens) N S_ ->
  exists r, p_path self input memory_bank (Some lens) = Ok r.
Proof.
  intros Hp Hi Hm Hl. unfold p_path. rewrite Hp. simpl String.eqb. cbv iota.
  destruct (score_returns self input memory_bank Hi Hm) as (sc & -> & Hsc).
  cbn [bind].
  destruct (@masked_scores_return _ (tmap Fin sc) lens NegInf N T S_ Hsc Hl)
    as (m & x' & Hm1 & Hx).
  destruct (scoresF self) as [f |].
  - destruct (@masked_scores_return _ (tmap f sc) lens (exp (-10))
                N T S_ Hsc Hl)
      as (m2 & x2 & Hm2 & Hx2).
    rewrite Hm1 in Hm2. apply Ok_inj in Hm2. subst m2.
    rewrite Hm1. cbn [bind]. rewrite Hx. cbn [bind]. rewrite Hx2. cbn [bind].
    eexists; reflexivity.
  - destruct (@masked_scores_return _ sc lens (exp (-10)) N T S_ Hsc Hl)
      as (m2 & x2 & Hm2 & Hx2).
    rewrite Hm1 in Hm2. apply Ok_inj in Hm2. subst m2.
    rewrite Hm1. cbn [bind]. rewrite Hx. cbn [bind]. rewrite Hx2. cbn [bind].
    eexists; reflexivity.
Qed.


(** ** The categorical arm of sample_attn *)

Lemma attns_id_elem (g : rng) (K N T k n t : nat) :
  k < K -> n < N -> t < T ->
  tget 0 (attns_id_of g K N T) [k; n; t; 0]
  = categorical_sample g (ravel [K; N; T] [k; n; t]).
Proof.
  intros Hk Hn Ht. unfold tget, attns_id_of. cbn [shape data].
  assert (Hr : Forall2 lt [k; n; t] [K; N; T]) by in_bounds.
  pose proof (ravel_lt Hr) as Hlt.
  replace (ravel [K; N; T; 1] [k; n; t; 0]) with (ravel [K; N; T] [k; n; t])
    by (simpl; lia).
  apply nth_tab. simpl in *. lia.
Qed.

Lemma Categorical_sample_Ok (g : rng) (K N T : nat) :
  0 < K -> Categorical_sample g K N T = Ok (attns_id_of g K N T).
Proof.
  intros HK. unfold Categorical_sample.
  destruct K; [lia | reflexivity].
Qed.

Lemma Categorical_sample_Ok_inv (g : rng) (K N T : nat) (ids : tensor nat) :
  Categorical_sample g K N T = Ok ids -> 0 < K /\ ids = attns_id_of g K N T.
Proof.
  unfold Categorical_sample. destruct K; [discriminate |].
  cbn [Nat.eqb]. intros H. apply Ok_inj in H. split; [lia | now subst].
Qed.

(** What the categorical arm of [sample_attn] returns. *)
Lemma sample_attn_categorical (params : Params R) (K N T S_ : nat)
    (a la : tensor R) (lens : option (list nat)) (mask : option (tensor bool))
    (g : rng) :
  0 < K ->
  dist_type params = "categorical" ->
  alpha params = Some a -> log_alpha params = Some la ->
  shape a = [N; T; S_] -> shape la = [N; T; S_] ->
  exists la4,
    sample_attn params K lens mask g
    = Ok (AttnsLogProbs
            (scatter_one_hot [K; N; T; S_] (attns_id_of g K N T))
            (squeeze 3 (gather_last 0%R la4 (attns_id_of g K N T)))) /\
    shape la4 = [K; N; T; S_] /\
    forall k n t s, k < K -> n < N -> t < T -> s < S_ ->
      tget 0%R la4 [k; n; t; s] = tget 0%R la [n; t; s].
Proof.
  intros HK Hd Ha Hla Sa Sla. unfold sample_attn. rewrite Hd.
  simpl String.eqb. cbv iota. rewrite Ha, Hla.
  unfold size012. rewrite Sa. cbn [bind].
  rewrite view_ok by (rewrite Sa; simpl; lia). cbn [bind].
  rewrite Categorical_sample_Ok by assumption. cbn [bind].
  unfold unsqueeze. cbn [Nat.leb bind firstn skipn app].
  unfold expand. cbn [rank shape length Nat.leb Nat.sub repeat app].
  rewrite Sla. cbn [length Nat.leb Nat.sub repeat app bcast_all_ok].
  rewrite bcast_ok_one, !bcast_ok_refl. cbn [andb bind].
  eexists. split; [reflexivity |]. split; [reflexivity |].
  intros k n t s Hk Hn Ht Hs.
  rewrite tget_tgen by in_bounds. cbn [bcast_idx data].
  change (bcast 1 k) with 0.
  rewrite (bcast_lt Hn), (bcast_lt Ht), (bcast_lt Hs).
  unfold tget. rewrite Sla. f_equal; simpl; lia.
Qed.


(** The samples of a returning categorical arm are the one-hot rows at the
    drawn indices, whatever the lengths and the mask; at least one sample
    was asked for. *)
Lemma sample_attn_categorical_inv (params : Params R) (K N T S_ : nat)
    (a : tensor R) (lens : option (list nat)) (mask : option (tensor bool))
    (g : rng) (r : sample_out) :
  dist_type params = "categorical" ->
  alpha params = Some a -> shape a = [N; T; S_] ->
  sample_attn params K lens mask g = Ok r ->
  0 < K /\
  exists slp,
    r = AttnsLogProbs (scatter_one_hot [K; N; T; S_] (attns_id_of g K N T)) slp.
Proof.
  intros Hd Ha Sa. unfold sample_attn. rewrite Hd.
  simpl String.eqb. cbv iota. rewrite Ha.
  unfold size012. rewrite Sa. cbn [bind]. intros H.
  apply bind_Ok_inv in H as (v & _ & H).
  apply bind_Ok_inv in H as (ids & Hids & H).
  apply Categorical_sample_Ok_inv in Hids as [HK ->].
  destruct (log_alpha params) as [la |]; [| discriminate].
  apply bind_Ok_inv in H as (la0 & _ & H).
  apply bind_Ok_inv in H as (la4 & _ & H).
  apply Ok_inj in H. subst r. split; [assumption |]. eexists; reflexivity.
Qed.

(** The promotion of a posterior with parameters: they get a time axis of
    length 1. *)
Lemma promote_q_inv (input input' : tensor R) (qs : Params R)
    (q' : option (Params R)) (a : tensor R) (N S_ : nat) :
  promote input (Some qs) = Ok (true, input', q') ->
  alpha qs = Some a -> shape a = [N; S_] ->
  exists la1,
    q' = Some (mkParams (Some (Tensor [N; 1; S_] (data a))) (Some la1)
                 (dist_type qs) None None).
Proof.
  unfold promote. destruct (rank input =? 2); [| discriminate].
  intros H Ha Sa.
  apply bind_Ok_inv in H as (i1 & _ & H).
  apply bind_Ok_inv in H as (q1 & Hq & H). injection H as _ <-.
  rewrite Ha in Hq.
  apply bind_Ok_inv in Hq as (a1 & Ha1 & Hq).
  unfold unsqueeze, rank in Ha1. rewrite Sa in Ha1. simpl in Ha1.
  injection Ha1 as <-.
  destruct (log_alpha qs) as [la |]; [| discriminate].
  apply bind_Ok_inv in Hq as (la1 & _ & Hq). injection Hq as <-.
  eexists; reflexivity.
Qed.

Lemma scatter_one_hot_elem (K N T S_ k n t s : nat) (ids : tensor nat) :
  k < K -> n < N -> t < T -> s < S_ ->
  tget 0%R (scatter_one_hot [K; N; T; S_] ids) [k; n; t; s]
  = if s =? tget 0 ids [k; n; t; 0] then 1%R else 0%R.
Proof.
  intros Hk Hn Ht Hs. unfold scatter_one_hot.
  now rewrite tget_tgen by in_bounds.
Qed.

Lemma squeeze2_elem {A} (d : A) (c : tensor A) (K N S_ k n s : nat) :
  shape c = [K; N; 1; S_] ->
  shape (squeeze 2 c) = [K; N; S_] /\
  tget d (squeeze 2 c) [k; n; s] = tget d c [k; n; 0; s].
Proof.
  intros Hc. unfold squeeze, tget. rewrite Hc. simpl. split; [reflexivity |].
  f_equal. lia.
Qed.


(** ** Sampling calls that return *)

Lemma view_infer_ok {A} (sh : list nat) (t : tensor A) (B : nat) :
  numel sh <> 0 -> numel (shape t) = B * numel sh ->
  view_infer sh t = Ok (Tensor (B :: sh) (data t)).
Proof.
  intros Hn He. unfold view_infer.
  destruct (numel sh =? 0) eqn:E; [apply Nat.eqb_eq in E; contradiction |].
  rewrite He, Nat.Div0.mod_mul, Nat.eqb_refl, Nat.div_mul by assumption.
  reflexivity.
Qed.

(** The sampled contexts are built when the samples have the sizes of the
    call. *)
Lemma context_of_sample_returns (self : VariationalAttention)
    (y memory_bank : tensor R) (N S_ H T : nat) :
  shape y = [n_samples self; N; T; S_] ->
  shape memory_bank = [N; S_; H] ->
  0 < T -> 0 < S_ -> 0 < H ->
  exists ctx, context_of self (Some y) memory_bank N S_ H T = Ok ctx.
Proof.
  intros Hy Hm HT HS HH. unfold context_of.
  rewrite (@view_infer_ok _ [T; S_] y (n_samples self * N))
    by (rewrite ?Hy; simpl; nia).
  cbn [bind]. unfold unsqueeze. cbn [Nat.leb bind firstn skipn app].
  unfold repeat0. cbn [shape]. rewrite Hm.
  match goal with
  | |- context [view_infer ?sh ?t] =>
      rewrite (@view_infer_ok _ sh t (n_samples self * N))
        by (simpl; nia)
  end.
  cbn [bind].
  unfold bmm. cbn [shape]. rewrite !Nat.eqb_refl. cbn [andb bind].
  rewrite view_ok by (simpl; nia).
  eexists; reflexivity.
Qed.

(** After [context_of], the projection and the one-step results go through. *)
Lemma forward_tail_returns (self : VariationalAttention)
    (input : tensor R) (ctx : tensor R) (c cc : tensor fl) (ps : Params fl)
    (q' : option (Params R)) (qsm slp : option (tensor R))
    (K N S_ : nat) :
  shape ctx = [K; N; 1; dim self] ->
  shape c = [N; 1; S_] -> shape cc = [N; 1; dim self] ->
  alpha ps = Some c ->
  exists out,
    (h_y <- project_y self ctx (Tensor [N; 1; dim self] (data input)) ;;
     one_step_results N S_ (dim self) h_y
       (nn_tanh (linear (linear_out self)
                   (cat_last NaN cc
                      (tmap Val (Tensor [N; 1; dim self] (data input))))))
       c q' ps qsm slp None) = Ok out.
Proof.
  intros Hctx Hc Hcc Hps.
  unfold project_y, unsqueeze. cbn [rank shape length Nat.leb bind firstn skipn app].
  unfold expand. rewrite Hctx.
  cbn [rank shape length Nat.leb Nat.sub repeat app bcast_all_ok].
  rewrite !bcast_ok_refl, bcast_ok_one. cbn [andb bind].
  unfold one_step_results. rewrite Hps.
  unfold squeeze. simpl. rewrite Hctx, Hcc, Hc. simpl.
  rewrite !aeq_refl. cbn [bind].
  eexists; reflexivity.
Qed.

(** In "sample" mode a one-step call with a categorical prior, a categorical
    posterior of the sizes of the call, and agreeing sizes returns. *)
Lemma forward_sample_returns (self : VariationalAttention)
    (input memory_bank : tensor R) (memory_lengths : option (list nat))
    (qs : Params R) (a la : tensor R) (g : rng) (N S_ : nat) :
  p_dist_type self = "categorical" -> mode self = "sample" ->
  use_prior self = false ->
  shape input = [N; dim self] -> shape memory_bank = [N; S_; dim self] ->
  0 < S_ -> 0 < dim self -> 0 < n_samples self ->
  dist_type qs = "categorical" ->
  alpha qs = Some a -> shape a = [N; S_] ->
  log_alpha qs = Some la -> shape la = [N; S_] ->
  lengths_fit memory_lengths N S_ ->
  exists out,
    forward self input memory_bank memory_lengths (Some qs) g = Ok out.
Proof.
  intros Hp Hmode Hu Hi Hm HS HH HK Hd Ha Sa Hla Sla Hl.
  unfold forward, promote, unsqueeze, rank.
  rewrite Hi, Ha, Hla, Sa, Sla.
  cbn [length Nat.eqb Nat.leb bind firstn skipn app].
  unfold size_checks. rewrite Hm. cbn [shape].
  rewrite !aeq_refl. cbn [bind].
  unfold assert_categorical. rewrite Hp. simpl py_assert. cbn [bind].
  destruct (@p_path_categorical_returns self
              (Tensor [N; 1; dim self] (data input)) memory_bank
              memory_lengths N 1 S_ Hp eq_refl Hm Hl)
    as (c & ps & mask & -> & Hc & Hps).
  cbn [bind].
  destruct (@bmm_returns _ _ c (tmap Val memory_bank) N 1 S_ (dim self) Hc)
    as (cc & -> & Hcc); [simpl; assumption |].
  cbn [bind].
  unfold q_path. rewrite Hmode, Hu. simpl String.eqb. cbv iota.
  cbn [dist_type]. rewrite Hd. simpl String.eqb. cbv iota.
  match goal with
  | |- context [sample_attn ?prm ?K ?l ?m g] =>
      destruct (@sample_attn_categorical prm K N 1 S_
                  (Tensor [N; 1; S_] (data a)) (Tensor [N; 1; S_] (data la))
                  l m g HK eq_refl eq_refl eq_refl eq_refl eq_refl)
        as (la4 & -> & _ & _)
  end.
  cbn [bind].
  destruct (@context_of_sample_returns self
              (scatter_one_hot [n_samples self; N; 1; S_]
                 (attns_id_of g (n_samples self) N 1))
              memory_bank N S_ (dim self) 1 eq_refl Hm) as [ctx Hctx];
    try lia.
  rewrite Hctx. cbn [bind].
  eapply context_of_shape in Hctx; [| exact Hm].
  now apply forward_tail_returns with (K := n_samples self).
Qed.

(** ** sample_attn: dispatch on the distribution type *)

(** C7 (the code departs from the claim): with [dist_type = "none"] the
    call does not return: after [pass] it reads the local [attns], which no
    statement assigned, and raises [UnboundLocalError].  Any [dist_type]
    outside "dirichlet", "categorical" and "none" raises
    [Exception("Unsupported dist")], as the claim says. *)
Theorem sample_attn_none_unbound_and_unsupported :
  (forall a la s slp K lens mask g,
      sample_attn (mkParams a la "none" s slp) K lens mask g
      = Raise (UnboundLocalError "attns")) /\
  (forall params K lens mask g,
      dist_type params <> "dirichlet" ->
      dist_type params <> "categorical" ->
      dist_type params <> "none" ->
      sample_attn params K lens mask g
      = Raise (PyException "Unsupported dist")).
Proof.
  split.
  - reflexivity.
  - intros params K lens mask g Hd Hc Hn. unfold sample_attn.
    apply String.eqb_neq in Hd, Hc, Hn. now rewrite Hd, Hc, Hn.
Qed.

(** ** sample_attn: exact log-probabilities of categorical samples *)

(** C2: on the categorical arm, every returning call of [sample_attn] drew
    at least one sample, and returns [sample_log_probs] whose entry for draw
    [k] of cell [(n, t)] is [log_alpha] of that cell at the drawn index, the
    index at which the returned sample is 1. *)
Theorem sample_log_probs_gather (params : Params R) (K N T S_ : nat)
    (a la : tensor R) (lens : option (list nat)) (mask : option (tensor bool))
    (g : rng) (attns slp : tensor R) :
  dist_type params = "categorical" ->
  alpha params = Some a -> log_alpha params = Some la ->
  shape a = [N; T; S_] -> shape la = [N; T; S_] ->
  sample_attn params K lens mask g = Ok (AttnsLogProbs attns slp) ->
  0 < K /\
  shape attns = [K; N; T; S_] /\ shape slp = [K; N; T] /\
  forall k n t, k < K -> n < N -> t < T ->
    let id := categorical_sample g (ravel [K; N; T] [k; n; t]) in
    id < S_ ->
    tget 0%R attns [k; n; t; id] = 1%R /\
    tget 0%R slp [k; n; t] = tget 0%R la [n; t; id].
Proof.
  intros Hd Ha Hla Sa Sla Hs.
  destruct (@sample_attn_categorical_inv params K N T S_ a lens mask g _
              Hd Ha Sa Hs) as [HK _].
  destruct (@sample_attn_categorical params K N T S_ a la lens mask g
              HK Hd Ha Hla Sa Sla) as (la4 & Hr & Sla4 & Ela4).
  rewrite Hr in Hs. apply Ok_inj in Hs. injection Hs as <- <-.
  split; [assumption |].
  split; [reflexivity |]. split; [reflexivity |].
  intros k n t Hk Hn Ht id Hid. split.
  - unfold scatter_one_hot. rewrite tget_tgen by in_bounds.
    cbn [last removelast app].
    rewrite attns_id_elem by assumption. fold id.
    now rewrite Nat.eqb_refl.
  - unfold squeeze, gather_last. cbn [shape attns_id_of tgen nth].
    rewrite Nat.eqb_refl. cbn [firstn skipn app].
    unfold tget at 1. cbn [shape data].
    assert (Hr' : Forall2 lt [k; n; t; 0] [K; N; T; 1]) by in_bounds.
    replace (ravel [K; N; T] [k; n; t]) with (ravel [K; N; T; 1] [k; n; t; 0])
      at 1 by (simpl; lia).
    match goal with
    | |- nth _ (data (tgen ?sh ?f)) ?d = ?rhs =>
        change (tget d (tgen sh f) [k; n; t; 0] = rhs)
    end.
    rewrite (tget_tgen _ _ Hr'). cbn [removelast app].
    rewrite attns_id_elem by assumption. fold id.
    now apply Ela4.
Qed.

Lemma sample_log_probs_gather_witness :
  exists attns slp,
    sample_attn (ex_q [2; 1; 3]) 5 (Some [3; 2]) None ex_rng
    = Ok (AttnsLogProbs attns slp) /\
    shape slp = [5; 2; 1] /\
    tget 0%R attns [4; 1; 0; 2] = 1%R /\
    tget 0%R slp [4; 1; 0] = ln (/ 2).
Proof.
  assert (H : exists attns slp,
             sample_attn (ex_q [2; 1; 3]) 5 (Some [3; 2]) None ex_rng
             = Ok (AttnsLogProbs attns slp))
    by (do 2 eexists; reflexivity).
  destruct H as (attns & slp & Hs).
  destruct (@sample_log_probs_gather (ex_q [2; 1; 3]) 5 2 1 3
              _ _ (Some [3; 2]) None ex_rng attns slp
              eq_refl eq_refl eq_refl eq_refl eq_refl Hs)
    as (_ & _ & Hsh & Hg).
  exists attns, slp. split; [exact Hs |]. split; [exact Hsh |].
  destruct (Hg 4 1 0) as [H1 H2]; simpl; try lia.
  split; [exact H1 | exact H2].
Defined.

(** ** forward: what the configuration can and cannot change *)

(** C10: two components that agree on every attribute except the stored
    [q_dist_type] (kept under the name [q_dist_tyqe], which nothing reads)
    give the same result on the same inputs and draws; and when a sampling
    call returns, the posterior was dispatched on the [dist_type] of the
    supplied [q_scores], which was "categorical". *)
Theorem forward_ignores_q_dist_type (self1 self2 : VariationalAttention)
    (input memory_bank : tensor R) (memory_lengths : option (list nat))
    (q_scores : option (Params R)) (g : rng) :
  dim self1 = dim self2 ->
  p_dist_type self1 = p_dist_type self2 ->
  use_prior self1 = use_prior self2 ->
  scoresF self1 = scoresF self2 ->
  n_samples self1 = n_samples self2 ->
  mode self1 = mode self2 ->
  linear_in_weight self1 = linear_in_weight self2 ->
  linear_out_weight self1 = linear_out_weight self2 ->
  forward self1 input memory_bank memory_lengths q_scores g
  = forward self2 input memory_bank memory_lengths q_scores g /\
  (forall out qs,
      q_scores = Some qs -> mode self1 = "sample" ->
      forward self1 input memory_bank memory_lengths q_scores g = Ok out ->
      dist_type qs = "categorical").
Proof.
  intros Hd Hp Hu Hs Hn Hm Hwi Hwo. split.
  - destruct self1, self2. simpl in *. subst. reflexivity.
  - intros out qs -> Hmode Hf.
    apply forward_Ok_inv in Hf
      as (input' & q' & b & s & d' & t & c & ps & mask & cc & y & qsm & slp
          & ctx & hy & Hpre & _ & _ & _ & _ & Hq & _).
    apply q_path_Ok_inv in Hq
      as [(_ & qs' & a & l & -> & _ & Hdt & _) | (He & _)];
      [| rewrite Hmode in He; discriminate].
    unfold promote in Hpre.
    destruct (rank input =? 2); [| discriminate].
    apply bind_Ok_inv in Hpre as (i1 & _ & Hpre).
    apply bind_Ok_inv in Hpre as (q1 & Hq1 & Hpre).
    injection Hpre as _ ->.
    destruct (alpha qs) as [al |].
    + apply bind_Ok_inv in Hq1 as (a1 & _ & Hq1).
      destruct (log_alpha qs) as [la |]; [| discriminate].
      apply bind_Ok_inv in Hq1 as (la1 & _ & Hq1).
      injection Hq1 as <-. exact Hdt.
    + injection Hq1 as <-. exact Hdt.
Qed.

Lemma forward_ignores_q_dist_type_witness :
  forward (__init__ 4 "categorical" "dirichlet" "dirichlet" false
             (Fresh softplus) 5 "sample" "mean" (repeat 1%R 16)
             (repeat 1%R 32))
    ex_query ex_memory (Some [3; 2]) (Some (ex_q [2; 3])) ex_rng
  = forward (__init__ 4 "categorical" "categorical" "dirichlet" false
               (Fresh softplus) 5 "sample" "mean" (repeat 1%R 16)
               (repeat 1%R 32))
      ex_query ex_memory (Some [3; 2]) (Some (ex_q [2; 3])) ex_rng.
Proof.
  exact (proj1 (forward_ignores_q_dist_type
                  (__init__ 4 "categorical" "dirichlet" "dirichlet" false
                     (Fresh softplus) 5 "sample" "mean" (repeat 1%R 16)
                     (repeat 1%R 32))
                  (__init__ 4 "categorical" "categorical" "dirichlet" false
                     (Fresh softplus) 5 "sample" "mean" (repeat 1%R 16)
                     (repeat 1%R 32))
                  ex_query ex_memory (Some [3; 2]) (Some (ex_q [2; 3])) ex_rng
                  eq_refl eq_refl eq_refl eq_refl eq_refl eq_refl eq_refl
                  eq_refl)).
Defined.

(** C9, as stated, fails on a one-step call whose posterior bundle has
    [alpha] but no [log_alpha] (a Dirichlet posterior): line 249 raises
    [AttributeError] before any assertion is reached. *)
Lemma forward_dirichlet_prior_attribute_error :
  forward (ex_module "dirichlet" "sample") ex_query ex_memory (Some [3; 2])
    (Some ex_q_dirichlet) ex_rng
  = Raise (AttributeError "'NoneType' object has no attribute 'unsqueeze'")
  /\ forall site,
       forward (ex_module "dirichlet" "sample") ex_query ex_memory
         (Some [3; 2]) (Some ex_q_dirichlet) ex_rng
       <> Raise (AssertionError site).
Proof. split; [reflexivity | discriminate]. Qed.

(** C9 (amended): with a prior type other than "categorical", [forward]
    never returns and fails before the attention scores are computed: its
    outcome is that of the promotion and the size checks followed by the
    failed assertion of line 263.  Whenever the promotion succeeds on
    arguments of the documented ranks, the failure is an assertion. *)
Theorem forward_requires_categorical (self : VariationalAttention)
    (input memory_bank : tensor R) (memory_lengths : option (list nat))
    (q_scores : option (Params R)) (g : rng) :
  p_dist_type self <> "categorical" ->
  (forall out,
      forward self input memory_bank memory_lengths q_scores g <> Ok out) /\
  forward self input memory_bank memory_lengths q_scores g =
    ('(_, input', _) <- promote input q_scores ;;
     _ <- size_checks self input' memory_bank ;;
     Raise (AssertionError "self.p_dist_type == 'categorical'")) /\
  (forall pre,
      promote input q_scores = Ok pre ->
      rank memory_bank = 3 -> rank input = 2 \/ rank input = 3 ->
      exists site,
        forward self input memory_bank memory_lengths q_scores g
        = Raise (AssertionError site)).
Proof.
  intros Hp. apply String.eqb_neq in Hp.
  rewrite (forward_guard self input memory_bank memory_lengths q_scores g Hp).
  split; [| split; [reflexivity |]].
  - intros out.
    destruct (promote input q_scores) as [[[o i] q'] | e]; cbn [bind];
      [| discriminate].
    destruct (size_checks self i memory_bank); discriminate.
  - intros [[o i] q'] Hpre Hm Hi. rewrite Hpre; cbn [bind].
    destruct (promote_rank _ _ Hpre) as [H2 Hn2].
    assert (Hri : rank i = 3).
    { destruct Hi as [Hi | Hi].
      - now destruct (H2 Hi).
      - destruct Hn2 as [-> _]; [lia | assumption]. }
    destruct (size_checks_rank3 self i memory_bank Hm Hri)
      as [[sizes ->] | [s ->]]; cbn [bind]; eauto.
Qed.

Lemma forward_requires_categorical_witness :
  exists site,
    forward (ex_module "dirichlet" "sample") ex_query ex_memory (Some [3; 2])
      (Some (ex_q [2; 3])) ex_rng
    = Raise (AssertionError site).
Proof.
  refine (proj2 (proj2 (forward_requires_categorical
            (ex_module "dirichlet" "sample") ex_query ex_memory (Some [3; 2])
            (Some (ex_q [2; 3])) ex_rng _)) _ eq_refl eq_refl _).
  - discriminate.
  - left; reflexivity.
Defined.

(** C5, as stated, fails on a call whose query and memory bank disagree on
    the batch size: the size check fails first, and its assertion reports
    no unsupported distribution. *)
Lemma forward_log_normal_size_mismatch :
  exists e,
    forward (ex_module "log_normal" "sample") ex_query_three ex_memory None
      None ex_rng = Raise e
    /\ ~ unsupported_distribution_error e.
Proof.
  exists (AssertionError "aeq"). split; [reflexivity |].
  intros [H | [H | H]]; discriminate.
Qed.

(** C5 (amended): with [p_dist_type = "log_normal"], [forward] never returns
    and fails before any score is computed.  Once the arguments pass the
    promotion and the size checks, the failure is the assertion of line 263,
    which reports the unsupported prior type; [raise Exception("Buggy")] on
    the log_normal arm is never reached. *)
Theorem forward_log_normal_fails (self : VariationalAttention)
    (input memory_bank : tensor R) (memory_lengths : option (list nat))
    (q_scores : option (Params R)) (g : rng) :
  p_dist_type self = "log_normal" ->
  (forall out,
      forward self input memory_bank memory_lengths q_scores g <> Ok out) /\
  forward self input memory_bank memory_lengths q_scores g
    <> Raise (PyException "Buggy") /\
  (forall one_step input' q' sizes,
      promote input q_scores = Ok (one_step, input', q') ->
      size_checks self input' memory_bank = Ok sizes ->
      forward self input memory_bank memory_lengths q_scores g
      = Raise (AssertionError "self.p_dist_type == 'categorical'")
      /\ unsupported_distribution_error
           (AssertionError "self.p_dist_type == 'categorical'")).
Proof.
  intros Hp.
  assert (Hc : String.eqb (p_dist_type self) "categorical" = false)
    by now rewrite Hp.
  rewrite (forward_guard self input memory_bank memory_lengths q_scores g Hc).
  split; [| split].
  - intros out.
    destruct (promote input q_scores) as [[[o i] q'] | e]; cbn [bind];
      [| discriminate].
    destruct (size_checks self i memory_bank); discriminate.
  - destruct (promote input q_scores) as [[[o i] q'] | e] eqn:Hpre; cbn [bind].
    + destruct (size_checks self i memory_bank) as [sizes | e] eqn:Hs;
        cbn [bind]; [discriminate |].
      intros H; injection H as ->.
      destruct (size_checks_errors _ _ _ Hs) as [[s Hs'] | [m Hs']];
        discriminate.
    + intros H; injection H as ->.
      destruct (promote_errors _ _ Hpre) as [[m Hm] | [m Hm]]; discriminate.
  - intros o i q' sizes Hpre Hs. rewrite Hpre; cbn [bind].
    rewrite Hs; cbn [bind]. split; [reflexivity |].
    right; right; reflexivity.
Qed.

Lemma forward_log_normal_fails_witness :
  forward (ex_module "log_normal" "sample") ex_query ex_memory (Some [3; 2])
    (Some (ex_q [2; 3])) ex_rng
  = Raise (AssertionError "self.p_dist_type == 'categorical'").
Proof.
  refine (proj1 (proj2 (proj2 (forward_log_normal_fails
            (ex_module "log_normal" "sample") ex_query ex_memory
            (Some [3; 2]) (Some (ex_q [2; 3])) ex_rng eq_refl))
            true ex_query_seq (Some (ex_q [2; 1; 3]))
            (2, 3, 4, 1) eq_refl eq_refl)).
Defined.

(** ** forward: the Dirichlet prior *)

(** C6, as stated, fails on the scenario of the specification (two
    examples, three source positions, lengths 3 and 2): with a Dirichlet
    prior the call stops at the assertion of line 263, and no concentration
    parameter is produced. *)
Lemma forward_dirichlet_prior_stops_at_guard :
  forward (ex_module "dirichlet" "sample") ex_query ex_memory
    (Some [3; 2]) (Some (ex_q [2; 3])) ex_rng
  = Raise (AssertionError "self.p_dist_type == 'categorical'").
Proof. reflexivity. Qed.

(** C6 (amended): with [p_dist_type = "dirichlet"] no call of [forward]
    returns, whatever its arguments, so the Dirichlet arm (lines 266-283) is
    never run by it.  The arm itself, run on a query and a memory bank of
    agreeing sizes, returns when the query has one step and the lengths
    fit; in a returning run whose longest length is the source length, the
    concentration parameter at every source position from an example's
    valid length on is [exp(-10)], which is positive, and the log-score
    there is [-inf] before the soft-max when [scoresF] returned a new
    tensor; when [scoresF] handed back its argument the second fill
    overwrites the first and the log-score is [exp(-10)]. *)
Theorem dirichlet_arm_masking (self : VariationalAttention) :
  p_dist_type self = "dirichlet" ->
  (forall input memory_bank memory_lengths q_scores g out,
      forward self input memory_bank memory_lengths q_scores g <> Ok out) /\
  (forall (input memory_bank : tensor R) (lens : list nat) (N T S_ : nat),
      shape input = [N; T; dim self] ->
      shape memory_bank = [N; S_; dim self] ->
      (lengths_fit (Some lens) N S_ -> T = 1 ->
       exists r, p_path self input memory_bank (Some lens) = Ok r) /\
      (forall c ps mask,
          p_path self input memory_bank (Some lens) = Ok (c, ps, mask) ->
          list_max lens = S_ ->
          exists log_scores scores,
            c = softmax log_scores /\
            alpha ps = Some (tmap Val scores) /\
            (0 < exp (-10))%R /\
            forall b t s,
              b < N -> b < length lens -> t < T -> s < S_ ->
              nth b lens 0 <= s ->
              tget 0%R scores [b; t; s] = exp (-10) /\
              tget (Fin 0) log_scores [b; t; s]
              = match scoresF self with
                | Fresh _ => NegInf
                | Same => Fin (exp (-10))
                end)).
Proof.
  intros Hp. split.
  - intros input memory_bank memory_lengths q_scores g out.
    rewrite forward_guard by now rewrite Hp.
    destruct (promote input q_scores) as [[[o i] q'] | e]; cbn [bind];
      [| discriminate].
    destruct (size_checks self i memory_bank); discriminate.
  - intros input memory_bank lens N T S_ Hi Hm. split.
    + intros Hl _. now apply p_path_dirichlet_returns with (N := N) (T := T)
                                                          (S_ := S_).
    + intros c ps mask Hpp HW.
      eapply p_path_dirichlet_inv in Hpp; [| exact Hp].
      destruct Hpp as (sc & m & ls & scs & Hsc & Hmask & -> & -> & Hfill).
      exists ls, scs. split; [reflexivity |]. split; [reflexivity |].
      split; [apply exp_pos |].
      apply score_Ok_inv in Hsc as (b1 & t1 & s1 & d1 & Hs1 & Ht1 & Ssc).
      rewrite Hm in Hs1. injection Hs1 as E1 E2 E3. subst b1 s1 d1.
      rewrite Hi in Ht1. injection Ht1 as E2. subst t1.
      intros b t s Hb Hbl Ht Hs Hle.
      assert (Hout : in_length lens
                       [bcast (length lens) b; bcast (list_max lens) s]
                     = false).
      { rewrite in_length_fit by (rewrite ?HW; assumption).
        now apply Nat.ltb_ge. }
      destruct (scoresF self) as [f |].
      * destruct Hfill as [Hls Hss].
        rewrite (@masked_fill_elem _ (tmap Fin sc) ls lens m NegInf (Fin 0)
                   N T S_ Hmask Hls Ssc) by assumption.
        rewrite (@masked_fill_elem _ (tmap f sc) scs lens m
                   (exp (-10)) 0%R N T S_ Hmask Hss Ssc) by assumption.
        rewrite Hout. split; reflexivity.
      * destruct Hfill as [Hss ->].
        pose proof (masked_fill_shape _ _ _ Hss) as Sscs. rewrite Ssc in Sscs.
        assert (Hv : tget 0%R scs [b; t; s] = exp (-10)).
        { rewrite (@masked_fill_elem _ sc scs lens m (exp (-10)) 0%R
                     N T S_ Hmask Hss Ssc) by assumption.
          now rewrite Hout. }
        split; [exact Hv |].
        unfold tget, tmap. cbn [shape data].
        rewrite (map_nth Fin). f_equal. exact Hv.
Qed.

Lemma dirichlet_arm_masking_witness :
  exists c ps mask log_scores scores,
    p_path (ex_module "dirichlet" "sample") ex_query_seq ex_memory
      (Some [3; 2]) = Ok (c, ps, mask) /\
    c = softmax log_scores /\
    alpha ps = Some (tmap Val scores) /\
    tget 0%R scores [1; 0; 2] = exp (-10) /\
    tget (Fin 0) log_scores [1; 0; 2] = NegInf /\
    (0 < exp (-10))%R.
Proof.
  destruct (proj2 (@dirichlet_arm_masking (ex_module "dirichlet" "sample")
                     eq_refl)
              ex_query_seq ex_memory [3; 2] 2 1 3 eq_refl eq_refl)
    as (Hret & Hmask).
  destruct Hret as [[[c ps] mask] Hr];
    [split; [discriminate | split; left; reflexivity] | reflexivity |].
  destruct (Hmask c ps mask Hr eq_refl)
    as (ls & scores & Hc & Ha & Hpos & Hm).
  exists c, ps, mask, ls, scores. split; [exact Hr |]. split; [exact Hc |].
  split; [exact Ha |].
  destruct (Hm 1 0 2) as [Hs Hl]; simpl; try lia.
  split; [exact Hs |]. split; [exact Hl | exact Hpos].
Defined.

(** ** forward: the two calling conventions *)

(** C4, as stated, fails on a full-sequence call (a query with a time axis
    of length 1, every size agreeing): the call does not return, it fails
    the [assert (False)] of line 390. *)
Lemma forward_full_sequence_fails :
  forward (ex_module "categorical" "sample") ex_query_seq ex_memory
    (Some [3; 2]) (Some (ex_q [2; 1; 3])) ex_rng
  = Raise (AssertionError "False").
Proof. reflexivity. Qed.

(** C4 (amended): a call of [forward] that returns is a one-step call (the
    query has no time axis; no full-sequence call returns), and its results
    have the shapes of the internal tensors at a time axis of length 1 with
    that axis removed: [h_c] is [batch x dim], [c_align_vectors] is
    [batch x source_len], and [h_y] is [K x batch x dim], where [K] is
    [n_samples] when sampling and [source_len] when enumerating. *)
Theorem one_step_shapes (self : VariationalAttention)
    (input memory_bank : tensor R) (memory_lengths : option (list nat))
    (q_scores : option (Params R)) (g : rng) (out : output)
    (batch sourceL d : nat) :
  forward self input memory_bank memory_lengths q_scores g = Ok out ->
  shape memory_bank = [batch; sourceL; d] ->
  rank input = 2 /\
  shape input = [batch; d] /\
  shape (h_c out) = [batch; d] /\
  shape (c_align_vectors out) = [batch; sourceL] /\
  shape (h_y out) =
    [if String.eqb (mode self) "sample" then n_samples self else sourceL;
     batch; d].
Proof.
  intros Hf Hm.
  apply forward_Ok_inv in Hf
    as (input' & q' & b & s & d' & t & c & ps & mask & cc & y & qsm & slp
        & ctx & hy & Hpre & Hsz & Hp & Hpp & Hcc & Hq & Hctx & Hhy & Hres).
  apply size_checks_Ok_inv in Hsz as (Hm' & Hi' & Hd).
  rewrite Hm in Hm'. injection Hm' as <- <- <-.
  apply promote_true_inv in Hpre as (a0 & b0 & Hi & ->).
  simpl in Hi'. injection Hi' as -> <- ->.
  apply one_step_results_Ok_inv in Hres as (Ey & _ & _ & Shc & Sc & _).
  split; [unfold rank; now rewrite Hi |].
  repeat split; try assumption.
  rewrite Ey.
  eapply context_of_shape in Hctx; [| eassumption].
  eapply project_y_shape in Hhy; [| eassumption]. rename Hhy into Shy.
  unfold squeeze. rewrite Shy; simpl. rewrite Hd.
  apply q_path_Ok_inv in Hq
    as [(Hmode & qs & a & l & _ & _ & _ & _ & -> & _) | (Hmode & -> & _)];
    rewrite Hmode; reflexivity.
Qed.

Lemma one_step_shapes_witness :
  exists out,
    forward (ex_module "categorical" "sample") ex_query ex_memory
      (Some [3; 2]) (Some (ex_q [2; 3])) ex_rng = Ok out /\
    shape (h_c out) = [2; 4] /\
    shape (c_align_vectors out) = [2; 3] /\
    shape (h_y out) = [5; 2; 4].
Proof.
  assert (H : exists out,
             forward (ex_module "categorical" "sample") ex_query ex_memory
               (Some [3; 2]) (Some (ex_q [2; 3])) ex_rng = Ok out)
    by (eexists; reflexivity).
  destruct H as [out H]. exists out. split; [exact H |].
  exact (proj2 (proj2 (@one_step_shapes _ _ _ _ _ _ out 2 3 4 H eq_refl))).
Defined.

(** ** forward: the enumerate mode *)

(** The mode that enumerates is spelled "enum"; with [mode = "enumerate"]
    neither arm of lines 315-333 binds [y_align_vectors] and line 342 fails. *)
Lemma forward_mode_enumerate_unbound :
  forward (ex_module "categorical" "enumerate") ex_query ex_memory
    (Some [3; 2]) None ex_rng
  = Raise (UnboundLocalError "y_align_vectors").
Proof. reflexivity. Qed.

(** C8 (amended): a call in the enumerate mode ([mode = "enum"]) that
    returns is a one-step call on a component with a categorical prior, and
    produces exactly [source_len] pseudo-samples: the contexts have shape
    [source_len x batch x 1 x dim], context [s] of example [n] is the
    memory vector [memory_bank[n, s]] itself, with no attention weight, and
    [h_y] is the output projection of these contexts, of shape
    [source_len x batch x dim].  A one-step call with a categorical prior,
    agreeing sizes and lengths that fit does return. *)
Theorem enum_contexts_are_memory_vectors (self : VariationalAttention)
    (input memory_bank : tensor R) (memory_lengths : option (list nat))
    (q_scores : option (Params R)) (g : rng) (N S_ H : nat) :
  mode self = "enum" ->
  shape memory_bank = [N; S_; H] ->
  (forall out,
      forward self input memory_bank memory_lengths q_scores g = Ok out ->
      p_dist_type self = "categorical" /\
      shape input = [N; H] /\
      exists context_y hy,
        shape context_y = [S_; N; 1; H] /\
        (forall s n h, s < S_ -> n < N -> h < H ->
           tget 0%R context_y [s; n; 0; h] = tget 0%R memory_bank [n; s; h]) /\
        project_y self context_y (Tensor [N; 1; H] (data input)) = Ok hy /\
        h_y out = squeeze 2 hy /\
        shape (h_y out) = [S_; N; H]) /\
  (p_dist_type self = "categorical" -> dim self = H ->
   shape input = [N; H] ->
   (exists pre, promote input q_scores = Ok pre) ->
   lengths_fit memory_lengths N S_ ->
   exists out,
     forward self input memory_bank memory_lengths q_scores g = Ok out).
Proof.
  intros Hmode Hm. split.
  - intros out Hf.
    apply forward_Ok_inv in Hf
      as (input' & q' & b & s & d' & t & c & ps & mask & cc & y & qsm & slp
          & ctx & hy & Hpre & Hsz & Hp & Hpp & Hcc & Hq & Hctx & Hhy & Hres).
    apply size_checks_Ok_inv in Hsz as (Hm' & Hi' & Hd).
    rewrite Hm in Hm'. injection Hm' as <- <- <-.
    apply promote_true_inv in Hpre as (a0 & b0 & Hi & ->).
    simpl in Hi'. injection Hi' as -> <- ->.
    apply one_step_results_Ok_inv in Hres as (Ey & _).
    apply q_path_Ok_inv in Hq as [(Hs & _) | (_ & -> & _)];
      [rewrite Hmode in Hs; discriminate |].
    destruct (context_of_enum Hm Hctx) as [Sctx Ectx].
    split; [assumption |]. split; [assumption |].
    exists ctx, hy. split; [assumption |].
    split; [intros s n h Hs Hn Hh; apply Ectx; lia |].
    split; [assumption |]. split; [assumption |].
    rewrite Ey. eapply project_y_shape in Hhy; [| eassumption].
    unfold squeeze. rewrite Hhy; simpl. now rewrite Hd.
  - intros Hp Hd Hi [[[one_step input'] q'] Hpre] Hl.
    destruct (promote_rank _ _ Hpre) as [H2 _].
    destruct H2 as [_ ->]; [unfold rank; now rewrite Hi |].
    eapply forward_enum_returns; eassumption.
Qed.

Lemma enum_contexts_are_memory_vectors_witness :
  exists out,
    forward (ex_module "categorical" "enum") ex_query ex_memory (Some [3; 2])
      None ex_rng = Ok out /\
    shape (h_y out) = [3; 2; 4].
Proof.
  pose proof (@enum_contexts_are_memory_vectors
                (ex_module "categorical" "enum") ex_query ex_memory
                (Some [3; 2]) None ex_rng 2 3 4 eq_refl eq_refl)
    as [Hprop Hret].
  destruct Hret as [out Hout];
    [reflexivity | reflexivity | reflexivity
     | eexists; reflexivity
     | split; [discriminate | split; left; reflexivity] |].
  exists out. split; [exact Hout |].
  destruct (Hprop out Hout) as (_ & _ & ctx & hy & _ & _ & _ & _ & Hs).
  exact Hs.
Defined.

(** C8, as stated, fails on a component built with the constructor's default
    prior: in the enumerate mode the call stops at the assertion of line
    263 and produces no pseudo-sample. *)
Lemma forward_enum_default_prior_fails :
  forward (ex_module "dirichlet" "enum") ex_query ex_memory (Some [3; 2])
    None ex_rng
  = Raise (AssertionError "self.p_dist_type == 'categorical'").
Proof. reflexivity. Qed.

(** ** forward: the deterministic attention weights *)

(** C1, as stated, fails on a batch with an example of valid length 0: the
    example's whole row of scores is masked to [-inf], and the soft-max of
    such a row is NaN at every position: its weights neither sum to 1 nor
    are 0 beyond the valid length. *)
Lemma forward_zero_length_nan :
  exists out,
    forward (ex_module "categorical" "sample") ex_query ex_memory
      (Some [3; 0]) (Some (ex_q [2; 3])) ex_rng = Ok out /\
    tget (Val 0) (c_align_vectors out) [1; 0] = NaN /\
    tget (Val 0) (c_align_vectors out) [1; 1] = NaN /\
    tget (Val 0) (c_align_vectors out) [1; 2] = NaN.
Proof.
  eexists. split; [reflexivity |]. repeat split; reflexivity.
Qed.

Lemma nth_le_list_max (l : list nat) (i : nat) :
  i < length l -> nth i l 0 <= list_max l.
Proof.
  intros Hi.
  assert (H : Forall (fun k => k <= list_max l) l)
    by (apply list_max_le; lia).
  rewrite Forall_forall in H. apply H. now apply nth_In.
Qed.

(** C1 (amended): in a returning call with [memory_lengths] given, take an
    example whose valid length is at least 1.  When the longest of the
    lengths is the source length, the weights [c_align_vectors] of the
    example sum to 1 along the source axis, in exact arithmetic, and are
    exactly 0 at every source position from the valid length on.  When it is
    not, the longest length is 1 and the mask of line 291 is one position
    wide: nothing of the example is masked, and its weights are the
    soft-max of the scores over all source positions. *)
Theorem c_align_vectors_normalised (self : VariationalAttention)
    (input memory_bank : tensor R) (lens : list nat)
    (q_scores : option (Params R)) (g : rng) (out : output)
    (N S_ H b : nat) :
  forward self input memory_bank (Some lens) q_scores g = Ok out ->
  shape memory_bank = [N; S_; H] ->
  b < N -> b < length lens -> 0 < nth b lens 0 ->
  (list_max lens = S_ ->
   gsum S_ (fun s => tget NaN (c_align_vectors out) [b; s]) = Val 1%R /\
   forall s, s < S_ -> nth b lens 0 <= s ->
     tget NaN (c_align_vectors out) [b; s] = Val 0%R) /\
  (list_max lens <> S_ ->
   list_max lens = 1 /\
   exists sc,
     score self (Tensor [N; 1; H] (data input)) memory_bank = Ok sc /\
     forall s, s < S_ ->
       tget NaN (c_align_vectors out) [b; s]
       = Val (Rdiv (exp (tget 0%R sc [b; 0; s]))
                (gsum S_ (fun j => exp (tget 0%R sc [b; 0; j]))))).
Proof.
  intros Hf Hm Hb Hbl Hlen.
  eapply forward_c_align in Hf; [| exact Hm].
  destruct Hf as (sc & x & Hsc & Ssc & Sx & -> & (Hne & HL & HW) & Hx).
  pose proof (nth_le_list_max _ Hbl) as Hle.
  assert (Hb' : bcast (length lens) b = b) by now apply bcast_lt.
  assert (Esq : forall s,
            tget NaN (squeeze 1 (softmax x)) [b; s]
            = tget NaN (softmax x) [b; 0; s])
    by (intros s; exact (proj2 (@squeeze1_elem _ NaN (softmax x) N S_ b s
                                  Sx))).
  split.
  - intros HWS.
    assert (Hx' : forall s, s < S_ ->
              tget NegInf x [b; 0; s]
              = if s <? nth b lens 0 then Fin (tget 0%R sc [b; 0; s])
                else NegInf).
    { intros s Hs. rewrite Hx by assumption.
      rewrite Hb', bcast_lt by lia. reflexivity. }
    assert (H0 : is_fin (tget NegInf x [b; 0; 0]) = true).
    { rewrite Hx' by lia.
      replace (0 <? nth b lens 0) with true
        by (symmetry; now apply Nat.ltb_lt).
      reflexivity. }
    split.
    + rewrite (gsum_ext _ (fun s => tget NaN (softmax x) [b; 0; s]))
        by (intros s _; apply Esq).
      apply softmax_row_sum with (N := N) (T := 1) (j0 := 0);
        (assumption || lia).
    + intros s Hs Hge. rewrite Esq.
      rewrite (@softmax_elem x N 1 S_ b 0 s 0) by (assumption || lia).
      rewrite (Hx' s Hs).
      replace (s <? nth b lens 0) with false
        by (symmetry; apply Nat.ltb_ge; assumption).
      simpl. unfold Rdiv. now rewrite Rmult_0_l.
  - intros HWS. destruct HW as [HW | HW]; [contradiction |].
    split; [assumption |].
    assert (H1 : nth b lens 0 = 1) by lia.
    exists sc. split; [exact Hsc |].
    assert (Hx' : forall j, j < S_ ->
              tget NegInf x [b; 0; j] = Fin (tget 0%R sc [b; 0; j])).
    { intros j Hj. rewrite Hx by assumption. rewrite Hb', HW.
      change (bcast 1 j) with 0. cbn [in_length]. now rewrite H1. }
    intros s Hs. rewrite Esq.
    rewrite (@softmax_elem x N 1 S_ b 0 s s) by
      (assumption || lia || (rewrite Hx' by assumption; reflexivity)).
    rewrite (Hx' s Hs). cbn [xexp]. do 2 f_equal.
    apply gsum_ext. intros j Hj. now rewrite Hx'.
Qed.

Lemma c_align_vectors_normalised_witness :
  exists out,
    forward (ex_module "categorical" "sample") ex_query ex_memory
      (Some [3; 2]) (Some (ex_q [2; 3])) ex_rng = Ok out /\
    gsum 3 (fun s => tget NaN (c_align_vectors out) [1; s]) = Val 1%R /\
    tget NaN (c_align_vectors out) [1; 2] = Val 0%R.
Proof.
  assert (H : exists out,
             forward (ex_module "categorical" "sample") ex_query ex_memory
               (Some [3; 2]) (Some (ex_q [2; 3])) ex_rng = Ok out)
    by (eexists; reflexivity).
  destruct H as [out H]. exists out. split; [exact H |].
  destruct (@c_align_vectors_normalised _ _ _ _ _ _ out 2 3 4 1 H eq_refl)
    as [Hfit _]; simpl; try lia.
  destruct (Hfit eq_refl) as [Hsum Hzero].
  split; [exact Hsum | apply Hzero; simpl; lia].
Defined.

(** ** forward: the posterior samples *)

(** C3, as stated, fails on a posterior with mass on a padded position: the
    second example has valid length 2 and [alpha = (1/4, 1/4, 1/2)], the
    sampler draws position 2, which has positive probability, and the
    returned sample is hot at it. *)
Lemma forward_sample_at_padded_position :
  exists out qo smp a,
    forward (ex_module "categorical" "sample") ex_query ex_memory
      (Some [3; 2]) (Some (ex_q [2; 3])) ex_rng = Ok out /\
    q (dist_info out) = Some qo /\ samples qo = Some smp /\
    tget 0%R smp [0; 1; 2] = 1%R /\
    ~ 2 < nth 1 [3; 2] 0 /\
    alpha (ex_q [2; 3]) = Some a /\ (0 < tget 0 a [1%nat; 2%nat])%R.
Proof.
  do 4 eexists. split; [reflexivity |].
  split; [reflexivity |]. split; [reflexivity |].
  split; [reflexivity |]. split; [simpl; lia |].
  split; [reflexivity |]. unfold tget; simpl. lra.
Qed.

(** The samples a returning call in mode "sample" hands back: the one-hot
    rows at the drawn indices, without the time axis. *)
Lemma forward_samples_value (self : VariationalAttention)
    (input memory_bank : tensor R) (memory_lengths : option (list nat))
    (qs : Params R) (g : rng) (out : output) (a : tensor R) (N S_ : nat) :
  forward self input memory_bank memory_lengths (Some qs) g = Ok out ->
  mode self = "sample" ->
  alpha qs = Some a -> shape a = [N; S_] ->
  exists qo,
    q (dist_info out) = Some qo /\
    samples qo
    = Some (squeeze 2
              (scatter_one_hot [n_samples self; N; 1; S_]
                 (attns_id_of g (n_samples self) N 1))).
Proof.
  intros Hf Hmode Ha Sa.
  apply forward_Ok_inv in Hf
    as (input' & q' & b & s & d' & t & c & ps & mask & cc & y & qsm & slp
        & ctx & hy & Hpre & Hsz & Hp & Hpp & Hcc & Hq & Hctx & Hhy & Hres).
  eapply promote_q_inv in Hpre; [| exact Ha | exact Sa].
  destruct Hpre as [la1 ->].
  apply one_step_results_Ok_inv in Hres as (_ & _ & _ & _ & _ & Eq).
  apply q_path_Ok_inv in Hq
    as [(_ & qs' & at' & l & Eqs & _ & Hd & Hs & _ & -> & ->) | (He & _)];
    [| rewrite Hmode in He; discriminate].
  injection Eqs as <-. cbn [dist_type] in Hd.
  eapply sample_attn_categorical_inv in Hs;
    [| exact Hd | reflexivity | reflexivity].
  destruct Hs as [_ [slp' Hs]]. injection Hs as -> _.
  cbn [option_map] in Eq.
  eexists. split; [exact Eq |]. reflexivity.
Qed.

(** C3 (amended): in a returning call that samples, each sample returned for
    draw [k] and example [n] is the indicator vector of the index drawn for
    that cell: 1 there and 0 at every other source position, one-hot as soon
    as the drawn index is a source position.  [forward] applies no length
    mask on this path: a returning call with any other [memory_lengths]
    hands back the same samples, so the hot index is inside the example's
    valid length only when the draw is. *)
Theorem posterior_samples_one_hot (self : VariationalAttention)
    (input memory_bank : tensor R) (memory_lengths : option (list nat))
    (qs : Params R) (g : rng) (out : output) (a : tensor R) (N S_ : nat) :
  forward self input memory_bank memory_lengths (Some qs) g = Ok out ->
  mode self = "sample" ->
  alpha qs = Some a -> shape a = [N; S_] ->
  exists qo smp,
    q (dist_info out) = Some qo /\ samples qo = Some smp /\
    shape smp = [n_samples self; N; S_] /\
    (forall k n s, k < n_samples self -> n < N -> s < S_ ->
       tget 0%R smp [k; n; s]
       = if s =? categorical_sample g (ravel [n_samples self; N] [k; n])
         then 1%R else 0%R) /\
    (forall memory_lengths' out',
        forward self input memory_bank memory_lengths' (Some qs) g = Ok out' ->
        exists qo', q (dist_info out') = Some qo' /\ samples qo' = Some smp).
Proof.
  intros Hf Hmode Ha Sa.
  destruct (@forward_samples_value _ _ _ _ _ _ _ _ _ _ Hf Hmode Ha Sa)
    as (qo & Hq & Hs).
  eexists; eexists. split; [exact Hq |]. split; [exact Hs |].
  set (K := n_samples self).
  set (ids := attns_id_of g K N 1).
  assert (Ssc : shape (scatter_one_hot [K; N; 1; S_] ids) = [K; N; 1; S_])
    by reflexivity.
  split; [exact (proj1 (@squeeze2_elem _ 0%R _ K N S_ 0 0 0 Ssc)) |].
  split.
  - intros k n s0 Hk Hn Hs0.
    rewrite (proj2 (@squeeze2_elem _ 0%R _ K N S_ k n s0 Ssc)).
    rewrite scatter_one_hot_elem by (assumption || lia).
    unfold ids. rewrite attns_id_elem by (assumption || lia).
    replace (ravel [K; N; 1] [k; n; 0]) with (ravel [K; N] [k; n])
      by (simpl; lia).
    reflexivity.
  - intros lens' out' Hf'.
    destruct (@forward_samples_value _ _ _ _ _ _ _ _ _ _ Hf' Hmode Ha Sa)
      as (qo' & Hq' & Hs').
    exists qo'. split; assumption.
Qed.

Lemma posterior_samples_one_hot_witness :
  exists out qo smp,
    forward (ex_module "categorical" "sample") ex_query ex_memory
      (Some [3; 2]) (Some (ex_q [2; 3])) ex_rng = Ok out /\
    q (dist_info out) = Some qo /\ samples qo = Some smp /\
    tget 0%R smp [4; 1; 2] = 1%R /\ tget 0%R smp [4; 1; 0] = 0%R.
Proof.
  assert (H : exists out,
             forward (ex_module "categorical" "sample") ex_query ex_memory
               (Some [3; 2]) (Some (ex_q [2; 3])) ex_rng = Ok out)
    by (eexists; reflexivity).
  destruct H as [out H].
  destruct (@posterior_samples_one_hot _ _ _ _ _ _ out _ 2 3
              H eq_refl eq_refl eq_refl)
    as (qo & smp & Hq & Hs & _ & Hhot & _).
  exists out, qo, smp. split; [exact H |].
  split; [exact Hq |]. split; [exact Hs |].
  split.
  - exact (Hhot 4 1 2 ltac:(simpl; lia) ltac:(lia) ltac:(lia)).
  - exact (Hhot 4 1 0 ltac:(simpl; lia) ltac:(lia) ltac:(lia)).
Defined.

(** * Further properties

    The properties below cover the parts of the module the sections above
    leave out: the values [score] computes, [get_raw_scores], the Dirichlet
    arm of [sample_attn], and the stages of [forward] around the sampling
    dispatch. *)

Lemma tget_reshape {A} (d : A) (x : tensor A) (sh idx sh' idx' : list nat) :
  shape x = sh -> ravel sh' idx' = ravel sh idx ->
  tget d (Tensor sh' (data x)) idx' = tget d x idx.
Proof. unfold tget. cbn [shape data]. now intros -> ->. Qed.

(** ** [score] *)

(** The explicit value of [score] on agreeing sizes. *)
Lemma score_value (self : VariationalAttention) (h_t h_s : tensor R)
    (N T S_ : nat) :
  shape h_t = [N; T; dim self] -> shape h_s = [N; S_; dim self] ->
  score self h_t h_s =
  Ok (tgen [N; T; S_] (fun idx =>
        match idx with
        | [i; j; k] =>
            gsum (dim self) (fun l =>
              mul (tget zero
                     (Tensor [N; T; dim self]
                        (data (linear (linear_in self)
                                 (Tensor [N * T; dim self] (data h_t)))))
                     [i; j; l])
                  (tget zero (transpose12 0%R h_s) [i; l; k]))
        | _ => zero
        end)).
Proof.
  intros Ht Hs. unfold score. rewrite Hs, Ht.
  rewrite !aeq_refl. cbn [bind].
  rewrite view_ok by (rewrite Ht; simpl; lia). cbn [bind].
  rewrite view_ok by (simpl; lia). cbn [bind].
  unfold bmm. cbn [shape]. unfold transpose12 at 1. rewrite Hs.
  cbn [shape tgen]. rewrite !Nat.eqb_refl. cbn [andb]. reflexivity.
Qed.

(** One output feature of a bias-free layer on a matrix of rows. *)
Lemma linear_elem (l : Linear) (x : tensor R) (rows d r o : nat) :
  shape x = [rows; d] -> r < rows -> o < out_features l ->
  shape (linear l x) = [rows; out_features l] /\
  tget 0%R (linear l x) [r; o]
  = gsum (in_features l) (fun j =>
      (tget 0%R x [r; j] * nth (o * in_features l + j) (weight l) 0)%R).
Proof.
  intros Hx Hr Ho. unfold linear. rewrite Hx. cbn [removelast app].
  split; [reflexivity |].
  rewrite tget_tgen by in_bounds. reflexivity.
Qed.

(** X1: on a query of size [N x T x dim] and a memory bank of size
    [N x S x dim], [score] returns a tensor of size [N x T x S] whose entry
    [(b, t, s)] is the bilinear form of Luong's "general" score: the query
    vector through [linear_in], dotted with the memory vector. *)
Theorem score_is_general_score (self : VariationalAttention)
    (h_t h_s sc : tensor R) (N T S_ : nat) :
  shape h_t = [N; T; dim self] -> shape h_s = [N; S_; dim self] ->
  score self h_t h_s = Ok sc ->
  shape sc = [N; T; S_] /\
  forall b t s, b < N -> t < T -> s < S_ ->
    tget 0%R sc [b; t; s]
    = gsum (dim self) (fun h =>
        (gsum (dim self) (fun j =>
           (tget 0%R h_t [b; t; j]
            * nth (h * dim self + j) (linear_in_weight self) 0)%R)
         * tget 0%R h_s [b; s; h])%R).
Proof.
  intros Ht Hs Hsc. rewrite (score_value self h_t h_s Ht Hs) in Hsc.
  injection Hsc as <-. split; [reflexivity |].
  intros b t s Hb Hbt Hss.
  rewrite tget_tgen by in_bounds.
  apply gsum_ext. intros h Hh.
  cbv [mul zero Num_R]. f_equal.
  - set (x := Tensor [N * T; dim self] (data h_t)).
    destruct (@linear_elem (linear_in self) x (N * T) (dim self)
                (b * T + t) h eq_refl) as [Sl El]; [nia | assumption |].
    match goal with
    | |- _ = ?rhs =>
        change (tget 0%R (Tensor [N; T; dim self]
                            (data (linear (linear_in self) x))) [b; t; h]
                = rhs)
    end.
    rewrite (@tget_reshape _ 0%R (linear (linear_in self) x)
               [N * T; dim self] [b * T + t; h] [N; T; dim self] [b; t; h]
               Sl) by (simpl; lia).
    rewrite El. cbv [linear_in in_features weight].
    apply gsum_ext. intros j Hj. f_equal.
    unfold x.
    apply (@tget_reshape _ 0%R h_t [N; T; dim self] [b; t; j]
             [N * T; dim self] [b * T + t; j] Ht).
    simpl; lia.
  - unfold transpose12. rewrite Hs. now rewrite tget_tgen by in_bounds.
Qed.

Lemma score_is_general_score_witness :
  exists sc,
    score (ex_module "categorical" "sample") ex_query_seq ex_memory = Ok sc /\
    shape sc = [2; 1; 3].
Proof.
  destruct (score_returns (ex_module "categorical" "sample") ex_query_seq
              ex_memory (N := 2) (T := 1) (S_ := 3) eq_refl eq_refl)
    as (sc & Hsc & _).
  exists sc. split; [exact Hsc |].
  exact (proj1 (@score_is_general_score (ex_module "categorical" "sample")
                  ex_query_seq ex_memory sc 2 1 3 eq_refl eq_refl Hsc)).
Defined.

(** X2: a returning [score] was given a rank-3 query and a rank-3 memory
    bank that agree on the batch size and whose feature size is
    [self.dim].  A memory bank of another rank fails the unpacking of its
    size; with a rank-3 memory bank, a query of another rank fails the
    unpacking of its own; two rank-3 arguments that disagree on the batch
    size or on the feature size, or whose feature size is not [self.dim],
    fail an [aeq].  A one-step query, of size [N x 1 x dim], with a memory
    bank of size [N x S x dim] makes [score] return. *)
Theorem score_returns_iff (self : VariationalAttention) (h_t h_s : tensor R) :
  (forall sc, score self h_t h_s = Ok sc ->
     exists N T S_,
       shape h_t = [N; T; dim self] /\ shape h_s = [N; S_; dim self]) /\
  (length (shape h_s) <> 3 ->
     score self h_t h_s = Raise (ValueError "unpack h_s.size()")) /\
  (length (shape h_s) = 3 -> length (shape h_t) <> 3 ->
     score self h_t h_s = Raise (ValueError "unpack h_t.size()")) /\
  (forall N S_ D N' T D',
     shape h_s = [N; S_; D] -> shape h_t = [N'; T; D'] ->
     N <> N' \/ D <> D' \/ dim self <> D ->
     score self h_t h_s = Raise (AssertionError "aeq")) /\
  (forall N S_,
     shape h_t = [N; 1; dim self] -> shape h_s = [N; S_; dim self] ->
     exists sc, score self h_t h_s = Ok sc /\ shape sc = [N; 1; S_]).
Proof.
  repeat split.
  - intros sc H. unfold score in H.
    destruct (shape h_s) as [| b [| s [| d [| ? ?]]]]; try discriminate.
    destruct (shape h_t) as [| b' [| t [| d' [| ? ?]]]]; try discriminate.
    apply bind_Ok_inv in H as (u1 & H1 & H). apply aeq_Ok_inv in H1.
    apply bind_Ok_inv in H as (u2 & H2 & H). apply aeq_Ok_inv in H2.
    apply bind_Ok_inv in H as (u3 & H3 & _). apply aeq_Ok_inv in H3.
    subst b' d'. exists b, t, s. now rewrite H3.
  - intros Hs. unfold score.
    destruct (shape h_s) as [| b [| s [| d [| ? ?]]]];
      try reflexivity. now contradiction Hs.
  - intros Hs Ht. unfold score.
    destruct (shape h_s) as [| b [| s [| d [| ? ?]]]]; try discriminate Hs.
    destruct (shape h_t) as [| b' [| t [| d' [| ? ?]]]];
      try reflexivity. now contradiction Ht.
  - intros N S_ D N' T D' Hs Ht Hne. unfold score, aeq, py_assert.
    rewrite Hs, Ht.
    destruct (N =? N') eqn:E1; cbn [bind]; [| reflexivity].
    destruct (D =? D') eqn:E2; cbn [bind]; [| reflexivity].
    destruct (dim self =? D) eqn:E3; cbn [bind]; [| reflexivity].
    apply Nat.eqb_eq in E1, E2, E3. lia.
  - intros N S_ Ht Hs. exact (score_returns self h_t h_s Ht Hs).
Qed.

(** ** [get_raw_scores] *)

Lemma nn_Softplus_nonneg (x : R) : (0 <= nn_Softplus x)%R.
Proof.
  unfold nn_Softplus. destruct (Rlt_dec 20 x) as [Hx | Hx]; [lra |].
  rewrite <- ln_1. left. apply ln_increasing; [lra |].
  pose proof (exp_pos x). lra.
Qed.

Lemma linear_b_shape (l : LinearB) (x : tensor R) :
  shape (linear_b l x) = (removelast (shape x) ++ [out_features (lin l)])%list.
Proof. reflexivity. Qed.

Lemma linear_b_data_length (l : LinearB) (x : tensor R) :
  length (data (linear_b l x)) = numel (shape (linear_b l x)).
Proof. unfold linear_b, tgen. cbn [data shape]. apply tab_length. Qed.

(** No entry of a soft-plus layer's output, read through any view of it, is
    negative. *)
Lemma softplus_layer_nonneg (l : LinearB) (x : tensor R) (sh idx : list nat) :
  numel sh = numel (shape (tmap nn_Softplus (linear_b l x))) ->
  Forall2 lt idx sh ->
  (0 <= tget 0%R (Tensor sh (data (tmap nn_Softplus (linear_b l x)))) idx)%R.
Proof.
  intros Hn Hi. unfold tget. cbn [shape data tmap] in *.
  pose proof (ravel_lt Hi) as Hr. rewrite Hn in Hr.
  rewrite <- linear_b_data_length in Hr.
  rewrite (nth_indep _ 0%R (nn_Softplus 0%R)) by now rewrite length_map.
  rewrite map_nth. apply nn_Softplus_nonneg.
Qed.

Lemma dense_ext (l : LinearB) (v v' : nat -> R) (o : nat) :
  (forall j, j < in_features (lin l) -> v j = v' j) ->
  dense l v o = dense l v' o.
Proof.
  intros Hv. unfold dense. do 2 f_equal.
  apply gsum_ext. intros j Hj. now rewrite Hv.
Qed.

Lemma softplus_layer_elem (l : LinearB) (x : tensor R) (rows d r o : nat) :
  shape x = [rows; d] -> r < rows -> o < out_features (lin l) ->
  shape (tmap nn_Softplus (linear_b l x)) = [rows; out_features (lin l)] /\
  tget 0%R (tmap nn_Softplus (linear_b l x)) [r; o]
  = dense l (fun j => tget 0%R x [r; j]) o.
Proof.
  intros Hx Hr Ho.
  destruct (linear_elem (lin l) x Hx Hr Ho) as [Sl El].
  split; [cbn [tmap shape]; now rewrite linear_b_shape, Hx |].
  unfold linear_b. rewrite Sl.
  rewrite tget_tmap_tgen by in_bounds.
  cbn [last]. rewrite El. reflexivity.
Qed.

(** What a returning call of [get_raw_scores] went through. *)
Lemma get_raw_scores_Ok_inv (self : VariationalAttention)
    (layers : option LogNormalLayers) (h_t h_s h_mean h_var : tensor R) :
  get_raw_scores self layers h_t h_s = Ok (h_mean, h_var) ->
  exists N T S_ l h_fold h_enc,
    shape h_t = [N; T; dim self] /\ shape h_s = [N; S_; dim self] /\
    0 < dim self /\ layers = Some l /\
    h_enc = tmap nn_Softplus
              (linear_b (linear_2 l)
                 (tmap nn_Softplus (linear_b (linear_1 l) h_fold))) /\
    view [N; T; S_] (tmap nn_Softplus (linear_b (mean_out l) h_enc))
      = Ok h_mean /\
    view [N; T; S_] (tmap nn_Softplus (linear_b (var_out l) h_enc))
      = Ok h_var.
Proof.
  unfold get_raw_scores. intros H.
  destruct (shape h_s) as [| b [| s [| d [| ? ?]]]]; try discriminate.
  destruct (shape h_t) as [| b' [| t [| d' [| ? ?]]]]; try discriminate.
  apply bind_Ok_inv in H as (u1 & H1 & H). apply aeq_Ok_inv in H1.
  apply bind_Ok_inv in H as (u2 & H2 & H). apply aeq_Ok_inv in H2.
  apply bind_Ok_inv in H as (u3 & H3 & H). apply aeq_Ok_inv in H3.
  subst b' d' d.
  apply bind_Ok_inv in H as (h_t2 & _ & H).
  apply bind_Ok_inv in H as (h_te & _ & H).
  apply bind_Ok_inv in H as (h_s1 & _ & H).
  apply bind_Ok_inv in H as (h_se & _ & H).
  apply bind_Ok_inv in H as (h_fold & Hv & H).
  destruct layers as [l |]; [| discriminate].
  apply bind_Ok_inv in H as (hm & Hm & H).
  apply bind_Ok_inv in H as (hv & Hvv & H).
  apply Ok_inj in H. injection H as -> ->.
  exists b, t, s, l, h_fold. eexists.
  repeat split; try reflexivity; try eassumption.
  unfold view_infer in Hv. cbn [numel fold_right] in Hv.
  destruct (dim self) as [| d]; [discriminate | lia].
Qed.

(** The rows [get_raw_scores] feeds to the layers: one per (query, source)
    pair, the query's features followed by the source's. *)
Lemma get_raw_scores_pairs (self : VariationalAttention)
    (layers : option LogNormalLayers) (h_t h_s : tensor R) (N T S_ : nat) :
  shape h_t = [N; T; dim self] -> shape h_s = [N; S_; dim self] ->
  0 < dim self ->
  exists h_fold,
    shape h_fold = [N * T * S_; dim self + dim self] /\
    (forall n t s j, n < N -> t < T -> s < S_ -> j < dim self + dim self ->
       tget 0%R h_fold [(n * T + t) * S_ + s; j]
       = if j <? dim self then tget 0%R h_t [n; t; j]
         else tget 0%R h_s [n; s; j - dim self]) /\
    get_raw_scores self layers h_t h_s =
    match layers with
    | None =>
        Raise (AttributeError
                 "'VariationalAttention' object has no attribute 'softplus'")
    | Some l =>
        let h_enc := tmap nn_Softplus (linear_b (linear_1 l) h_fold) in
        let h_enc := tmap nn_Softplus (linear_b (linear_2 l) h_enc) in
        let h_mean := tmap nn_Softplus (linear_b (mean_out l) h_enc) in
        let h_var := tmap nn_Softplus (linear_b (var_out l) h_enc) in
        h_mean <- view [N; T; S_] h_mean ;;
        h_var <- view [N; T; S_] h_var ;;
        Ok (h_mean, h_var)
    end.
Proof.
  intros Ht Hs Hd.
  exists (Tensor [N * T * S_; dim self + dim self]
            (data (cat_last 0%R
               (tgen [N; T; S_; dim self] (fun idx =>
                  nth (ravel [N; T; 1; dim self]
                         (bcast_idx [N; T; 1; dim self] idx))
                    (data h_t) 0%R))
               (tgen [N; T; S_; dim self] (fun idx =>
                  nth (ravel [N; 1; S_; dim self]
                         (bcast_idx [N; 1; S_; dim self] idx))
                    (data h_s) 0%R))))).
  split; [reflexivity |]. split.
  - intros n t s j Hn Htt Hss Hj.
    match goal with
    | |- tget _ (Tensor _ (data ?c)) _ = _ =>
        rewrite (@tget_reshape _ 0%R c
                   [N; T; S_; dim self + dim self] [n; t; s; j]
                   [N * T * S_; dim self + dim self]
                   [(n * T + t) * S_ + s; j] eq_refl)
          by (simpl; nia)
    end.
    unfold cat_last. cbn [shape tgen removelast last app].
    rewrite tget_tgen by in_bounds. cbn [removelast last app].
    destruct (j <? dim self) eqn:E.
    + apply Nat.ltb_lt in E. rewrite tget_tgen by in_bounds.
      cbn [bcast_idx]. rewrite (bcast_lt Hn), (bcast_lt Htt), (bcast_lt E).
      unfold tget. rewrite Ht. f_equal. unfold bcast. simpl. lia.
    + apply Nat.ltb_ge in E. rewrite tget_tgen by in_bounds.
      cbn [bcast_idx]. rewrite (bcast_lt Hn), (bcast_lt Hss).
      rewrite (@bcast_lt (dim self) (j - dim self)) by lia.
      unfold tget. rewrite Hs. f_equal. unfold bcast. simpl. lia.
  - unfold get_raw_scores. rewrite Hs, Ht.
    rewrite !aeq_refl. cbn [bind].
    unfold unsqueeze, rank. rewrite Ht, Hs.
    cbn [length Nat.leb firstn skipn app bind].
    unfold expand.
    cbn [rank shape length Nat.leb Nat.sub repeat app bcast_all_ok].
    rewrite !bcast_ok_refl, !bcast_ok_one. cbn [andb bind].
    match goal with
    | |- context [view_infer ?sh ?t] =>
        rewrite (@view_infer_ok _ sh t (N * T * S_)) by (simpl; nia)
    end.
    cbn [bind]. reflexivity.
Qed.

(** X3: on a component built with [p_dist_type = "log_normal"], a query of
    size [N x T x dim] and a memory bank of size [N x S x dim] with
    [dim > 0], [get_raw_scores] returns two tensors whose entry [(n, t, s)]
    is the three-layer soft-plus network applied to the query vector
    [(n, t)] followed by the memory vector [(n, s)]: each score depends on
    its own (query, source) pair only. *)
Theorem get_raw_scores_pairwise (self : VariationalAttention)
    (w : LogNormalInit) (l : LogNormalLayers) (h_t h_s : tensor R)
    (N T S_ : nat) :
  init_log_normal self w = Some l ->
  shape h_t = [N; T; dim self] -> shape h_s = [N; S_; dim self] ->
  0 < dim self ->
  exists h_mean h_var,
    get_raw_scores self (Some l) h_t h_s = Ok (h_mean, h_var) /\
    forall n t s, n < N -> t < T -> s < S_ ->
      let pair := fun j =>
        if j <? dim self then tget 0%R h_t [n; t; j]
        else tget 0%R h_s [n; s; j - dim self] in
      let enc := dense (linear_2 l) (dense (linear_1 l) pair) in
      tget 0%R h_mean [n; t; s] = dense (mean_out l) enc 0 /\
      tget 0%R h_var [n; t; s] = dense (var_out l) enc 0.
Proof.
  intros Hl Ht Hs Hd.
  destruct (get_raw_scores_pairs self (Some l) h_t h_s Ht Hs Hd)
    as (h_fold & Sf & Ef & ->).
  unfold init_log_normal in Hl.
  destruct (String.eqb (p_dist_type self) "log_normal"); [| discriminate].
  injection Hl as <-. cbv zeta. cbn [linear_1 linear_2 mean_out var_out].
  set (l1 := nn_LinearB (nn_Linear (dim self + dim self) 100 (w_1 w)) (b_1 w)).
  set (l2 := nn_LinearB (nn_Linear 100 100 (w_2 w)) (b_2 w)).
  set (lm := nn_LinearB (nn_Linear 100 1 (w_mean w)) (b_mean w)).
  set (lv := nn_LinearB (nn_Linear 100 1 (w_var w)) (b_var w)).
  set (h1 := tmap nn_Softplus (linear_b l1 h_fold)).
  set (h2 := tmap nn_Softplus (linear_b l2 h1)).
  assert (S1 : shape h1 = [N * T * S_; 100])
    by (unfold h1; cbn [tmap shape]; now rewrite linear_b_shape, Sf).
  assert (S2 : shape h2 = [N * T * S_; 100])
    by (unfold h2; cbn [tmap shape]; now rewrite linear_b_shape, S1).
  assert (Sout : forall lo, out_features (lin lo) = 1 ->
            shape (tmap nn_Softplus (linear_b lo h2)) = [N * T * S_; 1]).
  { intros lo Ho. cbn [tmap shape]. now rewrite linear_b_shape, S2, Ho. }
  rewrite !view_ok by (rewrite Sout by reflexivity; simpl; lia).
  cbn [bind]. eexists _, _. split; [reflexivity |].
  intros n t s Hn Htt Hss.
  set (enc := dense l2 (dense l1 (fun j =>
                if j <? dim self then tget 0%R h_t [n; t; j]
                else tget 0%R h_s [n; s; j - dim self]))).
  assert (Hr : (n * T + t) * S_ + s < N * T * S_).
  { assert (H1 : n * T + t + 1 <= N * T) by nia.
    apply (Nat.mul_le_mono_r _ _ S_) in H1. lia. }
  assert (Henc : forall j, j < 100 ->
            tget 0%R h2 [(n * T + t) * S_ + s; j] = enc j).
  { intros j Hj. unfold h2, enc.
    destruct (@softplus_layer_elem l2 h1 (N * T * S_) 100
                ((n * T + t) * S_ + s) j S1 Hr Hj) as [_ ->].
    apply dense_ext. intros j1 Hj1. unfold h1.
    destruct (@softplus_layer_elem l1 h_fold (N * T * S_)
                (dim self + dim self) ((n * T + t) * S_ + s) j1 Sf Hr Hj1)
      as [_ ->].
    apply dense_ext. intros j0 Hj0. now apply Ef. }
  assert (Hout : forall lo, out_features (lin lo) = 1 ->
            in_features (lin lo) = 100 ->
            tget 0%R (Tensor [N; T; S_]
                        (data (tmap nn_Softplus (linear_b lo h2)))) [n; t; s]
            = dense lo enc 0).
  { intros lo Ho Hin.
    rewrite (@tget_reshape _ 0%R (tmap nn_Softplus (linear_b lo h2))
               [N * T * S_; 1] [(n * T + t) * S_ + s; 0] [N; T; S_] [n; t; s]
               (Sout lo Ho)) by (simpl; lia).
    destruct (@softplus_layer_elem lo h2 (N * T * S_) 100
                ((n * T + t) * S_ + s) 0 S2 Hr) as [_ ->]; [lia |].
    apply dense_ext. intros j Hj. apply Henc. lia. }
  split; apply Hout; reflexivity.
Qed.

Lemma get_raw_scores_pairwise_witness :
  exists h_mean h_var,
    get_raw_scores (ex_module "log_normal" "sample")
      (init_log_normal (ex_module "log_normal" "sample") ex_log_normal_init)
      ex_query_seq ex_memory = Ok (h_mean, h_var) /\
    let l1 := nn_LinearB (nn_Linear 8 100 (w_1 ex_log_normal_init))
                (b_1 ex_log_normal_init) in
    let l2 := nn_LinearB (nn_Linear 100 100 (w_2 ex_log_normal_init))
                (b_2 ex_log_normal_init) in
    let lm := nn_LinearB (nn_Linear 100 1 (w_mean ex_log_normal_init))
                (b_mean ex_log_normal_init) in
    tget 0%R h_mean [1; 0; 2]
    = dense lm
        (dense l2
           (dense l1 (fun j =>
              if j <? 4 then tget 0%R ex_query_seq [1; 0; j]
              else tget 0%R ex_memory [1; 2; j - 4]))) 0.
Proof.
  destruct (@get_raw_scores_pairwise (ex_module "log_normal" "sample")
              ex_log_normal_init _ ex_query_seq ex_memory 2 1 3
              eq_refl eq_refl eq_refl ltac:(simpl; lia))
    as (h_mean & h_var & Hr & He).
  exists h_mean, h_var. split; [exact Hr |].
  exact (proj1 (He 1 0 2 ltac:(lia) ltac:(lia) ltac:(lia))).
Defined.

(** X4: whenever [get_raw_scores] returns, the query and the memory bank
    have sizes [N x T x dim] and [N x S x dim], both results have size
    [N x T x S], and no entry of either is negative. *)
Theorem get_raw_scores_positive (self : VariationalAttention)
    (layers : option LogNormalLayers) (h_t h_s h_mean h_var : tensor R) :
  get_raw_scores self layers h_t h_s = Ok (h_mean, h_var) ->
  exists N T S_,
    shape h_t = [N; T; dim self] /\ shape h_s = [N; S_; dim self] /\
    shape h_mean = [N; T; S_] /\ shape h_var = [N; T; S_] /\
    forall n t s, n < N -> t < T -> s < S_ ->
      (0 <= tget 0%R h_mean [n; t; s])%R /\
      (0 <= tget 0%R h_var [n; t; s])%R.
Proof.
  intros H.
  apply get_raw_scores_Ok_inv in H
    as (N & T & S_ & l & h_fold & h_enc & Ht & Hs & _ & _ & _ & Hm & Hv).
  apply view_Ok_inv in Hm as [-> Nm]. apply view_Ok_inv in Hv as [-> Nv].
  exists N, T, S_. repeat split; try assumption.
  - apply softplus_layer_nonneg; [exact Nm | in_bounds].
  - apply softplus_layer_nonneg; [exact Nv | in_bounds].
Qed.

Lemma get_raw_scores_positive_witness :
  exists h_mean h_var,
    get_raw_scores (ex_module "log_normal" "sample")
      (init_log_normal (ex_module "log_normal" "sample") ex_log_normal_init)
      ex_query_seq ex_memory = Ok (h_mean, h_var) /\
    shape h_mean = [2; 1; 3] /\
    Rle 0 (tget 0%R h_mean [1; 0; 2]) /\ Rle 0 (tget 0%R h_var [1; 0; 2]).
Proof.
  assert (H : exists r,
             get_raw_scores (ex_module "log_normal" "sample")
               (init_log_normal (ex_module "log_normal" "sample")
                  ex_log_normal_init)
               ex_query_seq ex_memory = Ok r)
    by (eexists; reflexivity).
  destruct H as [[h_mean h_var] H].
  destruct (get_raw_scores_positive _ _ _ _ H)
    as (N & T & S_ & Ht & Hs & Sm & _ & Hpos).
  injection Ht as <- <-. injection Hs as <-.
  exists h_mean, h_var. split; [exact H |]. split; [exact Sm |].
  apply Hpos; lia.
Defined.

(** X5: with the layers [__init__] builds, [get_raw_scores] returns exactly
    when the component was built with [p_dist_type = "log_normal"], [dim] is
    positive and the two arguments have sizes [N x T x dim] and
    [N x S x dim]; on any other component a call with such arguments fails
    on the missing attribute [softplus]. *)
Theorem get_raw_scores_returns_iff (self : VariationalAttention)
    (w : LogNormalInit) (h_t h_s : tensor R) :
  ((exists r, get_raw_scores self (init_log_normal self w) h_t h_s = Ok r) <->
   (p_dist_type self = "log_normal" /\ 0 < dim self /\
    exists N T S_,
      shape h_t = [N; T; dim self] /\ shape h_s = [N; S_; dim self])) /\
  (forall N T S_,
      p_dist_type self <> "log_normal" -> 0 < dim self ->
      shape h_t = [N; T; dim self] -> shape h_s = [N; S_; dim self] ->
      get_raw_scores self (init_log_normal self w) h_t h_s
      = Raise (AttributeError
                 "'VariationalAttention' object has no attribute 'softplus'")).
Proof.
  split; [split |].
  - intros [[h_mean h_var] H].
    apply get_raw_scores_Ok_inv in H
      as (N & T & S_ & l & h_fold & h_enc & Ht & Hs & Hd & Hl & _).
    split; [| split; [exact Hd | eauto]].
    unfold init_log_normal in Hl.
    destruct (String.eqb (p_dist_type self) "log_normal") eqn:E;
      [now apply String.eqb_eq | discriminate].
  - intros (Hp & Hd & N & T & S_ & Ht & Hs).
    destruct (get_raw_scores_pairs self (init_log_normal self w) h_t h_s
                Ht Hs Hd) as (h_fold & Sf & _ & ->).
    unfold init_log_normal. rewrite Hp. simpl String.eqb. cbv iota.
    cbv zeta. cbn [linear_1 linear_2 mean_out var_out].
    assert (Hn : forall l1 l2 : LinearB,
              out_features (lin l1) = 1 ->
              numel [N; T; S_]
              = numel (shape (tmap nn_Softplus
                  (linear_b l1 (tmap nn_Softplus
                     (linear_b l2 (tmap nn_Softplus
                        (linear_b (nn_LinearB
                           (nn_Linear (dim self + dim self) 100 (w_1 w))
                           (b_1 w)) h_fold)))))))).
    { intros l1 l2 Ho. cbn [tmap shape]. rewrite linear_b_shape.
      cbn [tmap shape]. rewrite linear_b_shape.
      cbn [tmap shape]. rewrite linear_b_shape. rewrite Sf, Ho.
      simpl. lia. }
    rewrite !view_ok by (apply Hn; reflexivity).
    cbn [bind]. eauto.
  - intros N T S_ Hp Hd Ht Hs.
    destruct (get_raw_scores_pairs self (init_log_normal self w) h_t h_s
                Ht Hs Hd) as (h_fold & _ & _ & ->).
    unfold init_log_normal. apply String.eqb_neq in Hp. now rewrite Hp.
Qed.

(** ** [sample_attn] *)



(** X7: [sample_attn] returns only on the Dirichlet and the categorical
    arm, and only for parameters whose [alpha] has three leading sizes
    [N], [T], [S] and [N * T * S] elements; the Dirichlet arm needs the mask
    and returns the samples alone, the categorical arm needs [log_alpha]
    and returns the samples with their log-probabilities; the samples have
    size [K x N x T x S]. *)
Theorem sample_attn_Ok_inv (params : Params R) (K : nat)
    (lengths : option (list nat)) (mask : option (tensor bool)) (g : rng)
    (r : sample_out) :
  sample_attn params K lengths mask g = Ok r ->
  exists a N T S_ rest,
    alpha params = Some a /\ shape a = (N :: T :: S_ :: rest)%list /\
    numel (shape a) = N * T * S_ /\
    ((dist_type params = "dirichlet" /\
      exists m attns,
        mask = Some m /\ r = Attns attns /\ shape attns = [K; N; T; S_]) \/
     (dist_type params = "categorical" /\
      exists la attns slp,
        log_alpha params = Some la /\ r = AttnsLogProbs attns slp /\
        shape attns = [K; N; T; S_])).
Proof.
  unfold sample_attn. intros H.
  destruct (String.eqb (dist_type params) "dirichlet") eqn:Ed.
  - apply String.eqb_eq in Ed.
    destruct (alpha params) as [a |]; [| discriminate].
    apply bind_Ok_inv in H as ([[N T] S_] & Hsz & H).
    unfold size012 in Hsz.
    destruct (shape a) as [| N' [| T' [| S' rest]]] eqn:Sa; try discriminate.
    apply Ok_inj in Hsz. injection Hsz as -> -> ->.
    apply bind_Ok_inv in H as (v & Hv & H).
    apply view_Ok_inv in Hv as [_ Hv]. rewrite Sa in Hv.
    destruct mask as [m |]; [| discriminate].
    apply bind_Ok_inv in H as (m0 & _ & H).
    apply bind_Ok_inv in H as (attns & Hf & H).
    apply Ok_inj in H. subst r.
    apply masked_fill_shape in Hf. cbn [shape] in Hf.
    exists a, N, T, S_, rest. split; [reflexivity |]. split; [exact Sa |].
    split; [rewrite Sa, <- Hv; simpl; lia |].
    left. split; [exact Ed |]. exists m, attns. auto.
  - destruct (String.eqb (dist_type params) "categorical") eqn:Ec.
    + apply String.eqb_eq in Ec.
      destruct (alpha params) as [a |]; [| discriminate].
      apply bind_Ok_inv in H as ([[N T] S_] & Hsz & H).
      unfold size012 in Hsz.
      destruct (shape a) as [| N' [| T' [| S' rest]]] eqn:Sa;
        try discriminate.
      apply Ok_inj in Hsz. injection Hsz as -> -> ->.
      apply bind_Ok_inv in H as (v & Hv & H).
      apply view_Ok_inv in Hv as [_ Hv]. rewrite Sa in Hv.
      apply bind_Ok_inv in H as (ids & _ & H).
      destruct (log_alpha params) as [la |]; [| discriminate].
      apply bind_Ok_inv in H as (la0 & _ & H).
      apply bind_Ok_inv in H as (la4 & _ & H).
      apply Ok_inj in H. subst r.
      exists a, N, T, S_, rest. split; [reflexivity |]. split; [exact Sa |].
      split; [rewrite Sa, <- Hv; simpl; lia |].
      right. split; [exact Ec |]. eexists la, _, _.
      split; [reflexivity |]. split; reflexivity.
    + destruct (String.eqb (dist_type params) "none"); discriminate.
Qed.

Lemma sample_attn_Ok_inv_witness :
  exists attns slp,
    sample_attn (ex_q [2; 1; 3]) 5 None None ex_rng
    = Ok (AttnsLogProbs attns slp) /\
    shape attns = [5; 2; 1; 3].
Proof.
  assert (H : exists r, sample_attn (ex_q [2; 1; 3]) 5 None None ex_rng = Ok r)
    by (eexists; reflexivity).
  destruct H as [r H].
  destruct (sample_attn_Ok_inv _ _ _ _ _ H)
    as (a & N & T & S_ & rest & Ha & Sa & _ & [(Hd & _) | (_ & Hc)]).
  - discriminate Hd.
  - destruct Hc as (la & attns & slp & _ & Hr & Sh).
    injection Ha as <-. injection Sa as <- <- <- _.
    exists attns, slp. split; [rewrite H, Hr; reflexivity | exact Sh].
Defined.

(** ** [forward]: failures *)

Lemma promote_returns_iff (input : tensor R) (q_scores : option (Params R)) :
  rank input = 2 ->
  (exists pre, promote input q_scores = Ok pre) <->
  posterior_promotable q_scores.
Proof.
  intros Hr. unfold promote, posterior_promotable, unsqueeze.
  rewrite Hr. cbn [Nat.eqb Nat.leb bind].
  destruct q_scores as [qs |];
    [| split; [trivial | intros _; cbn [bind]; eauto]].
  destruct (alpha qs) as [a |];
    [| split; [trivial | intros _; cbn [bind]; eauto]].
  destruct (rank a) as [| ra]; cbn [Nat.leb bind].
  { split; [intros [pre H]; discriminate | intros [H _]; lia]. }
  destruct (log_alpha qs) as [la |].
  - destruct (rank la) as [| rl] eqn:Erl; cbn [Nat.leb bind].
    + split; [intros [pre H]; discriminate |].
      intros (_ & la' & E & H). injection E as <-. lia.
    + split; [| eauto]. intros _. split; [lia |].
      exists la. split; [reflexivity | lia].
  - cbn [bind]. split; [intros [pre H]; discriminate |].
    intros (_ & la & E & _). discriminate.
Qed.

Lemma promote_returns (input : tensor R) (q_scores : option (Params R)) :
  (rank input = 2 -> posterior_promotable q_scores) ->
  exists one_step input' q',
    promote input q_scores = Ok (one_step, input', q') /\
    (rank input = 2 ->
     input' = Tensor (firstn 1 (shape input) ++ 1 :: skipn 1 (shape input))%list
                (data input)) /\
    (rank input <> 2 -> input' = input).
Proof.
  intros Hq. destruct (Nat.eq_dec (rank input) 2) as [E | E].
  - destruct (proj2 (promote_returns_iff input q_scores E) (Hq E))
      as [[[one_step input'] q'] Hpre].
    exists one_step, input', q'. split; [exact Hpre |].
    split; [| contradiction]. intros _.
    unfold promote in Hpre. rewrite E in Hpre. cbn [Nat.eqb] in Hpre.
    apply bind_Ok_inv in Hpre as (i1 & Hi1 & Hpre).
    apply bind_Ok_inv in Hpre as (q1 & _ & Hpre).
    apply Ok_inj in Hpre. injection Hpre as _ <- _.
    unfold unsqueeze in Hi1. rewrite E in Hi1. cbn [Nat.leb] in Hi1.
    apply Ok_inj in Hi1. now subst i1.
  - exists false, input, q_scores. unfold promote.
    apply Nat.eqb_neq in E. rewrite E. split; [reflexivity |].
    split; [| reflexivity]. apply Nat.eqb_neq in E. contradiction.
Qed.

Lemma promote_keeps_dist_type (input input' : tensor R)
    (q_scores q' : option (Params R)) (one_step : bool) :
  promote input q_scores = Ok (one_step, input', q') ->
  option_map (@dist_type R) q' = option_map (@dist_type R) q_scores.
Proof.
  unfold promote. destruct (rank input =? 2).
  - intros H. apply bind_Ok_inv in H as (i1 & _ & H).
    apply bind_Ok_inv in H as (q1 & Hq & H). injection H as _ _ <-.
    destruct q_scores as [qs |]; [| now injection Hq as <-].
    destruct (alpha qs); [| now injection Hq as <-].
    apply bind_Ok_inv in Hq as (a1 & _ & Hq).
    destruct (log_alpha qs); [| discriminate].
    apply bind_Ok_inv in Hq as (la1 & _ & Hq). now injection Hq as <-.
  - intros H. now injection H as _ _ <-.
Qed.

(** The lengths of the scenario fit its sizes. *)
Lemma ex_lengths_fit : lengths_fit (Some [3; 2]) 2 3.
Proof. split; [discriminate | split; left; reflexivity]. Qed.

(** A one-step call with a categorical prior and agreeing sizes gets as far
    as the sampling dispatch: its outcome is that of the dispatch and of the
    stages after it. *)
Lemma forward_front (self : VariationalAttention)
    (input memory_bank : tensor R) (memory_lengths : option (list nat))
    (q_scores : option (Params R)) (g : rng) (N S_ : nat)
    (input' : tensor R) (q' : option (Params R)) :
  p_dist_type self = "categorical" ->
  shape input = [N; dim self] -> shape memory_bank = [N; S_; dim self] ->
  lengths_fit memory_lengths N S_ ->
  promote input q_scores = Ok (true, input', q') ->
  exists c ps mask cc,
    shape c = [N; 1; S_] /\ alpha ps = Some c /\
    shape cc = [N; 1; dim self] /\
    forward self input memory_bank memory_lengths q_scores g =
    ('(y, q_sample, slp) <- q_path self q' memory_lengths mask g ;;
     ctx <- context_of self y memory_bank N S_ (dim self) 1 ;;
     h_y <- project_y self ctx (Tensor [N; 1; dim self] (data input)) ;;
     one_step_results N S_ (dim self) h_y
       (nn_tanh (linear (linear_out self)
                   (cat_last NaN cc
                      (tmap Val (Tensor [N; 1; dim self] (data input))))))
       c q' ps q_sample slp None).
Proof.
  intros Hp Hi Hm Hl Hpre. unfold forward. rewrite Hpre. cbn [bind].
  apply promote_true_inv in Hpre as (a & b & Hi' & ->).
  rewrite Hi in Hi'. injection Hi' as <- <-.
  unfold size_checks. rewrite Hm. cbn [shape].
  rewrite !aeq_refl. cbn [bind].
  unfold assert_categorical. rewrite Hp. simpl py_assert. cbn [bind].
  destruct (@p_path_categorical_returns self
              (Tensor [N; 1; dim self] (data input)) memory_bank
              memory_lengths N 1 S_ Hp eq_refl Hm Hl)
    as (c & ps & mask & -> & Hc & Hps).
  cbn [bind].
  destruct (@bmm_returns _ _ c (tmap Val memory_bank) N 1 S_ (dim self) Hc)
    as (cc & -> & Hcc); [simpl; assumption |].
  cbn [bind].
  exists c, ps, mask, cc. repeat split; assumption.
Qed.

(** X8: when the promotion of the posterior goes through, [forward] fails
    on sizes before anything else is looked at: a memory bank that is not
    rank 3, or a query that is neither rank 2 nor rank 3, fails the
    unpacking of its size, and a one-step query that disagrees with the
    memory bank on the batch size or the feature size, or a feature size
    other than [self.dim], fails an [aeq], whatever the distribution types
    and the mode are. *)
Theorem forward_size_errors (self : VariationalAttention)
    (input memory_bank : tensor R) (memory_lengths : option (list nat))
    (q_scores : option (Params R)) (g : rng) :
  (rank input = 2 -> posterior_promotable q_scores) ->
  (rank memory_bank <> 3 ->
   forward self input memory_bank memory_lengths q_scores g
   = Raise (ValueError "unpack memory_bank.size()")) /\
  (rank memory_bank = 3 -> rank input <> 2 -> rank input <> 3 ->
   forward self input memory_bank memory_lengths q_scores g
   = Raise (ValueError "unpack input.size()")) /\
  (forall N S_ H N' H',
      shape memory_bank = [N; S_; H] -> shape input = [N'; H'] ->
      N <> N' \/ H <> H' \/ dim self <> H ->
      forward self input memory_bank memory_lengths q_scores g
      = Raise (AssertionError "aeq")).
Proof.
  intros Hq.
  destruct (promote_returns input q_scores Hq)
    as (one_step & input' & q' & Hpre & H2 & Hn2).
  unfold forward. rewrite Hpre. cbn [bind]. unfold size_checks.
  split; [| split].
  - intros Hm. unfold rank in Hm.
    destruct (shape memory_bank) as [| b [| s [| d [| ? ?]]]];
      try reflexivity. now contradiction Hm.
  - intros Hm Hi2 Hi3. rewrite (Hn2 Hi2). unfold rank in Hm, Hi3.
    destruct (shape memory_bank) as [| b [| s [| d [| ? ?]]]];
      try discriminate.
    destruct (shape input) as [| b' [| t [| d' [| ? ?]]]];
      try reflexivity. now contradiction Hi3.
  - intros N S_ H N' H' Hm Hi Hne.
    rewrite H2 by (unfold rank; now rewrite Hi).
    rewrite Hm, Hi. cbn [shape firstn skipn app].
    unfold aeq, py_assert.
    destruct (N =? N') eqn:E1; [| reflexivity].
    destruct (H =? H') eqn:E2; [| reflexivity].
    destruct (dim self =? H) eqn:E3; [| reflexivity].
    apply Nat.eqb_eq in E1, E2, E3. lia.
Qed.

Lemma forward_size_errors_witness :
  forward (ex_module "categorical" "sample") ex_query_three ex_memory
    (Some [3; 2]) None ex_rng
  = Raise (AssertionError "aeq").
Proof.
  apply (proj2 (proj2 (@forward_size_errors
                         (ex_module "categorical" "sample") ex_query_three
                         ex_memory (Some [3; 2]) None ex_rng (fun _ => I)))
           2 3 4 3 4 eq_refl eq_refl).
  left. lia.
Defined.

(** X9: with a [mode] other than "sample" and "enum", [forward] never
    returns; on a one-step call with a categorical prior, agreeing sizes and
    lengths whose mask fits the scores, it fails reading the unassigned
    [y_align_vectors]. *)
Theorem forward_unknown_mode (self : VariationalAttention)
    (input memory_bank : tensor R) (memory_lengths : option (list nat))
    (q_scores : option (Params R)) (g : rng) :
  mode self <> "sample" -> mode self <> "enum" ->
  (forall out,
      forward self input memory_bank memory_lengths q_scores g <> Ok out) /\
  (forall N S_ pre,
      p_dist_type self = "categorical" ->
      shape input = [N; dim self] -> shape memory_bank = [N; S_; dim self] ->
      lengths_fit memory_lengths N S_ ->
      promote input q_scores = Ok pre ->
      forward self input memory_bank memory_lengths q_scores g
      = Raise (UnboundLocalError "y_align_vectors")).
Proof.
  intros Hs He. split.
  - intros out Hf.
    apply forward_Ok_inv in Hf
      as (input' & q' & b & s & d' & t & c & ps & mask & cc & y & qsm & slp
          & ctx & hy & _ & _ & _ & _ & _ & Hq & _).
    apply q_path_Ok_inv in Hq as [(H & _) | (H & _)]; contradiction.
  - intros N S_ [[one_step input'] q'] Hp Hi Hm Hl Hpre.
    destruct (promote_rank _ _ Hpre) as [H2 _].
    destruct H2 as [_ ->]; [unfold rank; now rewrite Hi |].
    destruct (forward_front self input memory_bank memory_lengths q_scores g
                Hp Hi Hm Hl Hpre) as (c & ps & mask & cc & _ & _ & _ & ->).
    unfold q_path. apply String.eqb_neq in Hs, He. now rewrite Hs, He.
Qed.

Lemma forward_unknown_mode_witness :
  forward (ex_module "categorical" "enumerate") ex_query ex_memory
    (Some [3; 2]) None ex_rng
  = Raise (UnboundLocalError "y_align_vectors").
Proof.
  refine (proj2 (@forward_unknown_mode (ex_module "categorical" "enumerate")
                   ex_query ex_memory (Some [3; 2]) None ex_rng _ _)
            2 3 (true, ex_query_seq, None) eq_refl eq_refl eq_refl
            ex_lengths_fit eq_refl);
    discriminate.
Defined.

(** X10: in mode "sample", [forward] never returns without a posterior or
    with [use_prior] set; on a one-step call with a categorical prior,
    agreeing sizes and lengths whose mask fits the scores, it fails on
    [assert (False)]. *)
Theorem forward_prior_sampling_disabled (self : VariationalAttention)
    (input memory_bank : tensor R) (memory_lengths : option (list nat))
    (q_scores : option (Params R)) (g : rng) :
  mode self = "sample" ->
  q_scores = None \/ use_prior self = true ->
  (forall out,
      forward self input memory_bank memory_lengths q_scores g <> Ok out) /\
  (forall N S_ pre,
      p_dist_type self = "categorical" ->
      shape input = [N; dim self] -> shape memory_bank = [N; S_; dim self] ->
      lengths_fit memory_lengths N S_ ->
      promote input q_scores = Ok pre ->
      forward self input memory_bank memory_lengths q_scores g
      = Raise (AssertionError "False")).
Proof.
  intros Hmode Hq. split.
  - intros out Hf.
    apply forward_Ok_inv in Hf
      as (input' & q' & b & s & d' & t & c & ps & mask & cc & y & qsm & slp
          & ctx & hy & Hpre & _ & _ & _ & _ & Hqp & _).
    apply q_path_Ok_inv in Hqp
      as [(_ & qs & a & l & -> & Hu & _) | (H & _)];
      [| rewrite Hmode in H; discriminate].
    destruct Hq as [-> | Hq]; [| rewrite Hq in Hu; discriminate].
    apply promote_keeps_dist_type in Hpre. discriminate.
  - intros N S_ [[one_step input'] q'] Hp Hi Hm Hl Hpre.
    destruct (promote_rank _ _ Hpre) as [H2 _].
    destruct H2 as [_ ->]; [unfold rank; now rewrite Hi |].
    destruct (forward_front self input memory_bank memory_lengths q_scores g
                Hp Hi Hm Hl Hpre) as (c & ps & mask & cc & _ & _ & _ & ->).
    unfold q_path. rewrite Hmode. simpl String.eqb. cbv iota.
    destruct q' as [qs |]; [| reflexivity].
    destruct Hq as [-> | ->]; [| reflexivity].
    apply promote_keeps_dist_type in Hpre. discriminate.
Qed.

Lemma forward_prior_sampling_disabled_witness :
  forward (ex_module "categorical" "sample") ex_query ex_memory
    (Some [3; 2]) None ex_rng
  = Raise (AssertionError "False").
Proof.
  exact (proj2 (@forward_prior_sampling_disabled
                  (ex_module "categorical" "sample") ex_query ex_memory
                  (Some [3; 2]) None ex_rng eq_refl (or_introl eq_refl))
           2 3 (true, ex_query_seq, None) eq_refl eq_refl eq_refl
           ex_lengths_fit eq_refl).
Defined.

(** X11: in mode "sample", [forward] never returns for a posterior whose
    [dist_type] is not "categorical"; on a one-step call with a categorical
    prior, [use_prior] unset, agreeing sizes and lengths whose mask fits the
    scores, it fails on the [mode] keyword [sample_attn] does not accept. *)
Theorem forward_posterior_not_categorical (self : VariationalAttention)
    (input memory_bank : tensor R) (memory_lengths : option (list nat))
    (qs : Params R) (g : rng) :
  mode self = "sample" ->
  dist_type qs <> "categorical" ->
  (forall out,
      forward self input memory_bank memory_lengths (Some qs) g <> Ok out) /\
  (forall N S_ pre,
      p_dist_type self = "categorical" -> use_prior self = false ->
      shape input = [N; dim self] -> shape memory_bank = [N; S_; dim self] ->
      lengths_fit memory_lengths N S_ ->
      promote input (Some qs) = Ok pre ->
      forward self input memory_bank memory_lengths (Some qs) g
      = Raise (TypeError
                 "sample_attn() got an unexpected keyword argument 'mode'")).
Proof.
  intros Hmode Hd. split.
  - intros out Hf.
    apply forward_Ok_inv in Hf
      as (input' & q' & b & s & d' & t & c & ps & mask & cc & y & qsm & slp
          & ctx & hy & Hpre & _ & _ & _ & _ & Hqp & _).
    apply q_path_Ok_inv in Hqp
      as [(_ & qs' & a & l & -> & _ & Hdt & _) | (H & _)];
      [| rewrite Hmode in H; discriminate].
    apply promote_keeps_dist_type in Hpre. simpl in Hpre.
    injection Hpre as Hpre. rewrite Hpre in Hdt. contradiction.
  - intros N S_ [[one_step input'] q'] Hp Hu Hi Hm Hl Hpre.
    destruct (promote_rank _ _ Hpre) as [H2 _].
    destruct H2 as [_ ->]; [unfold rank; now rewrite Hi |].
    destruct (forward_front self input memory_bank memory_lengths (Some qs) g
                Hp Hi Hm Hl Hpre) as (c & ps & mask & cc & _ & _ & _ & ->).
    apply promote_keeps_dist_type in Hpre.
    destruct q' as [qs' |]; [| discriminate].
    simpl in Hpre. injection Hpre as Hpre.
    unfold q_path. rewrite Hmode, Hu. simpl String.eqb. cbv iota.
    rewrite Hpre. apply String.eqb_neq in Hd. now rewrite Hd.
Qed.

Lemma forward_posterior_not_categorical_witness :
  forward (ex_module "categorical" "sample") ex_query ex_memory
    (Some [3; 2]) (Some ex_q_dirichlet_log) ex_rng
  = Raise (TypeError "sample_attn() got an unexpected keyword argument 'mode'").
Proof.
  assert (Hpre : exists pre,
             promote ex_query (Some ex_q_dirichlet_log) = Ok pre)
    by (eexists; reflexivity).
  destruct Hpre as [pre Hpre].
  refine (proj2 (@forward_posterior_not_categorical
                   (ex_module "categorical" "sample") ex_query ex_memory
                   (Some [3; 2]) ex_q_dirichlet_log ex_rng eq_refl _)
            2 3 pre eq_refl eq_refl eq_refl eq_refl
            ex_lengths_fit Hpre).
  discriminate.
Defined.

(** X12: in mode "enum", [forward] returns exactly when the prior is
    categorical, the query is [N x dim], the memory bank is [N x S x dim],
    the lengths (when given) fit, that is, they are not empty, number [N] or
    1 and have [S] or 1 as their longest, and the posterior (when given with
    an [alpha]) has an [alpha] and a [log_alpha] of rank at least 1. *)
Theorem forward_enum_returns_iff (self : VariationalAttention)
    (input memory_bank : tensor R) (memory_lengths : option (list nat))
    (q_scores : option (Params R)) (g : rng) :
  mode self = "enum" ->
  ((exists out,
       forward self input memory_bank memory_lengths q_scores g = Ok out) <->
   (p_dist_type self = "categorical" /\
    posterior_promotable q_scores /\
    exists N S_,
      shape input = [N; dim self] /\
      shape memory_bank = [N; S_; dim self] /\
      lengths_fit memory_lengths N S_)).
Proof.
  intros Hmode. split.
  - intros [out Hf].
    apply forward_Ok_inv in Hf
      as (input' & q' & b & s & d' & t & c & ps & mask & cc & y & qsm & slp
          & ctx & hy & Hpre & Hsz & Hp & Hpp & _).
    destruct (promote_true_inv _ _ Hpre) as (a0 & b0 & Hi & ->).
    apply size_checks_Ok_inv in Hsz as (Hm & Hi' & Hd).
    cbn [shape] in Hi'. injection Hi' as <- <- <-.
    split; [exact Hp |]. split.
    + apply (promote_returns_iff input q_scores);
        [unfold rank; now rewrite Hi | eauto].
    + exists a0, s. rewrite Hd. repeat split; try assumption.
      destruct memory_lengths as [lens |]; [| exact I].
      eapply p_path_categorical_inv in Hpp; [| exact Hp].
      destruct Hpp
        as (sc & x & Hsc & _ & _ & _ & m & Hlm & Hmf & _).
      apply score_Ok_inv in Hsc as (b1 & t1 & s1 & d1 & Hs1 & Ht1 & Hsc).
      rewrite Hm in Hs1. injection Hs1 as <- <- <-.
      cbn [shape] in Ht1. injection Ht1 as <-.
      eapply masked_fill_mask_fits; [| exact Hlm | exact Hmf].
      cbn [tmap shape]. exact Hsc.
  - intros (Hp & Hq & N & S_ & Hi & Hm & Hl).
    apply (promote_returns_iff input q_scores) in Hq;
      [| unfold rank; now rewrite Hi].
    destruct Hq as [[[one_step input'] q'] Hpre].
    destruct (promote_rank _ _ Hpre) as [H2 _].
    destruct H2 as [_ ->]; [unfold rank; now rewrite Hi |].
    eapply forward_enum_returns; eauto.
Qed.

Lemma forward_enum_returns_iff_witness :
  exists out,
    forward (ex_module "categorical" "enum") ex_query ex_memory
      (Some [3; 2]) (Some (ex_q [2; 3])) ex_rng = Ok out.
Proof.
  apply (proj2 (@forward_enum_returns_iff (ex_module "categorical" "enum")
                  ex_query ex_memory (Some [3; 2]) (Some (ex_q [2; 3]))
                  ex_rng eq_refl)).
  split; [reflexivity |]. split.
  - simpl. split; [unfold rank; simpl; lia |].
    eexists. split; [reflexivity | unfold rank; simpl; lia].
  - exists 2, 3. split; [reflexivity |]. split; [reflexivity |].
    exact ex_lengths_fit.
Defined.

(** ** [forward]: results *)

(** The prior bundle [one_step_results] builds. *)
Lemma one_step_results_p_inv (batch sourceL d : nat) (hy : tensor R)
    (hc c : tensor fl) (q' : option (Params R)) (ps : Params fl)
    (q_sample slp : option (tensor R)) (out : output) :
  one_step_results batch sourceL d hy hc c q' ps q_sample slp None = Ok out ->
  exists pa,
    alpha ps = Some pa /\
    p (dist_info out)
    = Some (mkParams (Some (squeeze 1 pa)) None (dist_type ps) None None).
Proof.
  unfold one_step_results. destruct (alpha ps) as [pa |]; [| discriminate].
  destruct (shape (squeeze 1 hc)) as [| b1 [| d1 [| ? ?]]]; try discriminate.
  intros H.
  apply bind_Ok_inv in H as (u1 & _ & H).
  apply bind_Ok_inv in H as (u2 & _ & H).
  destruct (shape (squeeze 1 c)) as [| b2 [| s2 [| ? ?]]]; try discriminate.
  apply bind_Ok_inv in H as (u3 & _ & H).
  apply bind_Ok_inv in H as (u4 & _ & H).
  injection H as <-. exists pa. split; reflexivity.
Qed.

(** [squeeze(1)] undoes [unsqueeze(1)]. *)
Lemma squeeze_unsqueeze_1 {A} (a a1 : tensor A) :
  unsqueeze 1 a = Ok a1 -> squeeze 1 a1 = a.
Proof.
  unfold unsqueeze, rank. destruct a as [sh dt]. cbn [shape data].
  destruct sh as [| n sh]; cbn [length Nat.leb]; [discriminate |].
  intros H. injection H as <-. reflexivity.
Qed.

Lemma score_ext (self1 self2 : VariationalAttention) (h_t h_s : tensor R) :
  dim self1 = dim self2 ->
  linear_in_weight self1 = linear_in_weight self2 ->
  score self1 h_t h_s = score self2 h_t h_s.
Proof.
  intros Hd Hw. unfold score, linear_in. now rewrite Hd, Hw.
Qed.

Lemma p_path_categorical_ext (self1 self2 : VariationalAttention)
    (input memory_bank : tensor R) (memory_lengths : option (list nat))
    (sourceL : nat) :
  p_dist_type self1 = "categorical" -> p_dist_type self2 = "categorical" ->
  dim self1 = dim self2 ->
  linear_in_weight self1 = linear_in_weight self2 ->
  p_path self1 input memory_bank memory_lengths
  = p_path self2 input memory_bank memory_lengths.
Proof.
  intros H1 H2 Hd Hw. unfold p_path. rewrite H1, H2.
  simpl String.eqb. cbv iota.
  now rewrite (score_ext self1 self2 input memory_bank Hd Hw).
Qed.

(** One feature of the projection of [project_y]: the contexts and the query
    side by side, through [linear_out] and [tanh]. *)
Lemma project_y_elem (self : VariationalAttention) (ctx input hy : tensor R)
    (K N H : nat) :
  shape ctx = [K; N; 1; H] -> shape input = [N; 1; H] -> dim self = H ->
  project_y self ctx input = Ok hy ->
  forall k n h, k < K -> n < N -> h < H ->
    tget 0%R hy [k; n; 0; h]
    = tanh (gsum (H * 2) (fun j =>
        Rmult (if j <? H then tget 0%R ctx [k; n; 0; j]
               else tget 0%R input [n; 0; j - H])
              (nth (h * (H * 2) + j) (linear_out_weight self) 0%R))).
Proof.
  intros Hc Hi Hd Hp k n h Hk Hn Hh.
  unfold project_y in Hp.
  apply bind_Ok_inv in Hp as (i0 & H0 & Hp).
  apply bind_Ok_inv in Hp as (i4 & H4 & Hp). injection Hp as <-.
  unfold unsqueeze in H0. rewrite Hi in H0.
  cbn [rank shape length Nat.leb firstn skipn app] in H0.
  injection H0 as <-.
  rewrite Hc in H4. apply expand_same_rank in H4; [| reflexivity].
  cbn [shape data] in H4. subst i4.
  unfold nn_tanh, linear, cat_last. rewrite Hc.
  cbn [shape removelast last app linear_out out_features in_features weight].
  rewrite Hd.
  rewrite tget_tmap_tgen by in_bounds.
  cbn [removelast last app]. cbv [lift1 Num_R]. f_equal.
  apply gsum_ext. intros j Hj. cbv [mul zero ofR Num_R]. f_equal.
  rewrite tget_tgen by in_bounds.
  cbn [removelast last app].
  destruct (j <? H) eqn:E; [reflexivity |].
  apply Nat.ltb_ge in E.
  rewrite tget_tgen by in_bounds.
  cbn [bcast_idx]. unfold tget. rewrite Hi.
  rewrite (bcast_lt Hn), (@bcast_lt H (j - H)) by lia.
  f_equal; unfold bcast; simpl; lia.
Qed.

(** The explicit value of the sampled contexts. *)
Lemma context_of_sample_value (self : VariationalAttention)
    (y memory_bank : tensor R) (N S_ H T : nat) :
  shape y = [n_samples self; N; T; S_] ->
  shape memory_bank = [N; S_; H] ->
  0 < T -> 0 < S_ -> 0 < H ->
  context_of self (Some y) memory_bank N S_ H T =
  Ok (Tensor [n_samples self; N; T; H]
        (data (tgen [n_samples self * N; T; H] (fun idx =>
           match idx with
           | [i; j; k] =>
               gsum S_ (fun l =>
                 mul (tget zero (Tensor [n_samples self * N; T; S_] (data y))
                        [i; j; l])
                     (tget zero
                        (Tensor [n_samples self * N; S_; H]
                           (data (tgen [n_samples self * 1; N; S_; H]
                              (fun idx =>
                                 match idx with
                                 | i :: idx' =>
                                     tget 0%R
                                       (Tensor [1; N; S_; H]
                                          (data memory_bank))
                                       (i mod 1 :: idx')
                                 | [] => 0%R
                                 end))))
                        [i; l; k]))
           | _ => zero
           end)))).
Proof.
  intros Hy Hm HT HS HH. unfold context_of.
  rewrite (@view_infer_ok _ [T; S_] y (n_samples self * N))
    by (rewrite ?Hy; simpl; nia).
  cbn [bind]. unfold unsqueeze. cbn [Nat.leb bind firstn skipn app].
  unfold repeat0. cbn [shape]. rewrite Hm.
  match goal with
  | |- context [view_infer ?sh ?t] =>
      rewrite (@view_infer_ok _ sh t (n_samples self * N))
        by (simpl; nia)
  end.
  cbn [bind].
  unfold bmm. cbn [shape]. rewrite !Nat.eqb_refl. cbn [andb bind].
  rewrite view_ok by (simpl; nia).
  reflexivity.
Qed.

(** The sampled contexts: each is the sum of the memory vectors weighted by
    the sample. *)
Lemma context_of_sample_elem (self : VariationalAttention)
    (y memory_bank ctx : tensor R) (N S_ H T : nat) :
  shape y = [n_samples self; N; T; S_] ->
  shape memory_bank = [N; S_; H] ->
  context_of self (Some y) memory_bank N S_ H T = Ok ctx ->
  shape ctx = [n_samples self; N; T; H] /\
  forall k n t h, k < n_samples self -> n < N -> t < T -> h < H ->
    tget 0%R ctx [k; n; t; h]
    = gsum S_ (fun s =>
        Rmult (tget 0%R y [k; n; t; s]) (tget 0%R memory_bank [n; s; h])).
Proof.
  intros Hy Hm Hc.
  split; [eapply context_of_shape in Hc; eassumption |].
  intros k n t h Hk Hn Ht Hh.
  assert (HS : 0 < S_).
  { destruct S_ as [| s']; [| lia]. exfalso.
    unfold context_of, view_infer in Hc. cbn [numel fold_right] in Hc.
    replace (T * (0 * 1)) with 0 in Hc by lia. discriminate. }
  rewrite (@context_of_sample_value self y memory_bank N S_ H T Hy Hm) in Hc
    by lia.
  apply Ok_inj in Hc. subst ctx.
  match goal with
  | |- tget _ (Tensor _ (data ?c)) _ = _ =>
      rewrite (@tget_reshape _ 0%R c
                 [n_samples self * N; T; H] [k * N + n; t; h]
                 [n_samples self; N; T; H] [k; n; t; h] eq_refl)
        by (simpl; nia)
  end.
  rewrite tget_tgen by (repeat constructor; simpl; nia).
  apply gsum_ext. intros s Hs. cbv [mul zero Num_R]. f_equal.
  - apply (@tget_reshape _ 0%R y [n_samples self; N; T; S_] [k; n; t; s]
             [n_samples self * N; T; S_] [k * N + n; t; s] Hy).
    simpl; nia.
  - match goal with
    | |- tget _ (Tensor _ (data ?c)) _ = _ =>
        rewrite (@tget_reshape _ 0%R c
                   [n_samples self * 1; N; S_; H] [k; n; s; h]
                   [n_samples self * N; S_; H] [k * N + n; s; h] eq_refl)
          by (simpl; nia)
    end.
    rewrite tget_tgen by (repeat constructor; simpl; nia).
    unfold tget. cbn [shape data]. f_equal.
    rewrite Nat.mod_1_r. rewrite Hm. simpl. lia.
Qed.

Lemma gsum_one_hot_zero (n z : nat) (f : nat -> R) :
  n <= z ->
  gsum n (fun s => Rmult (if s =? z then 1%R else 0%R) (f s)) = 0%R.
Proof.
  induction n as [| n IH]; intros Hz; [reflexivity |].
  cbn [gsum]. rewrite IH by lia.
  destruct (n =? z) eqn:E; [apply Nat.eqb_eq in E; lia |].
  cbv [add Num_R]. lra.
Qed.

(** A one-hot weighting selects one term of the sum. *)
Lemma gsum_one_hot (n z : nat) (f : nat -> R) :
  z < n ->
  gsum n (fun s => Rmult (if s =? z then 1%R else 0%R) (f s)) = f z.
Proof.
  induction n as [| n IH]; intros Hz; [lia |].
  cbn [gsum]. destruct (n =? z) eqn:E.
  - apply Nat.eqb_eq in E. subst z. rewrite gsum_one_hot_zero by lia.
    cbv [add Num_R]. lra.
  - apply Nat.eqb_neq in E. rewrite IH by lia. cbv [add Num_R]. lra.
Qed.

(** The explicit value of [bmm] on agreeing sizes. *)
Lemma bmm_value {A} `{Num A} (a b : tensor A) (B n m p0 : nat) :
  shape a = [B; n; m] -> shape b = [B; m; p0] ->
  bmm a b =
  Ok (tgen [B; n; p0] (fun idx =>
        match idx with
        | [i; j; k] =>
            gsum m (fun l =>
              mul (tget zero a [i; j; l]) (tget zero b [i; l; k]))
        | _ => zero
        end)).
Proof.
  intros Ha Hb. unfold bmm. rewrite Ha, Hb. rewrite !Nat.eqb_refl.
  reflexivity.
Qed.

Lemma tget_tmap_Val (d : R) (t : tensor R) (idx : list nat) :
  tget (Val d) (tmap Val t) idx = Val (tget d t idx).
Proof. unfold tget, tmap. cbn [shape data]. apply map_nth. Qed.

(** X13: the deterministic results of [forward] do not depend on the
    sampling branch: two returning calls on the same query, memory bank and
    lengths, by components with the same [dim] and layer weights, return the
    same [h_c], [c_align_vectors] and prior, whatever their posteriors,
    random draws, modes, sample counts and other settings are. *)
Theorem forward_deterministic_branch (self1 self2 : VariationalAttention)
    (input memory_bank : tensor R) (memory_lengths : option (list nat))
    (q1 q2 : option (Params R)) (g1 g2 : rng) (out1 out2 : output) :
  dim self1 = dim self2 ->
  linear_in_weight self1 = linear_in_weight self2 ->
  linear_out_weight self1 = linear_out_weight self2 ->
  forward self1 input memory_bank memory_lengths q1 g1 = Ok out1 ->
  forward self2 input memory_bank memory_lengths q2 g2 = Ok out2 ->
  h_c out1 = h_c out2 /\
  c_align_vectors out1 = c_align_vectors out2 /\
  p (dist_info out1) = p (dist_info out2).
Proof.
  intros Hd Hwi Hwo Hf1 Hf2.
  apply forward_Ok_inv in Hf1
    as (i1 & q1' & b1 & s1 & d1 & t1 & c1 & ps1 & mask1 & cc1 & y1 & qsm1
        & slp1 & ctx1 & hy1 & Hpre1 & Hsz1 & Hp1 & Hpp1 & Hb1 & _ & _ & _
        & Hr1).
  apply forward_Ok_inv in Hf2
    as (i2 & q2' & b2 & s2 & d2 & t2 & c2 & ps2 & mask2 & cc2 & y2 & qsm2
        & slp2 & ctx2 & hy2 & Hpre2 & Hsz2 & Hp2 & Hpp2 & Hb2 & _ & _ & _
        & Hr2).
  destruct (promote_true_inv _ _ Hpre1) as (a & b & Hi & ->).
  destruct (promote_true_inv _ _ Hpre2) as (a' & b' & Hi' & ->).
  rewrite Hi in Hi'. injection Hi' as <- <-.
  apply size_checks_Ok_inv in Hsz1 as (Hm1 & _ & _).
  apply size_checks_Ok_inv in Hsz2 as (Hm2 & _ & _).
  rewrite Hm1 in Hm2. injection Hm2 as <- <- <-.
  rewrite (p_path_categorical_ext self1 self2 _ memory_bank memory_lengths s1
             Hp1 Hp2 Hd Hwi) in Hpp1.
  rewrite Hpp1 in Hpp2. injection Hpp2 as <- <- <-.
  rewrite Hb1 in Hb2. injection Hb2 as <-.
  destruct (one_step_results_Ok_inv _ _ _ _ _ _ _ _ _ _ Hr1)
    as (_ & Hc1 & Ha1 & _).
  destruct (one_step_results_Ok_inv _ _ _ _ _ _ _ _ _ _ Hr2)
    as (_ & Hc2 & Ha2 & _).
  apply one_step_results_p_inv in Hr1 as (pa1 & Hpa1 & Hq1).
  apply one_step_results_p_inv in Hr2 as (pa2 & Hpa2 & Hq2).
  rewrite Hpa1 in Hpa2. injection Hpa2 as <-.
  rewrite Hc1, Hc2, Ha1, Ha2, Hq1, Hq2.
  unfold linear_out. rewrite Hd, Hwo. auto.
Qed.

Lemma forward_deterministic_branch_witness :
  exists out1 out2,
    forward (ex_module "categorical" "sample") ex_query ex_memory
      (Some [3; 2]) (Some (ex_q [2; 3])) ex_rng = Ok out1 /\
    forward (ex_module "categorical" "enum") ex_query ex_memory
      (Some [3; 2]) None (mkRng (fun _ => 1%R) (fun _ => 0)) = Ok out2 /\
    h_c out1 = h_c out2 /\ c_align_vectors out1 = c_align_vectors out2.
Proof.
  assert (H1 : exists out,
             forward (ex_module "categorical" "sample") ex_query ex_memory
               (Some [3; 2]) (Some (ex_q [2; 3])) ex_rng = Ok out)
    by (eexists; reflexivity).
  assert (H2 : exists out,
             forward (ex_module "categorical" "enum") ex_query ex_memory
               (Some [3; 2]) None (mkRng (fun _ => 1%R) (fun _ => 0)) = Ok out)
    by (eexists; reflexivity).
  destruct H1 as [out1 H1]. destruct H2 as [out2 H2].
  exists out1, out2. split; [exact H1 |]. split; [exact H2 |].
  destruct (@forward_deterministic_branch
              (ex_module "categorical" "sample")
              (ex_module "categorical" "enum") _ _ _ _ _ _ _ out1 out2
              eq_refl eq_refl eq_refl H1 H2) as (Hc & Ha & _).
  split; assumption.
Defined.

(** X14: the prior a returning [forward] hands back is categorical, its
    [alpha] is the returned [c_align_vectors] itself, and it carries no
    [log_alpha], samples or sample log-probabilities. *)
Theorem forward_prior_is_c_align (self : VariationalAttention)
    (input memory_bank : tensor R) (memory_lengths : option (list nat))
    (q_scores : option (Params R)) (g : rng) (out : output) :
  forward self input memory_bank memory_lengths q_scores g = Ok out ->
  p (dist_info out)
  = Some (mkParams (Some (c_align_vectors out)) None "categorical" None None).
Proof.
  intros Hf.
  apply forward_Ok_inv in Hf
    as (input' & q' & b & s & d' & t & c & ps & mask & cc & y & qsm & slp
        & ctx & hy & _ & _ & Hp & Hpp & _ & _ & _ & _ & Hr).
  eapply p_path_categorical_inv in Hpp; [| exact Hp].
  destruct Hpp as (sc & x & _ & _ & _ & -> & _).
  destruct (one_step_results_Ok_inv _ _ _ _ _ _ _ _ _ _ Hr)
    as (_ & _ & Hc & _).
  apply one_step_results_p_inv in Hr as (pa & Hpa & ->).
  cbn [alpha] in Hpa. injection Hpa as <-. rewrite Hc. reflexivity.
Qed.

Lemma forward_prior_is_c_align_witness :
  exists out,
    forward (ex_module "categorical" "enum") ex_query ex_memory
      (Some [3; 2]) None ex_rng = Ok out /\
    option_map (@alpha fl) (p (dist_info out))
    = Some (Some (c_align_vectors out)).
Proof.
  assert (H : exists out,
             forward (ex_module "categorical" "enum") ex_query ex_memory
               (Some [3; 2]) None ex_rng = Ok out)
    by (eexists; reflexivity).
  destruct H as [out H]. exists out. split; [exact H |].
  rewrite (forward_prior_is_c_align _ _ _ _ _ _ H). reflexivity.
Defined.

(** X15: a returning [forward] hands back no posterior when none was
    given; otherwise the returned posterior has the caller's [alpha]
    (the added time axis is removed again) and [dist_type], has lost its
    [log_alpha], and carries samples and sample log-probabilities exactly
    in mode "sample". *)
Theorem forward_posterior_bundle (self : VariationalAttention)
    (input memory_bank : tensor R) (memory_lengths : option (list nat))
    (q_scores : option (Params R)) (g : rng) (out : output) :
  forward self input memory_bank memory_lengths q_scores g = Ok out ->
  match q_scores with
  | None => q (dist_info out) = None
  | Some qs =>
      exists qo,
        q (dist_info out) = Some qo /\
        alpha qo = alpha qs /\
        log_alpha qo = None /\
        dist_type qo = dist_type qs /\
        (mode self = "enum" ->
         samples qo = None /\ sample_log_probs qo = None) /\
        (mode self = "sample" ->
         samples qo <> None /\ sample_log_probs qo <> None)
  end.
Proof.
  intros Hf.
  apply forward_Ok_inv in Hf
    as (input' & q' & b & s & d' & t & c & ps & mask & cc & y & qsm & slp
        & ctx & hy & Hpre & _ & _ & _ & _ & Hq & _ & _ & Hr).
  destruct (one_step_results_Ok_inv _ _ _ _ _ _ _ _ _ _ Hr)
    as (_ & _ & _ & _ & _ & Hqo).
  rewrite Hqo. clear Hqo Hr.
  assert (Hsm : (mode self = "enum" -> qsm = None /\ slp = None) /\
                (mode self = "sample" -> qsm <> None /\ slp <> None)).
  { apply q_path_Ok_inv in Hq
      as [(Hm & qs' & a & l & _ & _ & _ & _ & _ & -> & ->)
         | (Hm & _ & -> & ->)]; rewrite Hm.
    - split; [discriminate | intros _; split; discriminate].
    - split; [auto | discriminate]. }
  clear Hq. destruct Hsm as [Hen Hsa].
  unfold promote in Hpre. destruct (rank input =? 2); [| discriminate].
  apply bind_Ok_inv in Hpre as (i1 & _ & Hpre).
  apply bind_Ok_inv in Hpre as (q1 & Hq1 & Hpre).
  injection Hpre as _ <-.
  destruct q_scores as [qs |]; [| now injection Hq1 as <-].
  assert (Hgoal : forall qa, option_map (squeeze 1) qa = alpha qs ->
            exists qo,
              Some (mkParams (option_map (squeeze 1) qa) None (dist_type qs)
                      (option_map (squeeze 2) qsm)
                      (option_map (squeeze 2) slp)) = Some qo /\
              alpha qo = alpha qs /\ log_alpha qo = None /\
              dist_type qo = dist_type qs /\
              (mode self = "enum" ->
               samples qo = None /\ sample_log_probs qo = None) /\
              (mode self = "sample" ->
               samples qo <> None /\ sample_log_probs qo <> None)).
  { intros qa Hqa. eexists. split; [reflexivity |]. cbn.
    repeat split; auto.
    - now destruct (Hen H) as [-> _].
    - now destruct (Hen H) as [_ ->].
    - destruct (Hsa H) as [H1 _]. destruct qsm; [discriminate | congruence].
    - destruct (Hsa H) as [_ H1]. destruct slp; [discriminate | congruence]. }
  destruct (alpha qs) as [a |] eqn:Ha.
  - apply bind_Ok_inv in Hq1 as (a1 & Ha1 & Hq1).
    destruct (log_alpha qs) as [la |]; [| discriminate].
    apply bind_Ok_inv in Hq1 as (la1 & _ & Hq1). injection Hq1 as <-.
    cbn [option_map alpha dist_type].
    apply (Hgoal (Some a1)). cbn. f_equal. now apply squeeze_unsqueeze_1.
  - injection Hq1 as <-. cbn [option_map]. rewrite Ha.
    apply (Hgoal None). reflexivity.
Qed.

Lemma forward_posterior_bundle_witness :
  exists out qo,
    forward (ex_module "categorical" "sample") ex_query ex_memory
      (Some [3; 2]) (Some (ex_q [2; 3])) ex_rng = Ok out /\
    q (dist_info out) = Some qo /\
    alpha qo = alpha (ex_q [2; 3]) /\ log_alpha qo = None.
Proof.
  assert (H : exists out,
             forward (ex_module "categorical" "sample") ex_query ex_memory
               (Some [3; 2]) (Some (ex_q [2; 3])) ex_rng = Ok out)
    by (eexists; reflexivity).
  destruct H as [out H].
  destruct (forward_posterior_bundle _ _ _ _ _ _ H)
    as (qo & Hq & Ha & Hl & _).
  exists out, qo. auto.
Defined.

(** X16: without [memory_lengths], the attention weights a returning
    [forward] hands back are the soft-max of the scores over all source
    positions: each weight is [exp(score) / sum exp(score)], and each
    non-empty row sums to 1, in exact arithmetic. *)
Theorem forward_no_lengths_softmax (self : VariationalAttention)
    (input memory_bank : tensor R) (q_scores : option (Params R)) (g : rng)
    (out : output) (N S_ H : nat) :
  forward self input memory_bank None q_scores g = Ok out ->
  shape memory_bank = [N; S_; H] ->
  exists sc,
    score self (Tensor [N; 1; H] (data input)) memory_bank = Ok sc /\
    forall n, n < N ->
      (forall s, s < S_ ->
         tget NaN (c_align_vectors out) [n; s]
         = Val (exp (tget 0%R sc [n; 0%nat; s])
                / gsum S_ (fun j => exp (tget 0%R sc [n; 0%nat; j])))) /\
      (0 < S_ ->
       gsum S_ (fun s => tget NaN (c_align_vectors out) [n; s]) = Val 1%R).
Proof.
  intros Hf Hm.
  apply forward_Ok_inv in Hf
    as (input' & q' & b & s0 & d' & t & c & ps & mask & cc & y & qsm & slp
        & ctx & hy & Hpre & Hsz & Hp & Hpp & _ & _ & _ & _ & Hr).
  destruct (promote_true_inv _ _ Hpre) as (a0 & b0 & Hi & ->).
  apply size_checks_Ok_inv in Hsz as (Hm' & Hi' & Hd).
  rewrite Hm in Hm'. injection Hm' as E1 E2 E3. subst b s0 d'.
  cbn [shape] in Hi'. injection Hi' as E1 E2 E3. subst a0 t b0.
  destruct (one_step_results_Ok_inv _ _ _ _ _ _ _ _ _ _ Hr)
    as (_ & _ & Hca & _). rewrite Hca. clear Hr Hca.
  eapply p_path_categorical_inv in Hpp; [| exact Hp].
  destruct Hpp as (sc & x & Hsc & Sx & -> & _ & -> & _).
  exists sc. split; [exact Hsc |].
  destruct (score_Ok_tgen _ _ _ Hsc) as [f Ef].
  apply score_Ok_inv in Hsc as (b1 & t1 & s1 & d1 & Hs1 & Ht1 & Ssc).
  rewrite Hm in Hs1. injection Hs1 as E1 E2 E3. subst b1 s1 d1.
  cbn [shape] in Ht1. injection Ht1 as E2. subst t1.
  rewrite Ssc in Sx, Ef.
  assert (Ex : forall n j, n < N -> j < S_ ->
            tget NegInf (tmap Fin sc) [n; 0; j] = Fin (tget 0%R sc [n; 0; j])).
  { intros n j Hn Hj. rewrite Ef.
    rewrite tget_tmap_tgen by in_bounds. now rewrite tget_tgen by in_bounds. }
  assert (Sc : shape (softmax (tmap Fin sc)) = [N; 1; S_])
    by (unfold softmax; rewrite Sx; reflexivity).
  assert (Hsum : forall n, n < N ->
            gsum S_ (fun j => xexp (tget NegInf (tmap Fin sc) [n; 0; j]))
            = gsum S_ (fun j => exp (tget 0%R sc [n; 0; j]))).
  { intros n Hn. apply gsum_ext. intros j Hj. now rewrite Ex. }
  intros n Hn. split.
  - intros s Hs.
    destruct (@squeeze1_elem _ NaN (softmax (tmap Fin sc)) N S_ n s Sc)
      as [_ ->].
    rewrite (@softmax_elem (tmap Fin sc) N 1 S_ n 0 s s Sx)
      by (try lia; rewrite Ex by assumption; reflexivity).
    rewrite Hsum by assumption. rewrite Ex by assumption. reflexivity.
  - intros HS.
    rewrite (@gsum_ext _ _ S_ _
               (fun s => tget NaN (softmax (tmap Fin sc)) [n; 0; s])).
    + apply (@softmax_row_sum (tmap Fin sc) N 1 S_ n 0 0 Sx);
        try lia. rewrite Ex by lia. reflexivity.
    + intros s Hs.
      now destruct (@squeeze1_elem _ NaN (softmax (tmap Fin sc)) N S_ n s Sc)
        as [_ ->].
Qed.

Lemma forward_no_lengths_softmax_witness :
  exists out,
    forward (ex_module "categorical" "enum") ex_query ex_memory None None
      ex_rng = Ok out /\
    gsum 3 (fun s => tget NaN (c_align_vectors out) [1; s]) = Val 1%R.
Proof.
  assert (H : exists out,
             forward (ex_module "categorical" "enum") ex_query ex_memory
               None None ex_rng = Ok out)
    by (eexists; reflexivity).
  destruct H as [out H]. exists out. split; [exact H |].
  destruct (@forward_no_lengths_softmax _ _ _ _ _ out 2 3 4 H eq_refl)
    as (sc & _ & Hn).
  apply (proj2 (Hn 1 ltac:(lia))). lia.
Defined.

(** X17: [h_c] is the input-feeding vector of Luong attention: feature [h]
    of example [n] is [tanh] of row [h] of [linear_out] applied to the
    memory vectors weighted by [c_align_vectors], followed by the query. *)
Theorem forward_h_c_projects_expected_context (self : VariationalAttention)
    (input memory_bank : tensor R) (memory_lengths : option (list nat))
    (q_scores : option (Params R)) (g : rng) (out : output) (N S_ H : nat) :
  forward self input memory_bank memory_lengths q_scores g = Ok out ->
  shape memory_bank = [N; S_; H] ->
  forall n h, n < N -> h < H ->
    tget NaN (h_c out) [n; h]
    = lift1 tanh (gsum (H * 2) (fun j =>
        mul (if j <? H
             then gsum S_ (fun s =>
                    mul (tget NaN (c_align_vectors out) [n; s])
                        (Val (tget 0%R memory_bank [n; s; j])))
             else tget NaN (tmap Val input) [n; j - H])
            (Val (nth (h * (H * 2) + j) (linear_out_weight self) 0%R)))).
Proof.
  intros Hf Hm n h Hn Hh.
  apply forward_Ok_inv in Hf
    as (input' & q' & b & s0 & d' & t & c & ps & mask & cc & y & qsm & slp
        & ctx & hy & Hpre & Hsz & Hp & Hpp & Hb & _ & _ & _ & Hr).
  destruct (promote_true_inv _ _ Hpre) as (a0 & b0 & Hi & ->).
  apply size_checks_Ok_inv in Hsz as (Hm' & Hi' & Hd).
  rewrite Hm in Hm'. injection Hm' as E1 E2 E3. subst b s0 d'.
  cbn [shape] in Hi'. injection Hi' as E1 E2 E3. subst a0 t b0.
  destruct (one_step_results_Ok_inv _ _ _ _ _ _ _ _ _ _ Hr)
    as (_ & Hhc & Hca & _). rewrite Hhc, Hca. clear Hr Hhc Hca.
  eapply p_path_categorical_inv in Hpp; [| exact Hp].
  destruct Hpp as (sc & x & Hsc & Sx & -> & _).
  apply score_Ok_inv in Hsc as (b1 & t1 & s1 & d1 & Hs1 & Ht1 & Ssc).
  rewrite Hm in Hs1. injection Hs1 as E1 E2 E3. subst b1 s1 d1.
  cbn [shape] in Ht1. injection Ht1 as E2. subst t1.
  rewrite Ssc in Sx.
  assert (Sc : shape (softmax x) = [N; 1; S_])
    by (unfold softmax; rewrite Sx; reflexivity).
  rewrite (@bmm_value _ _ (softmax x) (tmap Val memory_bank) N 1 S_ H Sc)
    in Hb by (cbn [tmap shape]; exact Hm).
  apply Ok_inj in Hb. 
  assert (Ecc : forall j, j < H ->
            tget NaN cc [n; 0; j]
            = gsum S_ (fun s =>
                mul (tget NaN (squeeze 1 (softmax x)) [n; s])
                    (Val (tget 0%R memory_bank [n; s; j])))).
  { intros j Hj. subst cc. rewrite tget_tgen by in_bounds.
    apply gsum_ext. intros s Hs. f_equal.
    - destruct (@squeeze1_elem _ NaN (softmax x) N S_ n s Sc) as [_ ->].
      unfold softmax. rewrite Sx. now rewrite !tget_tgen by in_bounds.
    - apply (tget_tmap_Val 0%R). }
  assert (Scc : shape cc = [N; 1; H]) by (subst cc; reflexivity).
  clear Hb.
  match goal with
  | |- tget NaN (squeeze 1 ?hc) _ = _ =>
      assert (Shc : shape hc = [N; 1; H])
  end.
  { unfold nn_tanh, linear, cat_last. rewrite Scc.
    cbn [tmap tgen shape removelast last app linear_out out_features].
    now rewrite Hd. }
  destruct (squeeze1_elem NaN _ n h Shc) as [_ ->]. clear Shc.
  unfold nn_tanh, linear, cat_last. rewrite Scc.
  cbn [shape removelast last app linear_out out_features in_features weight
       tmap].
  rewrite Hd.
  rewrite tget_tmap_tgen by in_bounds.
  cbn [removelast last app]. f_equal.
  apply gsum_ext. intros j Hj. f_equal.
  rewrite tget_tgen by in_bounds.
  cbn [removelast last app].
  destruct (j <? H) eqn:E.
  - apply Nat.ltb_lt in E. now apply Ecc.
  - apply Nat.ltb_ge in E. unfold tget, tmap. cbn [shape data]. rewrite Hi.
    f_equal. simpl. lia.
Qed.

Lemma forward_h_c_projects_expected_context_witness :
  exists out,
    forward (ex_module "categorical" "enum") ex_query ex_memory
      (Some [3; 2]) None ex_rng = Ok out /\
    tget NaN (h_c out) [1; 0]
    = lift1 tanh (gsum (4 * 2) (fun j =>
        mul (if j <? 4
             then gsum 3 (fun s =>
                    mul (tget NaN (c_align_vectors out) [1; s])
                        (Val (tget 0%R ex_memory [1; s; j])))
             else tget NaN (tmap Val ex_query) [1; j - 4])
            (Val (nth (0 * (4 * 2) + j)
                    (linear_out_weight (ex_module "categorical" "enum"))
                    0%R)))).
Proof.
  assert (H : exists out,
             forward (ex_module "categorical" "enum") ex_query ex_memory
               (Some [3; 2]) None ex_rng = Ok out)
    by (eexists; reflexivity).
  destruct H as [out H]. exists out. split; [exact H |].
  apply (@forward_h_c_projects_expected_context _ _ _ _ _ _ out 2 3 4 H
           eq_refl); lia.
Defined.

(** X18: each row of [h_y] is [tanh] of [linear_out] applied to one memory
    vector followed by the query: in mode "enum" row [(s, n)] uses source
    position [s]; in mode "sample", for a posterior of size [N x S], row
    [(k, n)] uses the position drawn for sample [k] of example [n]. *)
Theorem forward_h_y_projects_memory_vector (self : VariationalAttention)
    (input memory_bank : tensor R) (memory_lengths : option (list nat))
    (q_scores : option (Params R)) (g : rng) (out : output) (N S_ H : nat) :
  forward self input memory_bank memory_lengths q_scores g = Ok out ->
  shape memory_bank = [N; S_; H] ->
  let proj n z h :=
    tanh (gsum (H * 2) (fun j =>
      Rmult (if j <? H then tget 0%R memory_bank [n; z; j]
             else tget 0%R input [n; j - H])
            (nth (h * (H * 2) + j) (linear_out_weight self) 0%R))) in
  (mode self = "enum" ->
   forall s n h, s < S_ -> n < N -> h < H ->
     tget 0%R (h_y out) [s; n; h] = proj n s h) /\
  (mode self = "sample" ->
   forall qs a,
     q_scores = Some qs -> alpha qs = Some a -> shape a = [N; S_] ->
     forall k n h, k < n_samples self -> n < N -> h < H ->
       let z := categorical_sample g (ravel [n_samples self; N] [k; n]) in
       z < S_ ->
       tget 0%R (h_y out) [k; n; h] = proj n z h).
Proof.
  intros Hf Hm proj.
  apply forward_Ok_inv in Hf
    as (input' & q' & b & s0 & d' & t & c & ps & mask & cc & y & qsm & slp
        & ctx & hy & Hpre & Hsz & _ & _ & _ & Hq & Hctx & Hpy & Hr).
  destruct (promote_true_inv _ _ Hpre) as (a0 & b0 & Hi & ->).
  apply size_checks_Ok_inv in Hsz as (Hm' & Hi' & Hd).
  rewrite Hm in Hm'. injection Hm' as E1 E2 E3. subst b s0 d'.
  cbn [shape] in Hi'. injection Hi' as E1 E2 E3. subst a0 t b0.
  destruct (one_step_results_Ok_inv _ _ _ _ _ _ _ _ _ _ Hr)
    as (Hhy & _). rewrite Hhy. clear Hr Hhy.
  assert (Hin : forall n j, H <= j ->
            tget 0%R (Tensor [N; 1; H] (data input)) [n; 0; j - H]
            = tget 0%R input [n; j - H]).
  { intros n j Hj.
    apply (@tget_reshape _ 0%R input [N; H] [n; j - H] [N; 1; H]
             [n; 0; j - H] Hi). simpl; lia. }
  split.
  - intros Hmode s n h Hs Hn Hh.
    apply q_path_Ok_inv in Hq as [(Hc & _) | (_ & -> & _)];
      [rewrite Hmode in Hc; discriminate |].
    destruct (context_of_enum Hm Hctx) as [Sctx Ectx].
    pose proof Hpy as Shy. eapply project_y_shape in Shy; [| exact Sctx].
    rewrite Hd in Shy.
    destruct (@squeeze2_elem _ 0%R hy S_ N H s n h Shy) as [_ ->].
    rewrite (@project_y_elem self ctx (Tensor [N; 1; H] (data input)) hy S_ N
               H Sctx eq_refl Hd Hpy)
      by assumption.
    unfold proj. f_equal. apply gsum_ext. intros j Hj. f_equal.
    destruct (j <? H) eqn:E.
    + apply Nat.ltb_lt in E. apply Ectx; lia.
    + apply Nat.ltb_ge in E. now apply Hin.
  - intros Hmode qs a -> Ha Sa k n h Hk Hn Hh z Hz.
    apply q_path_Ok_inv in Hq
      as [(_ & qs' & y0 & l & -> & _ & Hdt & Hsa & -> & _) | (Hc & _)];
      [| rewrite Hmode in Hc; discriminate].
    destruct (promote_q_inv _ _ Hpre Ha Sa) as (la1 & Hq').
    injection Hq' as ->. cbn [dist_type] in Hdt.
    eapply sample_attn_categorical_inv in Hsa;
      [| exact Hdt | reflexivity | reflexivity].
    destruct Hsa as (_ & slp' & Hsa). injection Hsa as -> _.
    destruct (@context_of_sample_elem self
                (scatter_one_hot [n_samples self; N; 1; S_]
                   (attns_id_of g (n_samples self) N 1))
                memory_bank ctx N S_ H 1 eq_refl Hm Hctx) as [Sctx Ectx].
    pose proof Hpy as Shy. eapply project_y_shape in Shy; [| exact Sctx].
    rewrite Hd in Shy.
    destruct (@squeeze2_elem _ 0%R hy (n_samples self) N H k n h Shy)
      as [_ ->].
    rewrite (@project_y_elem self ctx (Tensor [N; 1; H] (data input)) hy
               (n_samples self) N H Sctx eq_refl Hd Hpy) by assumption.
    unfold proj. f_equal. apply gsum_ext. intros j Hj. f_equal.
    destruct (j <? H) eqn:E.
    + apply Nat.ltb_lt in E. rewrite Ectx by lia.
      rewrite (@gsum_ext _ _ S_ _
                 (fun s => Rmult (if s =? z then 1%R else 0%R)
                             (tget 0%R memory_bank [n; s; j]))).
      * now apply gsum_one_hot.
      * intros s Hs. f_equal.
        rewrite scatter_one_hot_elem by lia.
        rewrite attns_id_elem by lia.
        unfold z. replace (ravel [n_samples self; N; 1] [k; n; 0])
          with (ravel [n_samples self; N] [k; n]) by (simpl; lia).
        reflexivity.
    + apply Nat.ltb_ge in E. now apply Hin.
Qed.

Lemma forward_h_y_projects_memory_vector_witness :
  exists out,
    forward (ex_module "categorical" "sample") ex_query ex_memory
      (Some [3; 2]) (Some (ex_q [2; 3])) ex_rng = Ok out /\
    tget 0%R (h_y out) [4; 1; 0]
    = tanh (gsum (4 * 2) (fun j =>
        Rmult (if j <? 4 then tget 0%R ex_memory [1; 2; j]
               else tget 0%R ex_query [1; j - 4])
              (nth (0 * (4 * 2) + j)
                 (linear_out_weight (ex_module "categorical" "sample"))
                 0%R))).
Proof.
  assert (H : exists out,
             forward (ex_module "categorical" "sample") ex_query ex_memory
               (Some [3; 2]) (Some (ex_q [2; 3])) ex_rng = Ok out)
    by (eexists; reflexivity).
  destruct H as [out H]. exists out. split; [exact H |].
  refine (proj2 (@forward_h_y_projects_memory_vector _ _ _ _ _ _ out 2 3 4 H
                   eq_refl)
            eq_refl (ex_q [2; 3]) _ eq_refl eq_refl eq_refl 4 1 0 _ _ _ _);
    simpl; lia.
Defined.

(** X19: with [memory_lengths] whose longest is the source length, the
    attention weight a returning [forward] hands back at a position inside
    an example's length is [exp(score)] over the sum of [exp(score)] over
    the positions inside that length, in exact arithmetic. *)
Theorem forward_masked_softmax (self : VariationalAttention)
    (input memory_bank : tensor R) (lens : list nat)
    (q_scores : option (Params R)) (g : rng) (out : output) (N S_ H : nat) :
  forward self input memory_bank (Some lens) q_scores g = Ok out ->
  shape memory_bank = [N; S_; H] ->
  list_max lens = S_ ->
  exists sc,
    score self (Tensor [N; 1; H] (data input)) memory_bank = Ok sc /\
    forall n s, n < N -> n < length lens -> s < S_ -> s < nth n lens 0 ->
      tget NaN (c_align_vectors out) [n; s]
      = Val (Rdiv (exp (tget 0%R sc [n; 0; s]))
               (gsum S_ (fun j =>
                  if j <? nth n lens 0 then exp (tget 0%R sc [n; 0; j])
                  else 0%R))).
Proof.
  intros Hf Hm HW.
  eapply forward_c_align in Hf; [| exact Hm].
  destruct Hf as (sc & x & Hsc & Ssc & Sx & -> & _ & Hx).
  exists sc. split; [exact Hsc |].
  intros n s Hn Hnl Hs Hsl.
  assert (Ex : forall j, j < S_ ->
            tget NegInf x [n; 0; j]
            = if j <? nth n lens 0 then Fin (tget 0%R sc [n; 0; j])
              else NegInf).
  { intros j Hj. rewrite Hx by assumption.
    rewrite (bcast_lt Hnl), bcast_lt by lia. reflexivity. }
  assert (Hs' : (s <? nth n lens 0) = true) by now apply Nat.ltb_lt.
  destruct (@squeeze1_elem _ NaN (softmax x) N S_ n s Sx) as [_ ->].
  rewrite (@softmax_elem x N 1 S_ n 0 s s Sx)
    by (try lia; rewrite Ex by assumption; now rewrite Hs').
  rewrite Ex by assumption. rewrite Hs'. cbn [xexp]. do 2 f_equal.
  apply gsum_ext. intros j Hj. rewrite Ex by assumption.
  now destruct (j <? nth n lens 0).
Qed.

Lemma forward_masked_softmax_witness :
  exists out sc,
    forward (ex_module "categorical" "enum") ex_query ex_memory
      (Some [3; 2]) None ex_rng = Ok out /\
    score (ex_module "categorical" "enum") ex_query_seq ex_memory = Ok sc /\
    tget NaN (c_align_vectors out) [1; 0]
    = Val (Rdiv (exp (tget 0%R sc [1; 0; 0]))
             (gsum 3 (fun j =>
                if j <? 2 then exp (tget 0%R sc [1; 0; j]) else 0%R))).
Proof.
  assert (H : exists out,
             forward (ex_module "categorical" "enum") ex_query ex_memory
               (Some [3; 2]) None ex_rng = Ok out)
    by (eexists; reflexivity).
  destruct H as [out H].
  destruct (@forward_masked_softmax _ _ _ _ _ _ out 2 3 4 H eq_refl eq_refl)
    as (sc & Hsc & He).
  exists out, sc. split; [exact H |]. split; [exact Hsc |].
  exact (He 1 0 ltac:(lia) ltac:(simpl; lia) ltac:(lia) ltac:(simpl; lia)).
Defined.

(** The posterior [promote] hands on for a one-step query. *)
Lemma promote_q_value (input input' : tensor R) (qs : Params R)
    (q' : option (Params R)) (a la : tensor R) (N S_ : nat) :
  promote input (Some qs) = Ok (true, input', q') ->
  alpha qs = Some a -> shape a = [N; S_] ->
  log_alpha qs = Some la -> shape la = [N; S_] ->
  q' = Some (mkParams (Some (Tensor [N; 1; S_] (data a)))
               (Some (Tensor [N; 1; S_] (data la))) (dist_type qs)
               None None).
Proof.
  unfold promote. destruct (rank input =? 2); [| discriminate].
  intros H Ha Sa Hla Sla.
  apply bind_Ok_inv in H as (i1 & _ & H).
  apply bind_Ok_inv in H as (q1 & Hq & H).
  apply Ok_inj in H. injection H as _ <-.
  rewrite Ha, Hla in Hq. unfold unsqueeze, rank in Hq.
  rewrite Sa, Sla in Hq.
  cbn [length Nat.leb firstn skipn app bind] in Hq.
  apply Ok_inj in Hq. now subst q1.
Qed.

Lemma ravel_app_0 (sh idx : list nat) :
  length idx = length sh -> ravel (sh ++ [1]) (idx ++ [0]) = ravel sh idx.
Proof.
  revert idx. induction sh as [| n sh IH]; intros [| i idx] Hl;
    try discriminate; [reflexivity |].
  cbn [app ravel numel fold_right]. injection Hl as Hl.
  rewrite (IH idx Hl). f_equal. f_equal.
  fold (numel (sh ++ [1])). fold (numel sh).
  clear. induction sh as [| m sh IH]; [reflexivity |].
  cbn [app numel fold_right]. fold (numel (sh ++ [1])). fold (numel sh).
  now rewrite IH.
Qed.

(** Squeezing a trailing dimension of size 1. *)
Lemma squeeze_last_elem {A} (d : A) (c : tensor A) (sh idx : list nat) :
  shape c = (sh ++ [1])%list -> length idx = length sh ->
  shape (squeeze (length sh) c) = sh /\
  tget d (squeeze (length sh) c) idx = tget d c (idx ++ [0]).
Proof.
  intros Hc Hl. unfold squeeze. rewrite Hc.
  rewrite app_nth2, Nat.sub_diag by lia. cbn [nth Nat.eqb].
  rewrite firstn_app, firstn_all, Nat.sub_diag. cbn [firstn].
  rewrite skipn_all2 by (rewrite length_app; simpl; lia).
  rewrite !app_nil_r. split; [reflexivity |].
  unfold tget. cbn [shape data]. rewrite Hc. now rewrite ravel_app_0.
Qed.

(** X20: in mode "sample", for a posterior whose [alpha] and [log_alpha]
    have size [N x S], the returned posterior carries sample
    log-probabilities of size [K x N] whose entry [(k, n)] is the caller's
    [log_alpha] of example [n] at the position drawn for sample [k]. *)
Theorem forward_sample_log_probs (self : VariationalAttention)
    (input memory_bank : tensor R) (memory_lengths : option (list nat))
    (qs : Params R) (g : rng) (out : output) (a la : tensor R) (N S_ : nat) :
  forward self input memory_bank memory_lengths (Some qs) g = Ok out ->
  mode self = "sample" ->
  alpha qs = Some a -> shape a = [N; S_] ->
  log_alpha qs = Some la -> shape la = [N; S_] ->
  exists qo slp,
    q (dist_info out) = Some qo /\ sample_log_probs qo = Some slp /\
    shape slp = [n_samples self; N] /\
    forall k n, k < n_samples self -> n < N ->
      let id := categorical_sample g (ravel [n_samples self; N] [k; n]) in
      id < S_ ->
      tget 0%R slp [k; n] = tget 0%R la [n; id].
Proof.
  intros Hf Hmode Ha Sa Hla Sla.
  apply forward_Ok_inv in Hf
    as (input' & q' & b & s0 & d' & t & c & ps & mask & cc & y & qsm & slp
        & ctx & hy & Hpre & _ & _ & _ & _ & Hq & _ & _ & Hr).
  destruct (one_step_results_Ok_inv _ _ _ _ _ _ _ _ _ _ Hr)
    as (_ & _ & _ & _ & _ & Hqo). rewrite Hqo. clear Hr Hqo.
  rewrite (promote_q_value _ _ Hpre Ha Sa Hla Sla) in Hq |- *.
  apply q_path_Ok_inv in Hq
    as [(_ & qs' & y0 & l & Hqs & _ & Hdt & Hsa & _ & _ & ->) | (Hc & _)];
    [| rewrite Hmode in Hc; discriminate].
  assert (Hqs' : qs' = mkParams (Some (Tensor [N; 1; S_] (data a)))
                         (Some (Tensor [N; 1; S_] (data la))) (dist_type qs)
                         None None) by congruence.
  clear Hqs. subst qs'. cbn [dist_type] in Hdt.
  set (K := n_samples self) in *.
  assert (HK : 0 < K).
  { eapply sample_attn_categorical_inv in Hsa as Hinv;
      [exact (proj1 Hinv) | exact Hdt | reflexivity | reflexivity]. }
  destruct (@sample_attn_categorical
              (mkParams (Some (Tensor [N; 1; S_] (data a)))
                 (Some (Tensor [N; 1; S_] (data la))) (dist_type qs)
                 None None)
              K N 1 S_ _ _ memory_lengths
              (match memory_lengths with Some _ => mask | None => None end)
              g HK Hdt eq_refl eq_refl eq_refl eq_refl)
    as (la4 & Hsa' & Sla4 & Ela4).
  rewrite Hsa' in Hsa. apply Ok_inj in Hsa. injection Hsa as _ Hl.
  subst l.
  cbn [option_map]. eexists _, _. split; [reflexivity |].
  cbn [sample_log_probs]. split; [reflexivity |].
  set (G := gather_last 0%R la4 (attns_id_of g K N 1)).
  assert (SG : shape G = [K; N; 1; 1]) by reflexivity.
  assert (S3 : shape (squeeze 3 G) = [K; N; 1])
    by (unfold squeeze; rewrite SG; reflexivity).
  split.
  - exact (proj1 (@squeeze_last_elem _ 0%R (squeeze 3 G) [K; N] [0; 0] S3
                    eq_refl)).
  - intros k n Hk Hn Hid.
    set (id := categorical_sample g (ravel [K; N] [k; n])) in *.
    destruct (@squeeze_last_elem _ 0%R (squeeze 3 G) [K; N] [k; n] S3
                eq_refl) as [_ E2].
    destruct (@squeeze_last_elem _ 0%R G [K; N; 1] [k; n; 0] SG eq_refl)
      as [_ E3].
    cbn [length app] in E2, E3. rewrite E2, E3. clear E2 E3.
    unfold G, gather_last. cbn [app].
    change (shape (attns_id_of g K N 1)) with [K; N; 1; 1].
    rewrite tget_tgen by in_bounds. cbn [removelast app].
    rewrite attns_id_elem by (assumption || lia).
    replace (ravel [K; N; 1] [k; n; 0]) with (ravel [K; N] [k; n])
      by (simpl; lia).
    fold id. rewrite Ela4 by (assumption || lia).
    apply (@tget_reshape _ 0%R la [N; S_] [n; id] [N; 1; S_] [n; 0; id] Sla).
    simpl; lia.
Qed.

Lemma forward_sample_log_probs_witness :
  exists out qo slp,
    forward (ex_module "categorical" "sample") ex_query ex_memory
      (Some [3; 2]) (Some (ex_q [2; 3])) ex_rng = Ok out /\
    q (dist_info out) = Some qo /\ sample_log_probs qo = Some slp /\
    tget 0%R slp [4; 1] = ln (/ 2).
Proof.
  assert (H : exists out,
             forward (ex_module "categorical" "sample") ex_query ex_memory
               (Some [3; 2]) (Some (ex_q [2; 3])) ex_rng = Ok out)
    by (eexists; reflexivity).
  destruct H as [out H].
  destruct (@forward_sample_log_probs _ _ _ _ _ _ out _ _ 2 3
              H eq_refl eq_refl eq_refl eq_refl eq_refl)
    as (qo & slp & Hq & Hs & _ & He).
  exists out, qo, slp. split; [exact H |].
  split; [exact Hq |]. split; [exact Hs |].
  exact (He 4 1 ltac:(simpl; lia) ltac:(lia) ltac:(simpl; lia)).
Defined.
